(** * Skynet agent runtime: session store, execution registry, response
      sanitizer and streaming orchestrator

    A shallow embedding of the Go sources under [src/core]:
    - [memory.go]   : [ChatSession], [MemoryStore] and their operations;
    - [types.go]    : [CancelManager], [CleaningLLMWrapper.cleanAgentResponse],
                      [Server.executeWithStreaming], [Server.getErrorMessage],
                      [Server.handleStreamChat], [Server.handleChat], the
                      session and stop endpoints, and the [Call] and
                      [GenerateContent] methods of the wrapper;
    - [handlers.go] : the counters and the events of the callback handlers;
    - [config.go]   : [LoadConfig].

    Go strings are byte sequences: a text is a [list ascii].  Pointers to
    sessions are modelled by a heap, so that sharing between the store and
    the values it hands out is visible.  The reasoning engine, the clock and
    the random source are inputs of the model. *)

From Stdlib Require Import List Ascii String ZArith Lia Bool DecimalString.
From Stdlib Require Sorted.
From stdpp Require Import base option list gmap strings.

Set Default Proof Using "Type".
Local Open Scope list_scope.

(** ** Go strings *)

Module GoStrings.

Definition bytes := list ascii.

(** A string literal of the source, as bytes. *)
Definition B (s : string) : bytes := list_ascii_of_string s.

Definition byte (n : nat) : ascii := ascii_of_nat n.

Definition NL : ascii := "010"%char.

Definition isNL (c : ascii) : bool := Ascii.eqb c NL.

(** [strings.HasPrefix(s, p)] *)
Fixpoint HasPrefix (p s : bytes) : bool :=
  match p, s with
  | [], _ => true
  | a :: p', b :: s' => Ascii.eqb a b && HasPrefix p' s'
  | _ :: _, [] => false
  end.

(** [strings.Contains(s, sub)] *)
Fixpoint Contains (s sub : bytes) : bool :=
  HasPrefix sub s ||
  match s with
  | [] => false
  | _ :: s' => Contains s' sub
  end.

(** The first occurrence of [sep] in [s]: the text before it and the text
    after it ([strings.Cut]). *)
Fixpoint cut (sep s : bytes) : option (bytes * bytes) :=
  if HasPrefix sep s then Some ([], drop (length sep) s)
  else match s with
       | [] => None
       | c :: s' =>
           match cut sep s' with
           | Some (before, after) => Some (c :: before, after)
           | None => None
           end
       end.

(** [strings.SplitN(s, sep, 2)] for a non-empty [sep]. *)
Definition SplitN2 (s sep : bytes) : list bytes :=
  match cut sep s with
  | Some (before, after) => [before; after]
  | None => [s]
  end.

(** The UTF-8 encodings of the runes for which [unicode.IsSpace] holds:
    the six ASCII ones, U+0085, U+00A0, U+1680, U+2000..U+200A, U+2028,
    U+2029, U+202F, U+205F and U+3000. *)
Definition spaceEncodings : list bytes :=
  [ [byte 9]; [byte 10]; [byte 11]; [byte 12]; [byte 13]; [byte 32];
    [byte 194; byte 133]; [byte 194; byte 160];
    [byte 225; byte 154; byte 128];
    [byte 226; byte 128; byte 128]; [byte 226; byte 128; byte 129];
    [byte 226; byte 128; byte 130]; [byte 226; byte 128; byte 131];
    [byte 226; byte 128; byte 132]; [byte 226; byte 128; byte 133];
    [byte 226; byte 128; byte 134]; [byte 226; byte 128; byte 135];
    [byte 226; byte 128; byte 136]; [byte 226; byte 128; byte 137];
    [byte 226; byte 128; byte 138];
    [byte 226; byte 128; byte 168]; [byte 226; byte 128; byte 169];
    [byte 226; byte 128; byte 175];
    [byte 226; byte 129; byte 159];
    [byte 227; byte 128; byte 128] ].

(** Width in bytes of the entry of [encs] that [s] starts with, 0 if none. *)
Fixpoint prefixWidth (encs : list bytes) (s : bytes) : nat :=
  match encs with
  | [] => 0
  | e :: encs' => if HasPrefix e s then length e else prefixWidth encs' s
  end.

(** Drops leading runes while they are in [encs]; [skip] counts the bytes of
    the current rune still to drop. *)
Fixpoint trimLeftWith (encs : list bytes) (skip : nat) (s : bytes) : bytes :=
  match s with
  | [] => []
  | _ :: s' =>
      match skip with
      | S k => trimLeftWith encs k s'
      | O =>
          match prefixWidth encs s with
          | S k => trimLeftWith encs k s'
          | O => s
          end
      end
  end.

Definition TrimLeftSpace (s : bytes) : bytes := trimLeftWith spaceEncodings 0 s.

(** The last rune is examined through the reversed text and the reversed
    encodings: a text ends with a white-space rune exactly when it ends with
    the bytes of one of [spaceEncodings]. *)
Definition TrimRightSpace (s : bytes) : bytes :=
  rev (trimLeftWith (map (@rev ascii) spaceEncodings) 0 (rev s)).

(** [strings.TrimSpace(s)] *)
Definition TrimSpace (s : bytes) : bytes := TrimRightSpace (TrimLeftSpace s).

Definition isUpperASCII (c : ascii) : bool :=
  (65 <=? nat_of_ascii c)%nat && (nat_of_ascii c <=? 90)%nat.

Definition isLowerASCII (c : ascii) : bool :=
  (97 <=? nat_of_ascii c)%nat && (nat_of_ascii c <=? 122)%nat.

Definition lowerASCII (c : ascii) : ascii :=
  if isUpperASCII c then ascii_of_nat (nat_of_ascii c + 32) else c.

Definition upperASCII (c : ascii) : ascii :=
  if isLowerASCII c then ascii_of_nat (nat_of_ascii c - 32) else c.

(** [strings.ToLower(s)].  ASCII capitals are lowered, and so are the two
    other runes whose lower case is an ASCII letter: U+0130 (bytes C4 B0,
    lowered to i) and U+212A (bytes E2 84 AA, lowered to k).  Every other
    rune keeps its bytes here; Go maps it to a rune outside ASCII (or to
    U+FFFD for a malformed byte), which never takes part in an occurrence of
    an ASCII needle, the only use [cleanAgentResponse] makes of the result. *)
Fixpoint toLowerSkip (skip : nat) (s : bytes) : bytes :=
  match s with
  | [] => []
  | c :: s' =>
      match skip with
      | S k => toLowerSkip k s'
      | O =>
          if HasPrefix [byte 196; byte 176] s then B "i" ++ toLowerSkip 1 s'
          else if HasPrefix [byte 226; byte 132; byte 170] s then B "k" ++ toLowerSkip 2 s'
          else lowerASCII c :: toLowerSkip 0 s'
      end
  end.

Definition ToLower (s : bytes) : bytes := toLowerSkip 0 s.

(** The number of code points of a well-formed UTF-8 text: the bytes that
    are not continuation bytes ([10xxxxxx]). *)
Definition isContinuation (c : ascii) : bool :=
  (128 <=? nat_of_ascii c)%nat && (nat_of_ascii c <=? 191)%nat.

Definition runeCount (s : bytes) : nat :=
  length (filter (fun c => isContinuation c = false) s).

End GoStrings.

Export GoStrings.


(** ** The regular expressions of the sanitizer

    Go's [regexp] package matches leftmost-first, the way a backtracking
    engine does.  The expressions of [cleanAgentResponse] are sequences of
    literals, character classes, starred character classes and the
    multi-line anchors, which is the syntax modelled here. *)

Module Regexp.

Inductive atom :=
| Lit (alts : list bytes)            (* one of several literal byte strings *)
| Class (cls : ascii -> bool)        (* one byte of a class *)
| Star (cls : ascii -> bool) (greedy : bool)   (* cls* or cls*? *)
| BOL                                (* ^ under (?m) *)
| EOL.                               (* $ under (?m) *)

Definition regex := list atom.

(** Does the position after [l] follow a line feed, when the position
    before [l] has flag [bol]? *)
Definition lastIsNL (bol : bool) (l : bytes) : bool :=
  fold_left (fun _ c => isNL c) l bol.

(** The alternatives of a literal, tried in order; [k] matches the rest of
    the expression. *)
Fixpoint tryAlts (k : bool -> bytes -> option nat) (bol : bool) (s : bytes)
    (alts : list bytes) : option nat :=
  match alts with
  | [] => None
  | l :: alts' =>
      if HasPrefix l s then
        match k (lastIsNL bol l) (drop (length l) s) with
        | Some n => Some (length l + n)
        | None => tryAlts k bol s alts'
        end
      else tryAlts k bol s alts'
  end.

(** A starred class: the greedy star prefers one more byte, the lazy one
    prefers to go on with the rest of the expression. *)
Fixpoint starLoop (cls : ascii -> bool) (greedy : bool)
    (k : bool -> bytes -> option nat) (bol : bool) (s : bytes) : option nat :=
  let more :=
    match s with
    | c :: s' => if cls c then S <$> starLoop cls greedy k (isNL c) s' else None
    | [] => None
    end in
  if greedy then
    match more with
    | Some n => Some n
    | None => k bol s
    end
  else
    match k bol s with
    | Some n => Some n
    | None => more
    end.

(** [matchSeq p bol s]: the number of bytes of the preferred match of [p] at
    the start of [s]; [bol] tells whether [s] starts the text or follows a
    line feed. *)
Fixpoint matchSeq (p : regex) (bol : bool) (s : bytes) : option nat :=
  match p with
  | [] => Some 0
  | Lit alts :: p' => tryAlts (matchSeq p') bol s alts
  | Class cls :: p' =>
      match s with
      | c :: s' => if cls c then S <$> matchSeq p' (isNL c) s' else None
      | [] => None
      end
  | Star cls greedy :: p' => starLoop cls greedy (matchSeq p') bol s
  | BOL :: p' => if bol then matchSeq p' bol s else None
  | EOL :: p' =>
      match s with
      | [] => matchSeq p' bol s
      | c :: _ => if isNL c then matchSeq p' bol s else None
      end
  end.

(** Is there a match starting at some position of [s]? *)
Fixpoint matchFrom (re : regex) (bol : bool) (s : bytes) : bool :=
  match matchSeq re bol s with
  | Some _ => true
  | None =>
      match s with
      | [] => false
      | c :: s' => matchFrom re (isNL c) s'
      end
  end.

(** [re.MatchString(s)] *)
Definition MatchString (re : regex) (s : bytes) : bool := matchFrom re true s.

(** [re.ReplaceAllString(s, repl)] for a replacement without [$] and an
    expression that matches no empty string (each one below starts with a
    literal).  [skip] counts the bytes of the current match still to pass. *)
Fixpoint replaceAll (re : regex) (repl : bytes) (bol : bool) (skip : nat)
    (s : bytes) : bytes :=
  match s with
  | [] => []
  | c :: s' =>
      match skip with
      | S k => replaceAll re repl (isNL c) k s'
      | O =>
          match matchSeq re bol s with
          | Some (S n) => repl ++ replaceAll re repl (isNL c) n s'
          | _ => c :: replaceAll re repl (isNL c) 0 s'
          end
      end
  end.

Definition ReplaceAllString (re : regex) (s repl : bytes) : bytes :=
  replaceAll re repl true 0 s.

(** The leftmost match: the offset where it starts and its length. *)
Fixpoint findFrom (re : regex) (bol : bool) (s : bytes) : option (nat * nat) :=
  match matchSeq re bol s with
  | Some n => Some (0, n)
  | None =>
      match s with
      | [] => None
      | c :: s' =>
          match findFrom re (isNL c) s' with
          | Some (i, n) => Some (S i, n)
          | None => None
          end
      end
  end.

(** The simple case folding of Go's [(?i)]: a letter matches both of its
    ASCII cases; k also matches U+212A (KELVIN SIGN) and s also matches
    U+017F (LATIN SMALL LETTER LONG S). *)
Definition foldAlts (c : ascii) : list bytes :=
  if isLowerASCII c || isUpperASCII c then
    [lowerASCII c] :: [upperASCII c] ::
      (if Ascii.eqb (lowerASCII c) "k" then [[byte 226; byte 132; byte 170]]
       else if Ascii.eqb (lowerASCII c) "s" then [[byte 197; byte 191]]
       else [])
  else [[c]].

(** Evaluates the alternatives of the letters met in a goal. *)
Ltac eval_folds :=
  repeat match goal with
         | |- context [foldAlts ?c] =>
             let v := eval vm_compute in (foldAlts c) in
             change (foldAlts c) with v
         end.

(** A literal under [(?i)]. *)
Definition ci (s : string) : regex := map (fun c => Lit (foldAlts c)) (B s).

(** A case-sensitive literal. *)
Definition lit (s : string) : regex := [Lit [B s]].

(** [.] under [(?s)] and without it. *)
Definition anyByte (c : ascii) : bool := true.
Definition notNL (c : ascii) : bool := negb (isNL c).

(** [\s], which is [[\t\n\f\r ]] in Go. *)
Definition isSpaceRE (c : ascii) : bool :=
  Ascii.eqb c (byte 9) || Ascii.eqb c (byte 10) || Ascii.eqb c (byte 12)
  || Ascii.eqb c (byte 13) || Ascii.eqb c (byte 32).

(** Predicates on texts and expressions used in the statements below. *)

Definition LT : ascii := "<"%char.

Definition noByte (ch : ascii) (s : bytes) : bool :=
  forallb (fun c => negb (Ascii.eqb c ch)) s.

Definition anchorFree (p : regex) : bool :=
  forallb (fun a => match a with BOL | EOL => false | _ => true end) p.

(** Every atom is a literal whose alternatives do not contain [ch]. *)
Definition litsAvoid (ch : ascii) (p : regex) : bool :=
  forallb (fun a => match a with
                    | Lit alts => forallb (noByte ch) alts
                    | _ => false
                    end) p.


(** The alternatives of a literal are not empty and start with different
    bytes, so that at most one of them starts a given text. *)
Definition headsDiffer (alts : list bytes) : bool :=
  forallb (fun l => match l with [] => false | _ :: _ => true end) alts
  && bool_decide (NoDup (map (hd "000"%char) alts)).

(** A sequence of such literals. *)
Definition literals (p : regex) : bool :=
  forallb (fun a => match a with
                    | Lit alts => headsDiffer alts
                    | _ => false
                    end) p.

(** The number of leading bytes of the class [\s]. *)
Fixpoint spaceRun (t : bytes) : nat :=
  match t with
  | c :: t' => if isSpaceRE c then S (spaceRun t') else 0
  | [] => 0
  end.


End Regexp.

Export Regexp.

(** ** The response sanitizer ([CleaningLLMWrapper.cleanAgentResponse]) *)

Module Sanitizer.

(** [(?i)(?s)<think>.*?</think>] *)
Definition thinkRegex : regex :=
  ci "<think>" ++ [Star anyByte false] ++ ci "</think>".

(** [(?i)<think>.*] *)
Definition openThinkRegex : regex := ci "<think>" ++ [Star notNL true].

(** [(?i)(?s)<reasoning>.*?</reasoning>] *)
Definition reasoningRegex : regex :=
  ci "<reasoning>" ++ [Star anyByte false] ++ ci "</reasoning>".

(** [\n\s*\n\s*\n+] *)
Definition multiNewlineRegex : regex :=
  [Class isNL; Star isSpaceRE true; Class isNL; Star isSpaceRE true;
   Class isNL; Star isNL true].

(** [(?m)^Action Input:\s*$] *)
Definition emptyActionInputRegex : regex :=
  [BOL] ++ lit "Action Input:" ++ [Star isSpaceRE true; EOL].

(** [(?m)^Action Input:\s*\n] *)
Definition actionInputEndRegex : regex :=
  [BOL] ++ lit "Action Input:" ++ [Star isSpaceRE true; Class isNL].

Definition fixEmptyActionInput (cleaned : bytes) : bytes :=
  if MatchString emptyActionInputRegex cleaned
  then ReplaceAllString emptyActionInputRegex cleaned (B "Action Input: ")
  else cleaned.

Definition fixActionInputEnd (cleaned : bytes) : bytes :=
  if MatchString actionInputEndRegex cleaned
  then ReplaceAllString actionInputEndRegex cleaned (B "Action Input: " ++ [NL])
  else cleaned.

(** The removal of the hidden-reasoning markup (the three
    [ReplaceAllString] calls that open the function). *)
Definition stripThinkBlocks (response : bytes) : bytes :=
  ReplaceAllString thinkRegex response [].

Definition stripOpenThink (cleaned : bytes) : bytes :=
  ReplaceAllString openThinkRegex cleaned [].

Definition stripReasoning (cleaned : bytes) : bytes :=
  ReplaceAllString reasoningRegex cleaned [].

Definition collapseNewlines (cleaned : bytes) : bytes :=
  ReplaceAllString multiNewlineRegex cleaned [NL; NL].

(** The value of [cleaned] when the function reaches the test for the agent
    format. *)
Definition normalize (response : bytes) : bytes :=
  fixActionInputEnd
    (fixEmptyActionInput
       (collapseNewlines
          (TrimSpace
             (stripReasoning (stripOpenThink (stripThinkBlocks response)))))).

Definition hasAgentFormat (cleaned : bytes) : bool :=
  Contains cleaned (B "Thought:") || Contains cleaned (B "Action:")
  || Contains cleaned (B "Final Answer:") || Contains cleaned (B "Observation:").

Definition isEmpty (s : bytes) : bool :=
  match s with [] => true | _ => false end.

Definition looksLikeRefusal (cleaned : bytes) : bool :=
  Contains (ToLower cleaned) (B "i don't").

Definition wrapPrefix : bytes :=
  B "Thought: I can provide a direct answer to this question." ++ [NL]
    ++ B "Final Answer: ".

Definition fallbackMessage : bytes :=
  B "I understand your request but need to process it differently. Could you please rephrase your question?".

Definition cleanAgentResponse (response : bytes) : bytes :=
  let cleaned := normalize response in
  let cleaned :=
    if negb (hasAgentFormat cleaned) && negb (isEmpty cleaned) then
      if (50 <? length cleaned)%nat && negb (looksLikeRefusal cleaned)
      then wrapPrefix ++ cleaned
      else cleaned
    else cleaned in
  if isEmpty cleaned then fallbackMessage else cleaned.

(** [CleanAgentResponse], the exported entry point. *)
Definition CleanAgentResponse (response : bytes) : bytes :=
  cleanAgentResponse response.

(** The closing marker, and the expressions without their first byte. *)

Definition closeThink : regex := ci "</think>".

(** No closing marker occurs in [t]. *)
Definition noCloseThink (t : bytes) : bool := negb (MatchString closeThink t).

Definition closeThinkTail : regex := ci "/think>".

Definition thinkTail : regex :=
  ci "think>" ++ [Star anyByte false] ++ closeThink.

Definition openThinkTail : regex := ci "think>" ++ [Star notNL true].



(** The markers of the two kinds of block. *)
Definition openThink : regex := ci "<think>".
Definition openReasoning : regex := ci "<reasoning>".
Definition closeReasoning : regex := ci "</reasoning>".

(** [marker] spells the literal [p], in some letter case. *)
Definition spells (p : regex) (marker : bytes) : bool :=
  bool_decide (matchSeq p true marker = Some (length marker)).













End Sanitizer.

Export Sanitizer.


(** ** The session store ([memory.go]) *)

Module Memory.

(** [time.Time], as a number of nanoseconds. *)
Definition Time := Z.

Record ChatMessage := {
  Role : bytes;
  Content : bytes;
  Timestamp : Time
}.

Record ChatSession := {
  ID : bytes;
  Messages : list ChatMessage;
  Created : Time;
  Updated : Time
}.

(** A [*ChatSession]. *)
Definition ptr := positive.

(** The session objects, and the [sessions] map of the [MemoryStore], which
    holds pointers to them. *)
Record Store := {
  heap : gmap ptr ChatSession;
  sessions : gmap bytes ptr
}.

(** What the environment hands to one call: the outcome of [rand.Read] on a
    16-byte buffer ([None] when it fails) and the reading of the clock (the
    readings within one call are taken to be equal). *)
Record Env := {
  randRead : option bytes;
  now : Time
}.

Definition hexDigit (n : nat) : ascii :=
  nth n (B "0123456789abcdef") "0"%char.

(** [hex.EncodeToString] *)
Definition hexEncode (bs : bytes) : bytes :=
  flat_map (fun c => [hexDigit (nat_of_ascii c / 16);
                      hexDigit (nat_of_ascii c mod 16)]) bs.

(** [fmt.Sprintf("%d", z)] *)
Definition decimal (z : Z) : bytes := B (NilEmpty.string_of_int (Z.to_int z)).

Definition generateSessionID (e : Env) : bytes :=
  match randRead e with
  | None => B "session_" ++ decimal (now e)
  | Some bs => B "session_" ++ hexEncode bs
  end.

Definition touch (t : Time) (s : ChatSession) : ChatSession :=
  {| ID := ID s; Messages := Messages s; Created := Created s; Updated := t |}.

Definition GetOrCreateSession (e : Env) (m : Store) (sessionID : bytes)
    : Store * ptr :=
  let sessionID := if isEmpty sessionID then generateSessionID e else sessionID in
  match sessions m !! sessionID with
  | None =>
      let p := fresh (dom (heap m)) in
      let session := {| ID := sessionID; Messages := [];
                        Created := now e; Updated := now e |} in
      ({| heap := <[p := session]> (heap m);
          sessions := <[sessionID := p]> (sessions m) |}, p)
  | Some p =>
      ({| heap := alter (touch (now e)) p (heap m); sessions := sessions m |}, p)
  end.

(** The second component is [None] for the pair [(nil, false)]. *)
Definition GetSession (e : Env) (m : Store) (sessionID : bytes)
    : Store * option ptr :=
  match sessions m !! sessionID with
  | Some p =>
      ({| heap := alter (touch (now e)) p (heap m); sessions := sessions m |},
       Some p)
  | None => (m, None)
  end.

Definition DeleteSession (m : Store) (sessionID : bytes) : Store * bool :=
  match sessions m !! sessionID with
  | Some _ =>
      ({| heap := heap m; sessions := delete sessionID (sessions m) |}, true)
  | None => (m, false)
  end.

(** The fresh slice of pointers.  Go leaves the order of a [range] over a
    map unspecified; the order of [map_to_list] stands for it, and no
    statement below depends on it. *)
Definition GetAllSessions (m : Store) : list ptr :=
  (map_to_list (sessions m)).*2.

Definition addMessage (t : Time) (role content : bytes) (s : ChatSession)
    : ChatSession :=
  {| ID := ID s;
     Messages := Messages s ++ [{| Role := role; Content := content; Timestamp := t |}];
     Created := Created s;
     Updated := t |}.

(** [s.AddMessage(role, content)] on the session that [p] points to. *)
Definition AddMessage (e : Env) (h : gmap ptr ChatSession) (p : ptr)
    (role content : bytes) : gmap ptr ChatSession :=
  alter (addMessage (now e) role content) p h.

(** [s.GetRecentMessages(limit)]; [None] is the run-time panic of a slice
    expression whose low bound lies outside [0 .. len].  The subtraction is
    exact here.  Go's wraps around at 64 bits, which happens only for a
    negative [limit], and then the wrapped bound is negative where the exact
    one exceeds [len]: the slice expression panics in both. *)
Definition GetRecentMessages (s : ChatSession) (limit : Z)
    : option (list ChatMessage) :=
  let len := Z.of_nat (length (Messages s)) in
  if (len <=? limit)%Z then Some (Messages s)
  else
    let low := (len - limit)%Z in
    if ((0 <=? low) && (low <=? len))%Z
    then Some (drop (Z.to_nat low) (Messages s))
    else None.

Definition clearMessages (t : Time) (s : ChatSession) : ChatSession :=
  {| ID := ID s; Messages := []; Created := Created s; Updated := t |}.

(** [s.ClearMessages()]: the session afterwards and the count returned. *)
Definition ClearMessages (e : Env) (s : ChatSession) : ChatSession * nat :=
  (clearMessages (now e) s, length (Messages s)).

Definition formatMessage (msg : ChatMessage) : bytes :=
  if bool_decide (Role msg = B "user")
  then B "Human: " ++ Content msg ++ [NL]
  else if bool_decide (Role msg = B "assistant")
  then B "Assistant: " ++ Content msg ++ [NL]
  else [].

Definition GetConversationContext (s : ChatSession) (limit : Z) : option bytes :=
  match GetRecentMessages s limit with
  | None => None
  | Some [] => Some []
  | Some messages =>
      Some (B "Previous conversation context:" ++ [NL]
              ++ flat_map formatMessage messages
              ++ [NL] ++ B "Current conversation:" ++ [NL])
  end.

(** One round of [cleanupExpiredSessions]. *)
Definition expired (maxAge : Z) (t : Time) (h : gmap ptr ChatSession) (p : ptr)
    : bool :=
  match h !! p with
  | Some s => (maxAge <? t - Updated s)%Z
  | None => false
  end.

Definition cleanupRound (maxAge : Z) (t : Time) (m : Store) : Store :=
  {| heap := heap m;
     sessions := filter (fun kv => expired maxAge t (heap m) kv.2 = false)
                        (sessions m) |}.

(** Every pointer of the map points to a session object. *)
Definition wf (m : Store) : Prop :=
  forall id p, sessions m !! id = Some p -> is_Some (heap m !! p).

(** The store seen as a map from identifiers to session values. *)
Definition contents (m : Store) : gmap bytes ChatSession :=
  omap (fun p => heap m !! p) (sessions m).

(** The sessions a slice of pointers gives access to. *)
Definition deref (h : gmap ptr ChatSession) (snapshot : list ptr)
    : list (option ChatSession) :=
  map (fun p => h !! p) snapshot.

Definition emptyStore : Store := {| heap := ∅; sessions := ∅ |}.

Definition withHeap (m : Store) (h : gmap ptr ChatSession) : Store :=
  {| heap := h; sessions := sessions m |}.

End Memory.

(** ** The execution registry ([CancelManager]) *)

Module Cancel.

(** A [context.CancelFunc] is known by the context it cancels. *)
Definition handle := nat.

Inductive CtxErr := Canceled | DeadlineExceeded.

(** [ctx.Err()] of every context: absent for [nil].  The first cause stays. *)
Abbreviation contexts := (gmap handle CtxErr).

Definition settle (cause : CtxErr) (h : handle) (cs : contexts) : contexts :=
  match cs !! h with
  | None => <[h := cause]> cs
  | Some _ => cs
  end.

(** The registry, the contexts its triggers act on, and the log of the
    trigger invocations. *)
Record State := {
  executions : gmap bytes handle;
  ctxs : contexts;
  invoked : list handle
}.

(** Calling the cancel function [h]. *)
Definition invoke (h : handle) (st : State) : State :=
  {| executions := executions st;
     ctxs := settle Canceled h (ctxs st);
     invoked := invoked st ++ [h] |}.

(** The timer of [context.WithTimeout] firing. *)
Definition expire (h : handle) (st : State) : State :=
  {| executions := executions st;
     ctxs := settle DeadlineExceeded h (ctxs st);
     invoked := invoked st |}.

Definition AddExecution (st : State) (executionID : bytes) (cancel : handle)
    : State :=
  {| executions := <[executionID := cancel]> (executions st);
     ctxs := ctxs st; invoked := invoked st |}.

Definition RemoveExecution (st : State) (executionID : bytes) : State :=
  {| executions := delete executionID (executions st);
     ctxs := ctxs st; invoked := invoked st |}.

Definition CancelExecution (st : State) (executionID : bytes) : State * bool :=
  match executions st !! executionID with
  | Some cancel => (RemoveExecution (invoke cancel st) executionID, true)
  | None => (st, false)
  end.

Definition GetActiveExecutions (st : State) : list bytes :=
  (map_to_list (executions st)).*1.

End Cancel.

(** ** The streaming orchestrator ([handleStreamChat],
       [executeWithStreaming], [getErrorMessage]) and [handleChat] *)

Module Orchestrator.

Import Memory Cancel.

(** The fields of a [StreamMessage] that the server itself fills in. *)
Record StreamMessage := {
  Type_ : bytes;
  Content_ : bytes;
  Complete : bool;
  Debug : bool
}.

Definition event (type content : bytes) : StreamMessage :=
  {| Type_ := type; Content_ := content; Complete := false; Debug := false |}.

Record ChatRequest := {
  Message : bytes;
  SessionID : bytes
}.

Record ChatResponse := {
  Response : bytes;
  ResponseSessionID : bytes
}.

(** The two settings read here.  [LoadConfig] starts from the limit 10 and
    replaces it only by a value greater than 0, hence the type. *)
Record Config := {
  ContextLimit : positive;
  DebugMode : bool
}.

(** A Go [error]: [None] for [nil], else the text of [err.Error()]. *)
Definition error := option bytes.

(** What happens inside the closure of [executeWithStreaming] before its
    test for a parsing error.  The engine is not part of this program: its
    behaviour is an input. *)
Inductive ChainOutcome :=
| SetupReturned (err : error)
    (* debug mode: the closure returns before [chains.Run] *)
| ChainReturned (result : bytes) (err : error)
    (* [chains.Run] returns *)
| Panicked (v : bytes).
    (* a panic, recovered by the deferred function *)

Record EngineRun := {
  outcome : ChainOutcome;
  (* the contents of the events the streaming callbacks send, debug mode only *)
  callbackEvents : list bytes
}.

Definition parseMarker : bytes := B "unable to parse agent output".
Definition parseMarkerColon : bytes := B "unable to parse agent output: ".
Definition finalAnswerMarker : bytes := B "Final Answer:".

Definition malformedResponseError : bytes :=
  B "the agent generated a malformed response that couldn't be parsed".

Definition timeoutError : bytes := B "request timed out after 300 seconds".

(** The expression [(?s)Final Answer:\s*( .* )] without its group; under
    [(?s)] the group, a greedy star of the dot, is the whole remainder of the
    text. *)
Definition finalAnswerRegex : regex :=
  lit "Final Answer:" ++ [Star isSpaceRE true].

(** The first group of [finalAnswerRegex.FindStringSubmatch(cleaned)]. *)
Definition FindStringSubmatch1 (cleaned : bytes) : option bytes :=
  match findFrom finalAnswerRegex true cleaned with
  | Some (i, n) => Some (drop (i + n) cleaned)
  | None => None
  end.

(** The outcome of the closure: [result], [err], and the texts on which the
    sanitizer was run. *)
Record Recovered := {
  result : bytes;
  err : error;
  cleanCalls : list bytes
}.

(** The block "Handle specific parsing errors". *)
Definition recoverParsingError (result0 : bytes) (err0 : error) : Recovered :=
  match err0 with
  | None => {| result := result0; err := None; cleanCalls := [] |}
  | Some e =>
      if Contains e parseMarker then
        let failed calls :=
          {| result := result0; err := Some malformedResponseError;
             cleanCalls := calls |} in
        if Contains e parseMarkerColon then
          match SplitN2 e parseMarkerColon with
          | _ :: rawResponse :: _ =>
              let cleaned := cleanAgentResponse rawResponse in
              if negb (isEmpty cleaned) && Contains cleaned finalAnswerMarker
              then
                {| result := match FindStringSubmatch1 cleaned with
                             | Some group => TrimSpace group
                             | None => cleaned
                             end;
                   err := None;
                   cleanCalls := [rawResponse] |}
              else failed [rawResponse]
          | _ => failed []
          end
        else failed []
      else {| result := result0; err := Some e; cleanCalls := [] |}
  end.

(** The closure of [executeWithStreaming], with its deferred [recover]. *)
Definition runClosure (o : ChainOutcome) : Recovered :=
  match o with
  | SetupReturned e => {| result := []; err := e; cleanCalls := [] |}
  | ChainReturned r e => recoverParsingError r e
  | Panicked v =>
      {| result := [];
         err := Some (B "execution failed due to internal error: " ++ v);
         cleanCalls := [] |}
  end.

Definition thinking (content : bytes) (debug : bool) : StreamMessage :=
  {| Type_ := B "thinking"; Content_ := content; Complete := false;
     Debug := debug |}.

Definition debugEvent (content : bytes) : StreamMessage :=
  {| Type_ := B "debug"; Content_ := content; Complete := false; Debug := true |}.

(** [executeWithStreaming]: the events sent, the returned pair, and the
    sanitizer calls.  [ctxErr] is [ctx.Err()] when the closure is over. *)
Definition executeWithStreaming (ctxErr : option CtxErr) (debug : bool)
    (run : EngineRun) : list StreamMessage * (bytes * error) * list bytes :=
  let started := [thinking (B "Processing your request...") debug] in
  let streamed := if debug then map debugEvent (callbackEvents run) else [] in
  let r := runClosure (outcome run) in
  match err r with
  | Some e =>
      match ctxErr with
      | Some DeadlineExceeded =>
          (started ++ streamed, ([], Some timeoutError), cleanCalls r)
      | _ => (started ++ streamed, ([], Some e), cleanCalls r)
      end
  | None =>
      (started ++ streamed ++ [thinking (B "Formatting response...") debug],
       (result r, None), cleanCalls r)
  end.

Definition getErrorMessage (e : bytes) : bytes :=
  let errorMsg := B "I encountered an error processing your request. " in
  if Contains e (B "unable to parse") then
    errorMsg ++ B "The agent had trouble interpreting the tool output. Please try rephrasing your request."
  else if Contains e (B "max iterations") then
    errorMsg ++ B "The request was too complex and required too many steps to complete. Please try breaking it down into simpler requests or be more specific about what you need."
  else if Contains e (B "context") then
    errorMsg ++ B "The request timed out. Please try a simpler request."
  else
    errorMsg ++ B "Please try again or contact support if the issue persists.".

(** The shared state of the server. *)
Record Server := {
  memoryStore : Store;
  cancelManager : State
}.

(** Requests and timers that act while a run is inside the engine. *)
Inductive Action :=
| Stop (executionID : bytes)     (* [handleStopExecution] on another connection *)
| Deadline.                      (* the timer of this run's context *)

Definition applyAction (h : handle) (st : State) (a : Action) : State :=
  match a with
  | Stop executionID => (CancelExecution st executionID).1
  | Deadline => expire h st
  end.

(** The inputs of one streaming request besides the request itself. *)
Record RunInputs := {
  env : Env;                        (* clock and random source *)
  ctxHandle : handle;               (* the context made by [WithTimeout] *)
  during : list Action;             (* what happens while the engine runs *)
  engine : bytes -> EngineRun       (* the engine, on the prompt it is given *)
}.

Definition sessionMessages (m : Store) (p : ptr) : list ChatMessage :=
  match heap m !! p with
  | Some s => Messages s
  | None => []
  end.

Definition sessionID (m : Store) (p : ptr) : bytes :=
  match heap m !! p with
  | Some s => ID s
  | None => []
  end.

(** The prompt: the message alone for a new conversation, else preceded by
    the rendered history.  [None] when [GetRecentMessages] panics. *)
Definition messageWithContext (cfg : Config) (m : Store) (p : ptr)
    (message : bytes) : option bytes :=
  if (1 <? length (sessionMessages m p))%nat then
    match heap m !! p with
    | Some s =>
        match GetConversationContext s (Z.pos (ContextLimit cfg)) with
        | Some conversationContext =>
            Some (conversationContext ++ B "Human: " ++ message)
        | None => None
        end
    | None => None
    end
  else Some message.

(** The deferred function of [handleStreamChat]. *)
Definition deferred (executionID : bytes) (h : handle) (st : State) : State :=
  invoke h (RemoveExecution st executionID).

(** [handleStreamChat] after the request body is bound: the server
    afterwards, the session used, and the events written to the response.
    [None] when the handler panics outside the closure. *)
Definition handleStreamChat (cfg : Config) (srv : Server) (req : ChatRequest)
    (inp : RunInputs) : option (Server * ptr * list StreamMessage) :=
  let '(m1, session) := GetOrCreateSession (env inp) (memoryStore srv) (SessionID req) in
  let m2 := withHeap m1 (AddMessage (env inp) (heap m1) session (B "user") (Message req)) in
  let executionID := B "exec_" ++ decimal (now (env inp)) in
  let h := ctxHandle inp in
  let opening :=
    [event (B "session") (sessionID m2 session);
     event (B "execution_started") executionID] in
  let c1 := AddExecution (cancelManager srv) executionID h in
  let opening := opening ++ [event (B "thinking") (B "Processing your request...")] in
  match messageWithContext cfg m2 session (Message req) with
  | None => None
  | Some prompt =>
      let c2 := fold_left (applyAction h) (during inp) c1 in
      let ctxErr := ctxs c2 !! h in
      let '(sent, (result, err), _) :=
        executeWithStreaming ctxErr (DebugMode cfg) (engine inp prompt) in
      match err with
      | Some e =>
          let closing :=
            match ctxErr with
            | Some Canceled => event (B "stopped") (B "Agent execution was stopped")
            | _ => event (B "error") (getErrorMessage e)
            end in
          Some ({| memoryStore := m2;
                   cancelManager := deferred executionID h c2 |},
                session, opening ++ sent ++ [closing])
      | None =>
          let m3 := withHeap m2 (AddMessage (env inp) (heap m2) session
                                            (B "assistant") result) in
          Some ({| memoryStore := m3;
                   cancelManager := deferred executionID h c2 |},
                session,
                opening ++ sent
                  ++ [{| Type_ := B "response"; Content_ := result;
                         Complete := true; Debug := false |}])
      end
  end.

(** [handleChat], the request/response path.  It registers nothing and never
    reads [ctx.Err()]: what it answers depends on the error of the engine
    alone. *)
Definition handleChat (cfg : Config) (srv : Server) (req : ChatRequest)
    (e : Env) (engine : bytes -> bytes * error)
    : option (Server * ChatResponse) :=
  let '(m1, session) := GetOrCreateSession e (memoryStore srv) (SessionID req) in
  let m2 := withHeap m1 (AddMessage e (heap m1) session (B "user") (Message req)) in
  match messageWithContext cfg m2 session (Message req) with
  | None => None
  | Some prompt =>
      match engine prompt with
      | (_, Some err) =>
          Some ({| memoryStore := m2; cancelManager := cancelManager srv |},
                {| Response := getErrorMessage err;
                   ResponseSessionID := sessionID m2 session |})
      | (result, None) =>
          let m3 := withHeap m2 (AddMessage e (heap m2) session
                                            (B "assistant") result) in
          Some ({| memoryStore := m3; cancelManager := cancelManager srv |},
                {| Response := result;
                   ResponseSessionID := sessionID m3 session |})
      end
  end.

(** While no deadline fires, the run is still registered and not cancelled,
    or it has been cancelled. *)
Definition liveOrCancelled (executionID : bytes) (h : handle) (st : State) : Prop :=
  (executions st !! executionID = Some h /\ ctxs st !! h = None)
  \/ ctxs st !! h = Some Canceled.

End Orchestrator.

(** ** Example texts and stores *)

Module Examples.

Import Memory Cancel Orchestrator.

Definition zeroBytes16 : bytes := repeat (byte 0) 16.

Definition twoMessages : ChatSession :=
  {| ID := B "s"; Created := 0%Z; Updated := 0%Z;
     Messages := [ {| Role := B "user"; Content := B "hi"; Timestamp := 0%Z |};
                   {| Role := B "assistant"; Content := B "hello"; Timestamp := 0%Z |} ] |}.

Definition oneSession : Store :=
  {| heap := {[ 1%positive := twoMessages ]};
     sessions := {[ B "s" := 1%positive ]} |}.

Definition emptyServer : Server :=
  {| memoryStore := emptyStore;
     cancelManager := {| executions := ∅; ctxs := ∅; invoked := [] |} |}.

Definition defaultConfig : Config := {| ContextLimit := 10; DebugMode := false |}.

Definition someEnv : Env := {| randRead := Some zeroBytes16; now := 1700000000%Z |}.

Definition listRequest : ChatRequest :=
  {| Message := B "list the files"; SessionID := [] |}.

Definition engineReturns (result : bytes) (e : error) : bytes -> EngineRun :=
  fun _ => {| outcome := ChainReturned result e; callbackEvents := [] |}.

(** A run during which a stop request for it arrives, and whose engine
    nevertheless returns an answer. *)
Definition stoppedButFinished : RunInputs :=
  {| env := someEnv; ctxHandle := 7;
     during := [Stop (B "exec_1700000000")];
     engine := engineReturns (B "done") None |}.

(** A run during which a stop request for it arrives, and whose engine then
    gives up with the error of the cancelled context. *)
Definition stoppedAndFailed : RunInputs :=
  {| env := someEnv; ctxHandle := 7;
     during := [Stop (B "exec_1700000000")];
     engine := engineReturns [] (Some (B "context canceled")) |}.

(** A run whose deadline passes, and whose engine gives up with the error of
    the expired context. *)
Definition timedOut : RunInputs :=
  {| env := someEnv; ctxHandle := 7;
     during := [Deadline];
     engine := engineReturns [] (Some (B "context deadline exceeded")) |}.

(** An engine run that ends with a parsing error on a text the sanitizer
    cannot turn into an answer. *)
Definition unparsable : EngineRun :=
  {| outcome := ChainReturned []
                  (Some (B "unable to parse agent output: no idea"));
     callbackEvents := [] |}.

(** An engine run that ends with a parsing error on a text that holds an
    answer. *)
Definition recoverable : EngineRun :=
  {| outcome := ChainReturned []
                  (Some (B "unable to parse agent output: Final Answer:  42 "));
     callbackEvents := [] |}.


Definition cleanTrace : bytes :=
  B "Thought: I should list the files" ++ [NL]
  ++ B "Action: ls" ++ [NL]
  ++ B "Action Input: " ++ [NL]
  ++ B "Observation: a.txt" ++ [NL]
  ++ B "Final Answer: there is one file".

Definition nestedReasoning : bytes :=
  B "Thought: <reaso<reasoning></reasoning>ning>x</reasoning>".

Definition plainProse : bytes :=
  B "The system has three disks, and all of them are healthy today.".

(** A plain answer of 80 bytes that holds the words "I don't". *)
Definition politeProse : bytes :=
  B "I don't see any problem with the three disks: all of them are healthy as of now.".



End Examples.

Export Examples.

(** ** More of the session store ([memory.go]) *)

Module MemoryMore.

Import Memory.

(** [NewMemoryStore]: the store it returns, before any request. *)
Definition NewMemoryStore : Store := {| heap := ∅; sessions := ∅ |}.

(** The identifier under which a session is stored is the [ID] the session
    carries, and the session exists. *)
Definition keysMatchIDs (m : Store) : Prop :=
  forall id p, sessions m !! id = Some p ->
    exists s, heap m !! p = Some s /\ ID s = id.

(** [s.ClearMessages()] on the session that [p] points to. *)
Definition ClearMessagesAt (e : Env) (h : gmap ptr ChatSession) (p : ptr)
    : gmap ptr ChatSession :=
  alter (clearMessages (now e)) p h.

(** A series of [AddMessage] calls on one session, each at its own time. *)
Definition AddMessages (h : gmap ptr ChatSession) (p : ptr)
    (calls : list (Env * bytes * bytes)) : gmap ptr ChatSession :=
  fold_left (fun h '(e, role, content) => AddMessage e h p role content) calls h.

Definition messageOf (call : Env * bytes * bytes) : ChatMessage :=
  {| Role := call.1.2; Content := call.2; Timestamp := now call.1.1 |}.

Definition contextHeader : bytes := B "Previous conversation context:" ++ [NL].

Definition contextTrailer : bytes := [NL] ++ B "Current conversation:" ++ [NL].

Definition messageCount (h : gmap ptr ChatSession) (p : ptr) : nat :=
  match h !! p with
  | Some s => length (Messages s)
  | None => 0
  end.

(** [GetSessionStats]: the values under "totalSessions" and "totalMessages". *)
Definition GetSessionStats (m : Store) : nat * nat :=
  (size (sessions m),
   sum_list (messageCount (heap m) <$> (map_to_list (sessions m)).*2)).

(** No two identifiers lead to the same session object. *)
Definition noSharedSession (m : Store) : Prop :=
  forall id1 id2 p,
    sessions m !! id1 = Some p -> sessions m !! id2 = Some p -> id1 = id2.

(** The operations of the store and of the sessions it hands out.  A caller
    may keep the pointer to a session for as long as it likes, so the
    operations on a session take any pointer. *)
Inductive Op :=
| OpGetOrCreateSession (e : Env) (sessionID : bytes)
| OpGetSession (e : Env) (sessionID : bytes)
| OpDeleteSession (sessionID : bytes)
| OpAddMessage (e : Env) (session : ptr) (role content : bytes)
| OpClearMessages (e : Env) (session : ptr)
| OpCleanup (maxAge : Z) (t : Time).

Definition applyOp (m : Store) (op : Op) : Store :=
  match op with
  | OpGetOrCreateSession e sessionID => (GetOrCreateSession e m sessionID).1
  | OpGetSession e sessionID => (GetSession e m sessionID).1
  | OpDeleteSession sessionID => (DeleteSession m sessionID).1
  | OpAddMessage e session role content =>
      withHeap m (AddMessage e (heap m) session role content)
  | OpClearMessages e session => withHeap m (ClearMessagesAt e (heap m) session)
  | OpCleanup maxAge t => cleanupRound maxAge t m
  end.

Definition isHexDigit (c : ascii) : bool :=
  existsb (Ascii.eqb c) (B "0123456789abcdef").

(** Reads two hexadecimal digits back into a byte. *)
Definition hexValue (c : ascii) : nat :=
  let n := nat_of_ascii c in
  if (97 <=? n)%nat then n - 87 else n - 48.

Fixpoint hexDecode (s : bytes) : bytes :=
  match s with
  | hi :: lo :: s' => ascii_of_nat (hexValue hi * 16 + hexValue lo) :: hexDecode s'
  | _ => []
  end.

End MemoryMore.

(** ** The wrapper of the language model ([CleaningLLMWrapper]) *)

Module Wrapper.

Import Orchestrator.

(** [truncateForLog] with the configured length; [None] is the panic of the
    slice expression [text[:n]] for a negative [n].  The method exists twice,
    on [CleaningLLMWrapper] and on [VerboseCallbackHandler], with the same
    body. *)
Definition truncateForLog (LogTruncateLength : Z) (text : bytes) : option bytes :=
  if (Z.of_nat (length text) <=? LogTruncateLength)%Z then Some text
  else if (0 <=? LogTruncateLength)%Z
       then Some (take (Z.to_nat LogTruncateLength) text ++ B "...")
       else None.

(** The cleaning of one text by the wrapper: the cleaned text, after the
    log entry that is built when the length has changed; [None] when
    building it panics. *)
Definition cleanLogged (LogTruncateLength : Z) (original : bytes)
    : option bytes :=
  let cleaned := cleanAgentResponse original in
  if (length original =? length cleaned)%nat then Some cleaned
  else
    match truncateForLog LogTruncateLength original with
    | Some _ => Some cleaned
    | None => None
    end.

(** [Call]: the wrapped model returns [response] and [err]. *)
Definition Call (LogTruncateLength : Z) (response : bytes) (err : error)
    : option (bytes * error) :=
  match err with
  | Some e => Some (response, Some e)
  | None =>
      cleaned ← cleanLogged LogTruncateLength response;
      Some (cleaned, None)
  end.

(** [GenerateContent]: the wrapped model returns the contents of the choices
    of its response ([None] for a nil response) and [err]. *)
Definition GenerateContent (LogTruncateLength : Z)
    (choices : option (list bytes)) (err : error)
    : option (option (list bytes) * error) :=
  match err with
  | Some e => Some (choices, Some e)
  | None =>
      match choices with
      | None => Some (None, None)
      | Some contents =>
          cleaned ← mapM (cleanLogged LogTruncateLength) contents;
          Some (Some cleaned, None)
      end
  end.

End Wrapper.

(** ** The callback handlers ([handlers.go]) *)

Module Callbacks.

Import Wrapper.

(** The callbacks of the engine, with the arguments that reach the events
    and the log: the prompts, the contents of the choices of a response
    ([None] for a nil response), the output of a tool, the name of the tool
    chosen, and the value under "output" of a finish when it is a string. *)
Inductive Callback :=
| Text (text : bytes)
| LLMStart (prompts : list bytes)
| LLMGenerateContentStart
| LLMGenerateContentEnd (choices : option (list bytes))
| LLMError
| ChainStart
| ChainEnd
| ChainError
| ToolStart
| ToolEnd (output : bytes)
| ToolError
| AgentAction (tool : bytes)
| AgentFinish (output : option bytes)
| RetrieverStart
| RetrieverEnd
| StreamingFunc.

(** The counters of a [VerboseCallbackHandler]. *)
Record Counters := {
  iteration : nat;
  step : nat
}.

(** [NewVerboseCallbackHandler] *)
Definition newCounters : Counters := {| iteration := 0; step := 0 |}.

(** The fields of a streamed [StreamMessage] that the counters and the
    truncation decide; [dPreview] is the shortened text among the details
    ("firstPromptPreview", "responsePreview", "toolOutput"), if any. *)
Record DebugMessage := {
  dType : bytes;
  dContent : bytes;
  dDebug : bool;
  dIteration : nat;
  dStep : bytes;
  stepNumber : nat;
  dPreview : option bytes
}.

Definition decimalNat (n : nat) : bytes :=
  B (NilEmpty.string_of_uint (Nat.to_uint n)).

(** The text a method of [VerboseCallbackHandler] shortens for its log
    entry, if it does. *)
Definition logged (cb : Callback) : option bytes :=
  match cb with
  | Text text => Some text
  | LLMStart (prompt :: _) => Some prompt
  | LLMGenerateContentEnd (Some (content :: _)) =>
      if isEmpty content then None else Some content
  | ToolEnd output => Some output
  | AgentFinish (Some output) => Some output
  | _ => None
  end.

(** The methods of [VerboseCallbackHandler]: only [HandleLLMStart] changes
    the counters.  [None] when the log entry cannot be built. *)
Definition verbose (LogTruncateLength : Z) (cb : Callback) (c : Counters)
    : option Counters :=
  let c' :=
    match cb with
    | LLMStart _ => {| iteration := S (iteration c); step := 0 |}
    | _ => c
    end in
  match logged cb with
  | Some text => _ ← truncateForLog LogTruncateLength text; Some c'
  | None => Some c'
  end.

(** The label and the content of the event a method of
    [StreamingCallbackHandler] sends; [None] for the methods it inherits. *)
Definition streamed (cb : Callback) : option (bytes * bytes) :=
  match cb with
  | LLMStart _ => Some (B "llm_start_", B "LLM call started")
  | LLMGenerateContentEnd _ =>
      Some (B "llm_response_", B "LLM response generated")
  | ChainStart => Some (B "chain_start_", B "Agent chain execution started")
  | ChainEnd => Some (B "chain_end_", B "Agent chain execution completed")
  | ToolStart => Some (B "tool_start_", B "Tool execution started")
  | ToolEnd _ => Some (B "tool_end_", B "Tool execution completed")
  | AgentAction tool =>
      Some (B "agent_action_", B "Agent chose to use tool: " ++ tool)
  | AgentFinish _ => Some (B "agent_finish_", B "Agent finished successfully")
  | _ => None
  end.

(** The shortened text among the details of the event: [Some None] when the
    event has none, [None] when shortening panics. *)
Definition preview (LogTruncateLength : Z) (cb : Callback)
    : option (option bytes) :=
  match cb with
  | LLMStart [] => Some (Some [])
  | LLMStart (prompt :: _) => Some <$> truncateForLog LogTruncateLength prompt
  | LLMGenerateContentEnd (Some (content :: _)) =>
      Some <$> truncateForLog LogTruncateLength content
  | LLMGenerateContentEnd _ => Some <$> truncateForLog LogTruncateLength []
  | ToolEnd output => Some <$> truncateForLog LogTruncateLength output
  | _ => Some None
  end.

(** One callback on a [StreamingCallbackHandler]; [hasStream] tells whether
    [streamFunc] is not nil.  [None] when the callback panics. *)
Definition handle (LogTruncateLength : Z) (hasStream : bool) (cb : Callback)
    (c : Counters) : option (Counters * list DebugMessage) :=
  c ← verbose LogTruncateLength cb c;
  match streamed cb with
  | None => Some (c, [])
  | Some (label, content) =>
      let c := {| iteration := iteration c; step := S (step c) |} in
      if hasStream then
        p ← preview LogTruncateLength cb;
        Some (c,
              [{| dType := B "debug"; dContent := content; dDebug := true;
                  dIteration := iteration c;
                  dStep := label ++ decimalNat (step c);
                  stepNumber := step c;
                  dPreview := p |}])
      else Some (c, [])
  end.

(** The callbacks of a run, in order. *)
Fixpoint handleAll (LogTruncateLength : Z) (hasStream : bool)
    (cbs : list Callback) (c : Counters)
    : option (Counters * list DebugMessage) :=
  match cbs with
  | [] => Some (c, [])
  | cb :: cbs' =>
      r1 ← handle LogTruncateLength hasStream cb c;
      r2 ← handleAll LogTruncateLength hasStream cbs' r1.1;
      Some (r2.1, r1.2 ++ r2.2)
  end.

(** The order of the events: by iteration, then by step. *)
Definition before (a b : DebugMessage) : Prop :=
  dIteration a < dIteration b
  \/ (dIteration a = dIteration b /\ stepNumber a < stepNumber b).

Definition isLLMStart (cb : Callback) : bool :=
  match cb with LLMStart _ => true | _ => false end.

Definition sends (cb : Callback) : bool :=
  match streamed cb with Some _ => true | None => false end.

(** What holds of every event the callbacks send. *)
Definition wellFormed (LogTruncateLength : Z) (m : DebugMessage) : Prop :=
  dType m = B "debug" /\ dDebug m = true /\ 1 <= stepNumber m
  /\ match dPreview m with
     | Some text => length text <= Z.to_nat LogTruncateLength + 3
     | None => True
     end.

End Callbacks.

(** ** The session and stop endpoints ([handleGetSession],
       [handleClearSession], [handleDeleteSession], [handleListSessions],
       [handleStopExecution]) *)

Module Http.

Import Memory Cancel Orchestrator MemoryMore.

Definition StatusOK : nat := 200.
Definition StatusBadRequest : nat := 400.
Definition StatusNotFound : nat := 404.

(** The body of the answer of [handleGetSession] with status 200. *)
Record SessionInfo := {
  id : bytes;
  created : Time;
  updated : Time;
  messageCount_ : nat;
  messages : list ChatMessage
}.

Definition sessionInfo (s : ChatSession) : SessionInfo :=
  {| id := ID s; created := Created s; updated := Updated s;
     messageCount_ := length (Messages s); messages := Messages s |}.

Definition withStore (srv : Server) (m : Store) : Server :=
  {| memoryStore := m; cancelManager := cancelManager srv |}.

(** [handleGetSession]: the server afterwards, the status, and the body of a
    200 answer (read through the pointer that [GetSession] returned). *)
Definition handleGetSession (e : Env) (srv : Server) (sessionId : bytes)
    : Server * nat * option SessionInfo :=
  if isEmpty sessionId then (srv, StatusBadRequest, None)
  else
    match GetSession e (memoryStore srv) sessionId with
    | (m, Some session) =>
        (withStore srv m, StatusOK, sessionInfo <$> heap m !! session)
    | (_, None) => (srv, StatusNotFound, None)
    end.

(** [handleClearSession]: the server afterwards, the status, and the value
    of "clearedMessages" in a 200 answer. *)
Definition handleClearSession (e : Env) (srv : Server) (sessionId : bytes)
    : Server * nat * option nat :=
  if isEmpty sessionId then (srv, StatusBadRequest, None)
  else
    match GetSession e (memoryStore srv) sessionId with
    | (m, Some session) =>
        (withStore srv (withHeap m (ClearMessagesAt e (heap m) session)),
         StatusOK, Some (messageCount (heap m) session))
    | (_, None) => (srv, StatusNotFound, None)
    end.

Definition handleDeleteSession (srv : Server) (sessionId : bytes)
    : Server * nat :=
  if isEmpty sessionId then (srv, StatusBadRequest)
  else
    match DeleteSession (memoryStore srv) sessionId with
    | (m, true) => (withStore srv m, StatusOK)
    | (_, false) => (srv, StatusNotFound)
    end.

(** [handleListSessions]: the status and the sessions that the encoder
    reads through the pointers of the snapshot. *)
Definition handleListSessions (srv : Server)
    : nat * list (option ChatSession) :=
  (StatusOK, deref (heap (memoryStore srv)) (GetAllSessions (memoryStore srv))).

Record StopResponse := {
  Success : bool;
  StopMessage : bytes;
  Stopped : bool
}.

(** [handleStopExecution]; [req] is [None] when the body cannot be bound,
    else the [ExecutionID] of the request. *)
Definition handleStopExecution (srv : Server) (req : option bytes)
    : Server * nat * StopResponse :=
  match req with
  | None =>
      (srv, StatusBadRequest,
       {| Success := false; StopMessage := B "Invalid request format";
          Stopped := false |})
  | Some ExecutionID =>
      if isEmpty ExecutionID then
        (srv, StatusBadRequest,
         {| Success := false; StopMessage := B "Execution ID is required";
            Stopped := false |})
      else
        match CancelExecution (cancelManager srv) ExecutionID with
        | (st, true) =>
            ({| memoryStore := memoryStore srv; cancelManager := st |},
             StatusOK,
             {| Success := true; StopMessage := B "Execution stopped successfully";
                Stopped := true |})
        | (st, false) =>
            ({| memoryStore := memoryStore srv; cancelManager := st |},
             StatusNotFound,
             {| Success := false;
                StopMessage := B "Execution not found or already completed";
                Stopped := false |})
        end
  end.

End Http.

(** ** The configuration ([config.go]) *)

Module ConfigLoad.

(** [strconv.Atoi] on a 64-bit platform: an optional sign, then one or more
    decimal digits, and a value that fits an [int]; [None] when it returns
    an error. *)
Definition digitValue (c : ascii) : option Z :=
  let n := nat_of_ascii c in
  if ((48 <=? n) && (n <=? 57))%nat then Some (Z.of_nat (n - 48)) else None.

Fixpoint parseDigits (acc : Z) (s : bytes) : option Z :=
  match s with
  | [] => Some acc
  | c :: s' =>
      match digitValue c with
      | Some d => parseDigits (acc * 10 + d) s'
      | None => None
      end
  end.

Definition parseSigned (neg : bool) (digits : bytes) : option Z :=
  match digits with
  | [] => None
  | _ =>
      match parseDigits 0 digits with
      | Some n =>
          let v := (if neg then - n else n)%Z in
          if ((- 2 ^ 63 <=? v) && (v <? 2 ^ 63))%Z then Some v else None
      | None => None
      end
  end.

Definition Atoi (s : bytes) : option Z :=
  match s with
  | [] => None
  | c :: s' =>
      if Ascii.eqb c "-" then parseSigned true s'
      else if Ascii.eqb c "+" then parseSigned false s'
      else parseSigned false s
  end.

(** The product of two [int64] values, as Go computes it. *)
Definition wrap64 (z : Z) : Z := ((z + 2 ^ 63) mod 2 ^ 64 - 2 ^ 63)%Z.

Definition Second : Z := 1000000000.
Definition Minute : Z := 60 * Second.
Definition Hour : Z := 60 * Minute.

Record Config := {
  Port : bytes;
  LLMProvider : bytes;
  OllamaEndpoint : bytes;
  OllamaModel : bytes;
  GeminiAPIKey : bytes;
  GeminiModel : bytes;
  MaxIterations : Z;
  RequestTimeout : Z;
  ContextLimit : Z;
  SessionMaxAge : Z;
  CleanupInterval : Z;
  MaxSessionsPerUser : Z;
  LogLevel : bytes;
  LogTruncateLength : Z;
  DebugMode : bool;
  MaxConcurrentRequests : Z
}.

(** A text setting: the variable when it is not empty, else the default. *)
Definition text (Getenv : bytes -> bytes) (name : string) (default : bytes)
    : bytes :=
  if isEmpty (Getenv (B name)) then default else Getenv (B name).

(** A numeric setting: the variable when [Atoi] accepts it and the value is
    greater than 0, else the default. *)
Definition number (Getenv : bytes -> bytes) (name : string) (default : Z)
    (convert : Z -> Z) : Z :=
  if isEmpty (Getenv (B name)) then default
  else
    match Atoi (Getenv (B name)) with
    | Some val => if (0 <? val)%Z then convert val else default
    | None => default
    end.

(** [LoadConfig]; [Getenv] is [os.Getenv].  [ToLower] is compared with a
    text of ASCII letters other than i and k, for which the bytes it leaves
    alone make no difference. *)
Definition LoadConfig (Getenv : bytes -> bytes) : Config :=
  let provider := Getenv (B "LLM_PROVIDER") in
  let LLMProvider0 :=
    if negb (isEmpty provider)
       && (bool_decide (provider = B "ollama") || bool_decide (provider = B "gemini"))
    then provider else B "gemini" in
  let GeminiAPIKey0 := text Getenv "GEMINI_API_KEY" [] in
  let debug := Getenv (B "DEBUG_MODE") in
  {| Port := text Getenv "PORT" (B "8080");
     LLMProvider :=
       if bool_decide (LLMProvider0 = B "gemini") && isEmpty GeminiAPIKey0
       then B "ollama" else LLMProvider0;
     OllamaEndpoint := text Getenv "OLLAMA_ENDPOINT" (B "http://localhost:11434");
     OllamaModel := text Getenv "OLLAMA_MODEL" (B "qwen3");
     GeminiAPIKey := GeminiAPIKey0;
     GeminiModel := text Getenv "GEMINI_MODEL" (B "gemini-2.0-flash");
     MaxIterations := number Getenv "MAX_ITERATIONS" 100 (fun val => val);
     RequestTimeout :=
       number Getenv "REQUEST_TIMEOUT" (300 * Second)
              (fun val => wrap64 (val * Second));
     ContextLimit := number Getenv "CONTEXT_LIMIT" 10 (fun val => val);
     SessionMaxAge :=
       number Getenv "SESSION_MAX_AGE_HOURS" (24 * Hour)
              (fun val => wrap64 (val * Hour));
     CleanupInterval :=
       number Getenv "CLEANUP_INTERVAL_MINUTES" (1 * Hour)
              (fun val => wrap64 (val * Minute));
     MaxSessionsPerUser := number Getenv "MAX_SESSIONS_PER_USER" 50 (fun val => val);
     LogLevel := text Getenv "LOG_LEVEL" (B "info");
     LogTruncateLength := number Getenv "LOG_TRUNCATE_LENGTH" 500 (fun val => val);
     DebugMode :=
       if isEmpty debug then true
       else bool_decide (ToLower debug = B "true") || bool_decide (debug = B "1");
     MaxConcurrentRequests :=
       number Getenv "MAX_CONCURRENT_REQUESTS" 100 (fun val => val) |}.

(** The seconds below which the product with [time.Second] does not leave
    the range of [int64]. *)
Definition maxSeconds : Z := 9223372036.

End ConfigLoad.

(** ** Names for the parts of a chat turn *)

Module OrchestratorMore.

Import Memory Cancel Orchestrator.

(** The identifier [GetOrCreateSession] works with for a request. *)
Definition requestedID (e : Env) (req : ChatRequest) : bytes :=
  if isEmpty (SessionID req) then generateSessionID e else SessionID req.

(** The messages stored under an identifier, none when it is unknown. *)
Definition messagesBefore (m : Store) (sessionID : bytes) : list ChatMessage :=
  match sessions m !! sessionID with
  | Some p => sessionMessages m p
  | None => []
  end.

Definition userMessage (e : Env) (req : ChatRequest) : ChatMessage :=
  {| Role := B "user"; Content := Message req; Timestamp := now e |}.

Definition assistantMessage (e : Env) (result : bytes) : ChatMessage :=
  {| Role := B "assistant"; Content := result; Timestamp := now e |}.

(** The identifier [handleStreamChat] gives to a run. *)
Definition executionIDAt (e : Env) : bytes := B "exec_" ++ decimal (now e).

(** The registry when the engine of a streaming run has returned. *)
Definition registryAfterEngine (srv : Server) (inp : RunInputs) : State :=
  fold_left (applyAction (ctxHandle inp)) (during inp)
            (AddExecution (cancelManager srv) (executionIDAt (env inp))
                          (ctxHandle inp)).

(** The four texts of [getErrorMessage]. *)
Definition parseErrorMessage : bytes :=
  B "I encountered an error processing your request. The agent had trouble interpreting the tool output. Please try rephrasing your request.".

Definition genericErrorMessage : bytes :=
  B "I encountered an error processing your request. Please try again or contact support if the issue persists.".

(** The last event of a streaming run, from what [executeWithStreaming]
    returned and [ctx.Err()]. *)
Definition closingEvent (ctxErr : option CtxErr) (result : bytes) (err : error)
    : StreamMessage :=
  match err with
  | Some e =>
      match ctxErr with
      | Some Canceled => event (B "stopped") (B "Agent execution was stopped")
      | _ => event (B "error") (getErrorMessage e)
      end
  | None =>
      {| Type_ := B "response"; Content_ := result; Complete := true;
         Debug := false |}
  end.

End OrchestratorMore.

(** ** More example stores and runs *)

Module MoreExamples.

Import Memory Cancel Orchestrator MemoryMore Callbacks.

Definition laterEnv : Env := {| randRead := None; now := 1700000500%Z |}.

Definition oneServer : Server :=
  {| memoryStore := oneSession;
     cancelManager := {| executions := {[ B "exec_1" := 3 ]}; ctxs := ∅;
                         invoked := [] |} |}.

Definition threeCalls : list (Env * bytes * bytes) :=
  [(someEnv, B "user", B "and now?");
   (laterEnv, B "assistant", B "now this");
   (laterEnv, B "system", B "note")].

Definition plainRun : RunInputs :=
  {| env := someEnv; ctxHandle := 7; during := [];
     engine := engineReturns (B "done") None |}.

Definition failingRun : RunInputs :=
  {| env := someEnv; ctxHandle := 7; during := [];
     engine := engineReturns [] (Some (B "connection refused")) |}.

Definition unparsableRun : RunInputs :=
  {| env := someEnv; ctxHandle := 7; during := [];
     engine := fun _ => unparsable |}.

Definition oneToolTurn : list Callback :=
  [ChainStart; LLMStart [B "list the files"]; LLMGenerateContentStart;
   LLMGenerateContentEnd (Some [B "Action: ls"]); AgentAction (B "ls");
   ToolStart; ToolEnd (B "a.txt"); LLMStart [B "list the files"];
   LLMGenerateContentEnd (Some [B "Final Answer: a.txt"]);
   AgentFinish (Some (B "a.txt")); ChainEnd].

End MoreExamples.

(** ** Facts about the matcher *)

Module RegexpFacts.

Lemma HasPrefix_spec l s : HasPrefix l s = true <-> exists t, s = l ++ t.
Proof.
  revert s. induction l as [|a l IH]; intros s; simpl.
  - split; [eauto | reflexivity].
  - destruct s as [|b s].
    + split; [discriminate | intros [t Ht]; discriminate].
    + rewrite andb_true_iff, Ascii.eqb_eq, IH. split.
      * intros [-> [t ->]]. eauto.
      * intros [t Ht]. injection Ht as -> ->. eauto.
Qed.

Lemma HasPrefix_app l s : HasPrefix l (l ++ s) = true.
Proof. apply HasPrefix_spec. eauto. Qed.

Lemma HasPrefix_length l s : HasPrefix l s = true -> length l <= length s.
Proof.
  intros [t ->]%HasPrefix_spec. rewrite length_app. lia.
Qed.

Lemma HasPrefix_drop sep s :
  HasPrefix sep s = true -> s = sep ++ drop (length sep) s.
Proof.
  intros [t ->]%HasPrefix_spec. by rewrite drop_app_length.
Qed.

Lemma HasPrefix_avoid ch l x y :
  noByte ch l = true -> HasPrefix l (x ++ ch :: y) = HasPrefix l x.
Proof.
  revert x. induction l as [|a l IH]; intros x H; [reflexivity|].
  simpl in H. apply andb_true_iff in H as [Ha Hl].
  destruct x as [|c x]; simpl.
  - apply negb_true_iff in Ha. rewrite Ha. reflexivity.
  - rewrite IH by assumption. reflexivity.
Qed.

Lemma drop_app_prefix (l x z : bytes) :
  HasPrefix l x = true -> drop (length l) (x ++ z) = drop (length l) x ++ z.
Proof.
  intros H%HasPrefix_length. rewrite drop_app.
  replace (length l - length x) with 0 by lia. reflexivity.
Qed.

Lemma lastIsNL_cons b c l : lastIsNL b (c :: l) = lastIsNL (isNL c) l.
Proof. reflexivity. Qed.

Lemma lastIsNL_app b l1 l2 : lastIsNL b (l1 ++ l2) = lastIsNL (lastIsNL b l1) l2.
Proof. unfold lastIsNL. apply fold_left_app. Qed.

(** *** Independence from the line-start flag *)

Lemma tryAlts_ext k1 k2 b1 b2 s alts :
  (forall b b' t, k1 b t = k2 b' t) ->
  tryAlts k1 b1 s alts = tryAlts k2 b2 s alts.
Proof.
  intros Hk. induction alts as [|l alts IH]; simpl; [reflexivity|].
  destruct (HasPrefix l s); [|exact IH].
  rewrite (Hk _ (lastIsNL b2 l)), IH. reflexivity.
Qed.

Lemma starLoop_ext cls g k1 k2 b1 b2 s :
  (forall b b' t, k1 b t = k2 b' t) ->
  starLoop cls g k1 b1 s = starLoop cls g k2 b2 s.
Proof.
  intros Hk. revert b1 b2. induction s as [|c s IH]; intros b1 b2; simpl.
  - rewrite (Hk b1 b2). reflexivity.
  - rewrite (Hk b1 b2), (IH (isNL c) (isNL c)). reflexivity.
Qed.

Lemma matchSeq_bol p b1 b2 s :
  anchorFree p = true -> matchSeq p b1 s = matchSeq p b2 s.
Proof.
  revert b1 b2 s. induction p as [|a p IH]; intros b1 b2 s H; [reflexivity|].
  simpl in H. apply andb_true_iff in H as [Ha Hp].
  destruct a; simpl; try discriminate.
  - apply tryAlts_ext. intros; apply IH; assumption.
  - reflexivity.
  - apply starLoop_ext. intros; apply IH; assumption.
Qed.

Lemma replaceAll_bol re repl b1 b2 skip s :
  anchorFree re = true ->
  replaceAll re repl b1 skip s = replaceAll re repl b2 skip s.
Proof.
  intros H. revert b1 b2 skip. induction s as [|c s IH]; intros b1 b2 skip;
    [reflexivity|].
  simpl. destruct skip; [|reflexivity].
  rewrite (matchSeq_bol re b1 b2) by assumption. reflexivity.
Qed.

Lemma matchFrom_bol re b1 b2 s :
  anchorFree re = true -> matchFrom re b1 s = matchFrom re b2 s.
Proof.
  intros H. destruct s as [|c s]; simpl;
    rewrite (matchSeq_bol re b1 b2) by assumption; reflexivity.
Qed.

(** *** Texts without a match *)

Lemma suffix_cons_cases (u : bytes) c s :
  u `suffix_of` c :: s -> u = c :: s \/ u `suffix_of` s.
Proof.
  intros [k Hk]. destruct k as [|a k]; simpl in Hk.
  - left. congruence.
  - right. injection Hk as _ ->. by exists k.
Qed.

Lemma matchFrom_false_suffix re b s :
  matchFrom re b s = false ->
  forall u, u `suffix_of` s -> exists b', matchSeq re b' u = None.
Proof.
  revert b. induction s as [|c s IH]; intros b H u Hu; simpl in H.
  - apply suffix_nil_inv in Hu as ->.
    destruct (matchSeq re b []) eqn:E; [discriminate|eauto].
  - destruct (matchSeq re b (c :: s)) eqn:E; [discriminate|].
    apply suffix_cons_cases in Hu as [->|Hu]; [eauto|].
    eapply IH; eassumption.
Qed.


Lemma replaceAll_nomatch re repl b s :
  matchFrom re b s = false -> replaceAll re repl b 0 s = s.
Proof.
  revert b. induction s as [|c s IH]; intros b H; [reflexivity|].
  simpl in *. destruct (matchSeq re b (c :: s)); [discriminate|].
  rewrite IH by assumption. reflexivity.
Qed.

Lemma ReplaceAllString_nomatch re s repl :
  MatchString re s = false -> ReplaceAllString re s repl = s.
Proof. apply replaceAll_nomatch. Qed.

(** *** A literal cannot end beyond a byte it does not contain *)

Lemma tryAlts_straddle ch k b x y alts :
  forallb (noByte ch) alts = true ->
  (forall b' x', k b' (x' ++ ch :: y) = k b' x') ->
  tryAlts k b (x ++ ch :: y) alts = tryAlts k b x alts.
Proof.
  intros Ha Hk. induction alts as [|l alts IH]; [reflexivity|].
  simpl in Ha. apply andb_true_iff in Ha as [Hl Ha]. simpl.
  rewrite HasPrefix_avoid by assumption.
  destruct (HasPrefix l x) eqn:E; [|auto].
  rewrite drop_app_prefix by assumption. rewrite Hk, IH by assumption.
  reflexivity.
Qed.

Lemma matchSeq_straddle ch p :
  litsAvoid ch p = true ->
  forall b x y, matchSeq p b (x ++ ch :: y) = matchSeq p b x.
Proof.
  induction p as [|a p IH]; intros H b x y; [reflexivity|].
  simpl in H. apply andb_true_iff in H as [Ha Hp].
  destruct a; try discriminate. simpl.
  apply tryAlts_straddle; [assumption|]. intros. apply IH. assumption.
Qed.

(** The same when the expression starts with the byte itself and the text
    before the byte is not empty. *)
Lemma matchSeq_straddle_first ch p b x y :
  litsAvoid ch p = true -> x <> [] ->
  matchSeq (Lit [[ch]] :: p) b (x ++ ch :: y) = matchSeq (Lit [[ch]] :: p) b x.
Proof.
  intros Hp Hx. destruct x as [|c x]; [congruence|]. simpl.
  destruct (Ascii.eqb ch c); simpl; [|reflexivity].
  rewrite drop_0. rewrite matchSeq_straddle by assumption. reflexivity.
Qed.

Lemma matchSeq_first_mismatch ch p b c s :
  c <> ch -> matchSeq (Lit [[ch]] :: p) b (c :: s) = None.
Proof.
  intros H. simpl. destruct (Ascii.eqb ch c) eqn:E; [|reflexivity].
  apply Ascii.eqb_eq in E. congruence.
Qed.

Lemma matchSeq_first_nil ch p b : matchSeq (Lit [[ch]] :: p) b [] = None.
Proof. reflexivity. Qed.

(** *** A match of [p ++ q] ends with a match of [q] *)




(** *** The lazy star stops at the first place where the rest matches *)

Lemma starLoop_lazy_find k body s b m :
  (forall b' u, u <> [] -> u `suffix_of` body -> k b' (u ++ s) = None) ->
  k (lastIsNL b body) s = Some m ->
  starLoop anyByte false k b (body ++ s) = Some (length body + m).
Proof.
  revert b. induction body as [|c body IH]; intros b Hu Hk.
  - simpl in *. destruct s; simpl; rewrite Hk; reflexivity.
  - change ((c :: body) ++ s) with (c :: (body ++ s)). cbn [starLoop length].
    pose proof (Hu b (c :: body)) as H0. cbn [app] in H0.
    rewrite H0; [|discriminate|reflexivity].
    unfold anyByte at 1. rewrite IH; [reflexivity| |assumption].
    intros b' u Hne Hsuf. apply Hu; [assumption|]. by apply suffix_cons_r.
Qed.

(** *** The greedy star over a line *)


(** *** Replacement *)

Lemma replaceAll_skip re repl b m s :
  replaceAll re repl b (length m) (m ++ s)
  = replaceAll re repl (lastIsNL b m) 0 s.
Proof.
  revert b. induction m as [|c m IH]; intros b; simpl.
  - by destruct s.
  - apply IH.
Qed.

Lemma replaceAll_hit re repl b m s :
  m <> [] -> matchSeq re b (m ++ s) = Some (length m) ->
  replaceAll re repl b 0 (m ++ s)
  = repl ++ replaceAll re repl (lastIsNL b m) 0 s.
Proof.
  intros Hm H. destruct m as [|c m]; [congruence|].
  change ((c :: m) ++ s) with (c :: (m ++ s)) in *.
  cbn [replaceAll]. rewrite H. cbn [length].
  rewrite replaceAll_skip. reflexivity.
Qed.

Lemma replaceAll_copy ch p repl b pre s :
  noByte ch pre = true ->
  replaceAll (Lit [[ch]] :: p) repl b 0 (pre ++ s)
  = pre ++ replaceAll (Lit [[ch]] :: p) repl (lastIsNL b pre) 0 s.
Proof.
  revert b. induction pre as [|c pre IH]; intros b H; [reflexivity|].
  simpl in H. apply andb_true_iff in H as [Hc Hp].
  change ((c :: pre) ++ s) with (c :: (pre ++ s)).
  cbn [replaceAll]. rewrite matchSeq_first_mismatch.
  - rewrite IH by assumption. reflexivity.
  - intros ->. rewrite Ascii.eqb_refl in Hc. discriminate.
Qed.


Lemma matchFrom_noByte ch p b s :
  noByte ch s = true -> matchFrom (Lit [[ch]] :: p) b s = false.
Proof.
  revert b. induction s as [|c s IH]; intros b H; [reflexivity|].
  simpl in H. apply andb_true_iff in H as [Hc Hs].
  cbn [matchFrom]. rewrite matchSeq_first_mismatch.
  - by apply IH.
  - intros ->. rewrite Ascii.eqb_refl in Hc. discriminate.
Qed.

(** *** Literals followed by the rest of the line *)







End RegexpFacts.

Export RegexpFacts.

(** ** Facts about the sanitizer *)

Module SanitizerFacts.

Lemma match_open_think q b s :
  matchSeq (ci "<think>" ++ q) b (B "<think>" ++ s)
  = Nat.add 7 <$> matchSeq q false s.
Proof.
  unfold ci. cbn [B list_ascii_of_string map app matchSeq]. eval_folds.
  cbn. rewrite drop_0. destruct (matchSeq q false s); reflexivity.
Qed.

Lemma match_close_think q b s :
  matchSeq (closeThink ++ q) b (B "</think>" ++ s)
  = Nat.add 8 <$> matchSeq q false s.
Proof.
  unfold closeThink, ci. cbn [B list_ascii_of_string map app matchSeq].
  eval_folds. cbn. rewrite drop_0. destruct (matchSeq q false s); reflexivity.
Qed.

Lemma closeThink_shape : closeThink = Lit [[LT]] :: closeThinkTail.
Proof. reflexivity. Qed.

Lemma closeThinkTail_avoids_LT : litsAvoid LT closeThinkTail = true.
Proof. reflexivity. Qed.


Lemma thinkRegex_shape : thinkRegex = Lit [[LT]] :: thinkTail.
Proof. reflexivity. Qed.

Lemma openThinkRegex_shape : openThinkRegex = Lit [[LT]] :: openThinkTail.
Proof. reflexivity. Qed.

Lemma thinkRegex_anchorFree : anchorFree thinkRegex = true.
Proof. reflexivity. Qed.

Lemma openThinkRegex_anchorFree : anchorFree openThinkRegex = true.
Proof. reflexivity. Qed.

Lemma closeThink_anchorFree : anchorFree closeThink = true.
Proof. reflexivity. Qed.

(** Without a closing marker in [t], no suffix of [t] starts with one. *)
Lemma noCloseThink_suffix t b u :
  noCloseThink t = true -> u `suffix_of` t -> matchSeq closeThink b u = None.
Proof.
  intros H Hu. apply negb_true_iff in H.
  destruct (matchFrom_false_suffix _ _ _ H u Hu) as [b' Hb'].
  rewrite (matchSeq_bol _ b b') by apply closeThink_anchorFree. assumption.
Qed.

(** A paired block is one match of [thinkRegex], up to its first closing
    marker. *)
Lemma match_think_block body s b :
  noCloseThink body = true ->
  matchSeq thinkRegex b (B "<think>" ++ body ++ B "</think>" ++ s)
  = Some (length (B "<think>" ++ body ++ B "</think>")).
Proof.
  intros H. unfold thinkRegex. rewrite match_open_think.
  cbn [app matchSeq].
  rewrite (starLoop_lazy_find _ body (B "</think>" ++ s) false 8).
  - cbn [fmap option_fmap option_map]. f_equal.
    rewrite !length_app. cbn. lia.
  - intros b' u Hne Hu.
    change (B "</think>" ++ s) with (LT :: (B "/think>" ++ s)).
    change (ci "</think>") with closeThink.
    rewrite closeThink_shape, matchSeq_straddle_first;
      [|apply closeThinkTail_avoids_LT|assumption].
    rewrite <- closeThink_shape. by apply (noCloseThink_suffix body).
  - change (ci "</think>") with closeThink.
    rewrite <- (app_nil_r closeThink), match_close_think. reflexivity.
Qed.




Lemma stripThinkBlocks_plain pre s :
  noByte LT pre = true -> stripThinkBlocks (pre ++ s) = pre ++ stripThinkBlocks s.
Proof.
  intros H. unfold stripThinkBlocks, ReplaceAllString.
  rewrite thinkRegex_shape, replaceAll_copy by assumption. f_equal.
  rewrite <- thinkRegex_shape. apply replaceAll_bol, thinkRegex_anchorFree.
Qed.

Lemma stripThinkBlocks_block body s :
  noCloseThink body = true ->
  stripThinkBlocks (B "<think>" ++ body ++ B "</think>" ++ s) = stripThinkBlocks s.
Proof.
  intros H. unfold stripThinkBlocks, ReplaceAllString.
  pose proof (match_think_block body s true H) as Hm.
  replace (B "<think>" ++ body ++ B "</think>" ++ s)
    with ((B "<think>" ++ body ++ B "</think>") ++ s) in *
    by (rewrite <- !app_assoc; reflexivity).
  rewrite replaceAll_hit; [|discriminate|assumption].
  cbn [app]. apply replaceAll_bol, thinkRegex_anchorFree.
Qed.


Lemma stripOpenThink_plain pre s :
  noByte LT pre = true -> stripOpenThink (pre ++ s) = pre ++ stripOpenThink s.
Proof.
  intros H. unfold stripOpenThink, ReplaceAllString.
  rewrite openThinkRegex_shape, replaceAll_copy by assumption. f_equal.
  rewrite <- openThinkRegex_shape. apply replaceAll_bol, openThinkRegex_anchorFree.
Qed.

Lemma stripThinkBlocks_nil : stripThinkBlocks [] = [].
Proof. reflexivity. Qed.

Lemma stripOpenThink_nil : stripOpenThink [] = [].
Proof. reflexivity. Qed.

(** Text without [<] goes through both removals unchanged. *)
Lemma strip_plain t :
  noByte LT t = true -> stripOpenThink (stripThinkBlocks t) = t.
Proof.
  intros H. rewrite <- (app_nil_r t) at 1.
  rewrite stripThinkBlocks_plain, stripThinkBlocks_nil, app_nil_r by assumption.
  rewrite <- (app_nil_r t) at 1.
  rewrite stripOpenThink_plain, stripOpenThink_nil, app_nil_r by assumption.
  reflexivity.
Qed.

Lemma noByte_app ch x y : noByte ch (x ++ y) = noByte ch x && noByte ch y.
Proof. apply forallb_app. Qed.

(** The sanitizer sees its input only through the first two removals. *)
Lemma cleanAgentResponse_strip_eq x y :
  stripOpenThink (stripThinkBlocks x) = stripOpenThink (stripThinkBlocks y) ->
  cleanAgentResponse x = cleanAgentResponse y.
Proof.
  intros H. unfold cleanAgentResponse, normalize. rewrite H. reflexivity.
Qed.

(** *** The second removal on every text *)






Lemma reasoningRegex_shape :
  exists tail, reasoningRegex = Lit [[LT]] :: tail.
Proof. eexists. reflexivity. Qed.

Lemma stripReasoning_plain t : noByte LT t = true -> stripReasoning t = t.
Proof.
  intros H. unfold stripReasoning. apply ReplaceAllString_nomatch.
  destruct reasoningRegex_shape as [tail ->]. by apply matchFrom_noByte.
Qed.

End SanitizerFacts.

(** ** The session store: theorems *)

Module MemoryFacts.

Import Memory.

Lemma GetOrCreateSession_wf e m id :
  wf m -> wf (GetOrCreateSession e m id).1.
Proof.
  intros Hwf. unfold GetOrCreateSession.
  destruct (sessions m !! _) as [q|] eqn:E; cbn.
  - intros id' p Hp. cbn in *. rewrite lookup_alter.
    destruct (Hwf _ _ Hp) as [s Hs]. case_decide; subst; rewrite Hs; eauto.
  - intros id' p'. cbn. rewrite lookup_insert. case_decide.
    + intros [= <-]. rewrite lookup_insert_eq. eauto.
    + intros Hp. destruct (Hwf _ _ Hp) as [s Hs].
      rewrite lookup_insert_ne; [eauto|].
      intros <-. pose proof (is_fresh (dom (heap m))) as Hf.
      apply Hf, elem_of_dom. eauto.
Qed.

Lemma DeleteSession_wf m id : wf m -> wf (DeleteSession m id).1.
Proof.
  intros Hwf. unfold DeleteSession.
  destruct (sessions m !! id) as [q|]; [|assumption].
  intros id' p. cbn. rewrite lookup_delete. case_decide; [discriminate|].
  apply Hwf.
Qed.

Lemma emptyStore_wf : wf emptyStore.
Proof. intros id p. cbn. rewrite lookup_empty. discriminate. Qed.

Lemma GetRecentMessages_nonneg s limit :
  (0 <= limit)%Z ->
  GetRecentMessages s limit
  = Some (drop (length (Messages s) - Z.to_nat limit) (Messages s)).
Proof.
  intros H. unfold GetRecentMessages.
  destruct (Z.leb_spec (Z.of_nat (length (Messages s))) limit).
  - replace (length (Messages s) - Z.to_nat limit) with 0 by lia. reflexivity.
  - destruct (Z.leb_spec 0 (Z.of_nat (length (Messages s)) - limit)); [|lia].
    destruct (Z.leb_spec (Z.of_nat (length (Messages s)) - limit)
                (Z.of_nat (length (Messages s)))); [|lia].
    cbn. do 2 f_equal. lia.
Qed.

Lemma GetRecentMessages_negative s limit :
  (limit < 0)%Z -> GetRecentMessages s limit = None.
Proof.
  intros H. unfold GetRecentMessages.
  destruct (Z.leb_spec (Z.of_nat (length (Messages s))) limit); [lia|].
  destruct (Z.leb_spec (Z.of_nat (length (Messages s)) - limit)
              (Z.of_nat (length (Messages s)))); [lia|].
  rewrite andb_false_r. reflexivity.
Qed.

Lemma generateSessionID_prefix e :
  HasPrefix (B "session_") (generateSessionID e) = true.
Proof. unfold generateSessionID. destruct (randRead e); apply HasPrefix_app. Qed.

Lemma hexEncode_length bs : length (hexEncode bs) = 2 * length bs.
Proof.
  induction bs as [|c bs IH]; [reflexivity|].
  change (hexEncode (c :: bs))
    with (hexDigit (nat_of_ascii c / 16) :: hexDigit (nat_of_ascii c mod 16)
            :: hexEncode bs).
  cbn [length]. rewrite IH. lia.
Qed.

Lemma hexDigit_is_digit (c : ascii) :
  MemoryMore.isHexDigit (hexDigit (nat_of_ascii c / 16)) = true
  /\ MemoryMore.isHexDigit (hexDigit (nat_of_ascii c mod 16)) = true.
Proof.
  destruct c as [[] [] [] [] [] [] [] []]; split; vm_compute; reflexivity.
Qed.

Lemma hexEncode_digits bs : forallb MemoryMore.isHexDigit (hexEncode bs) = true.
Proof.
  induction bs as [|c bs IH]; [reflexivity|].
  change (hexEncode (c :: bs))
    with (hexDigit (nat_of_ascii c / 16) :: hexDigit (nat_of_ascii c mod 16)
            :: hexEncode bs).
  cbn [forallb]. destruct (hexDigit_is_digit c) as [-> ->]. exact IH.
Qed.

(** C1 (as amended): [GetOrCreateSession] replaces an empty identifier by a
    generated one and uses a non-empty identifier as given.  The generated
    identifier is "session_" followed, when the random source delivers, by
    two lower-case hexadecimal digits for each random byte (32 digits for
    the 16 bytes of the buffer), and else by the decimal digits of the clock
    reading.  When the resulting identifier is not in the store, a new object
    with that identifier, no messages and both time stamps set to the present
    is stored under it, and no other session changes; when it is in the store,
    the existing session is returned with only its last-activity time
    refreshed. *)
Theorem getOrCreate_session_spec e m id :
  let sid := if isEmpty id then generateSessionID e else id in
  let m' := (GetOrCreateSession e m id).1 in
  let p := (GetOrCreateSession e m id).2 in
  HasPrefix (B "session_") (generateSessionID e) = true
  /\ match randRead e with
     | Some random =>
         generateSessionID e = B "session_" ++ hexEncode random
         /\ forallb MemoryMore.isHexDigit (hexEncode random) = true
         /\ length (hexEncode random) = 2 * length random
         /\ (length random = 16 -> length (hexEncode random) = 32)
     | None => generateSessionID e = B "session_" ++ decimal (now e)
     end
  /\ sessions m' !! sid = Some p
  /\ match sessions m !! sid with
     | None =>
         heap m !! p = None
         /\ heap m' !! p = Some {| ID := sid; Messages := [];
                                   Created := now e; Updated := now e |}
         /\ sessions m' = <[sid := p]> (sessions m)
         /\ (forall q, q <> p -> heap m' !! q = heap m !! q)
     | Some q =>
         p = q
         /\ sessions m' = sessions m
         /\ heap m' !! p = touch (now e) <$> heap m !! p
         /\ (forall q', q' <> p -> heap m' !! q' = heap m !! q')
     end.
Proof.
  cbv zeta. split; [apply generateSessionID_prefix|]. split.
  { unfold generateSessionID. destruct (randRead e) as [random|]; [|reflexivity].
    split; [reflexivity|]. split; [apply hexEncode_digits|].
    split; [apply hexEncode_length|]. intros H. rewrite hexEncode_length. lia. }
  unfold GetOrCreateSession.
  set (sid := if isEmpty id then generateSessionID e else id).
  destruct (sessions m !! sid) as [q|] eqn:E; cbn.
  - split; [assumption|]. repeat split.
    + apply lookup_alter_eq.
    + intros q' Hq. by apply lookup_alter_ne.
  - rewrite lookup_insert_eq. split; [reflexivity|]. repeat split.
    + apply not_elem_of_dom, is_fresh.
    + apply lookup_insert_eq.
    + intros q Hq. by apply lookup_insert_ne.
Qed.

(** C1 (as stated) fails: an identifier that is not empty and not in the
    store becomes the identifier of the new session; the generated one is
    not used. *)
Lemma getOrCreate_adopts_unknown_id :
  let e := {| randRead := Some zeroBytes16; now := 0%Z |} in
  let m' := (GetOrCreateSession e emptyStore (B "abc")).1 in
  let p := (GetOrCreateSession e emptyStore (B "abc")).2 in
  sessions emptyStore !! B "abc" = None
  /\ sessions m' !! B "abc" = Some p
  /\ ID <$> heap m' !! p = Some (B "abc")
  /\ sessions m' !! generateSessionID e = None
  /\ generateSessionID e = B "session_00000000000000000000000000000000".
Proof. cbv zeta. repeat split; vm_compute; reflexivity. Qed.

(** C3 (as amended): for every limit that is not negative,
    [GetRecentMessages] returns the last [limit] messages, all of them when
    the session holds fewer; [GetSession] and [DeleteSession] report an
    identifier that is not in the store as not found and leave the store as
    it is. *)
Theorem recent_messages_nonneg_limit (s : ChatSession) (limit : Z) e m id :
  (0 <= limit)%Z ->
  GetRecentMessages s limit
  = Some (drop (length (Messages s) - Z.to_nat limit) (Messages s))
  /\ match sessions m !! id with
     | None => GetSession e m id = (m, None) /\ DeleteSession m id = (m, false)
     | Some p => (GetSession e m id).2 = Some p /\ (DeleteSession m id).2 = true
     end.
Proof.
  intros H. split; [by apply GetRecentMessages_nonneg|].
  unfold GetSession, DeleteSession. destruct (sessions m !! id); by split.
Qed.

Lemma recent_messages_nonneg_limit_witness :
  GetRecentMessages twoMessages 1
  = Some [ {| Role := B "assistant"; Content := B "hello"; Timestamp := 0%Z |} ]
  /\ GetSession {| randRead := None; now := 0%Z |} emptyStore (B "x")
     = (emptyStore, None).
Proof.
  pose proof (recent_messages_nonneg_limit twoMessages 1
                {| randRead := None; now := 0%Z |} emptyStore (B "x")) as H.
  destruct H as [H1 H2]; [lia|]. split; [exact H1|].
  change (sessions emptyStore !! B "x") with (@None ptr) in H2. exact (proj1 H2).
Defined.

(** C3 (as stated) fails: with a negative limit the slice expression
    panics, whatever the session holds. *)
Lemma recent_messages_negative_limit_panics :
  GetRecentMessages twoMessages (-1) = None
  /\ GetRecentMessages {| ID := []; Messages := []; Created := 0%Z; Updated := 0%Z |} (-1)
     = None.
Proof. split; reflexivity. Qed.

Lemma elem_of_GetAllSessions m p :
  p ∈ GetAllSessions m <-> exists id, sessions m !! id = Some p.
Proof.
  unfold GetAllSessions. rewrite list_elem_of_fmap. split.
  - intros [[id q] [-> H]]. exists id. by apply elem_of_map_to_list.
  - intros [id H]. exists (id, p). split; [reflexivity|].
    by apply elem_of_map_to_list.
Qed.

(** C10 (as amended): [GetAllSessions] returns a new slice that holds
    exactly the session pointers of the map.  Deleting a session from the
    store or evicting the expired ones afterwards leaves untouched every
    session the slice points to.  The sessions themselves are shared with the
    store: a message appended through a pointer of the slice is appended to
    the session that the store holds under the same pointer. *)
Theorem snapshot_shares_sessions m :
  wf m ->
  let snapshot := GetAllSessions m in
  (forall p, p ∈ snapshot <-> exists id, sessions m !! id = Some p)
  /\ (forall id, deref (heap (DeleteSession m id).1) snapshot = deref (heap m) snapshot)
  /\ (forall maxAge t,
        deref (heap (cleanupRound maxAge t m)) snapshot = deref (heap m) snapshot)
  /\ (forall e p role content,
        p ∈ snapshot ->
        is_Some (heap m !! p)
        /\ AddMessage e (heap m) p role content !! p
           = addMessage (now e) role content <$> heap m !! p).
Proof.
  intros Hwf snapshot. split; [apply elem_of_GetAllSessions|]. repeat split.
  - intros id. unfold DeleteSession. by destruct (sessions m !! id).
  - apply elem_of_GetAllSessions in H as [id Hid]. by apply (Hwf id).
  - unfold AddMessage. apply lookup_alter_eq.
Qed.

Lemma oneSession_wf : wf oneSession.
Proof.
  intros id p. cbn. intros H. apply lookup_singleton_Some in H as [_ <-].
  rewrite lookup_singleton_eq. eauto.
Qed.

Lemma snapshot_shares_sessions_witness :
  GetAllSessions oneSession = [1%positive]
  /\ deref (heap (DeleteSession oneSession (B "s")).1) (GetAllSessions oneSession)
     = deref (heap oneSession) (GetAllSessions oneSession).
Proof.
  split; [reflexivity|].
  exact (proj1 (proj2 (snapshot_shares_sessions oneSession oneSession_wf)) (B "s")).
Defined.

(** C10 (as stated) fails: the sessions of the snapshot are the sessions of
    the store.  A message appended through the pointer found in the snapshot
    changes the contents of the store, and so a later append in the store
    changes what the snapshot gives access to. *)
Lemma snapshot_aliases_store_sessions :
  let e := {| randRead := None; now := 5%Z |} in
  let snapshot := GetAllSessions oneSession in
  let after := withHeap oneSession
                 (AddMessage e (heap oneSession) 1%positive (B "user") (B "x")) in
  snapshot = [1%positive]
  /\ contents after <> contents oneSession
  /\ deref (heap after) snapshot <> deref (heap oneSession) snapshot.
Proof.
  cbv zeta. split; [reflexivity|]. split.
  - intros H. apply (f_equal (fun c => (fun s => length (Messages s)) <$> c !! B "s")) in H.
    vm_compute in H. discriminate.
  - intros H. vm_compute in H. discriminate.
Qed.

End MemoryFacts.

(** ** The execution registry: theorems *)

Module CancelFacts.

Import Cancel.

Lemma CancelExecution_found st executionID cancel :
  executions st !! executionID = Some cancel ->
  CancelExecution st executionID
  = (RemoveExecution (invoke cancel st) executionID, true).
Proof. intros E. unfold CancelExecution. by rewrite E. Qed.

Lemma CancelExecution_missing st executionID :
  executions st !! executionID = None ->
  CancelExecution st executionID = (st, false).
Proof. intros E. unfold CancelExecution. by rewrite E. Qed.

(** C4: two calls of [CancelExecution] in sequence with the same identifier.
    When the identifier is registered, the first call returns true, removes
    the entry and invokes its trigger, and the second returns false and
    invokes nothing: the log of invocations grows by that one trigger.  When
    it is not registered, both calls return false and the state does not
    change. *)
Theorem cancel_twice (st : State) (executionID : bytes) :
  let st1 := (CancelExecution st executionID).1 in
  let r1 := (CancelExecution st executionID).2 in
  let st2 := (CancelExecution st1 executionID).1 in
  let r2 := (CancelExecution st1 executionID).2 in
  match executions st !! executionID with
  | Some cancel =>
      r1 = true /\ r2 = false
      /\ executions st1 = delete executionID (executions st)
      /\ executions st1 !! executionID = None
      /\ invoked st1 = invoked st ++ [cancel]
      /\ st2 = st1
  | None => r1 = false /\ r2 = false /\ st1 = st /\ st2 = st
  end.
Proof.
  cbv zeta. destruct (executions st !! executionID) as [cancel|] eqn:E.
  - rewrite (CancelExecution_found _ _ _ E). cbn.
    rewrite CancelExecution_missing by (cbn; apply lookup_delete_eq).
    cbn. repeat split. apply lookup_delete_eq.
  - rewrite !(CancelExecution_missing _ _ E). cbn.
    rewrite !(CancelExecution_missing _ _ E). repeat split.
Qed.

(** The trigger of a registered run fires once over the two calls. *)
Lemma registered_trigger_fires_once (st : State) (executionID : bytes) cancel :
  executions st !! executionID = Some cancel ->
  let st2 := (CancelExecution (CancelExecution st executionID).1 executionID).1 in
  length (filter (eq cancel) (invoked st2))
  = S (length (filter (eq cancel) (invoked st))).
Proof.
  intros E. cbv zeta. rewrite (CancelExecution_found _ _ _ E). cbn.
  rewrite CancelExecution_missing by (cbn; apply lookup_delete_eq). cbn.
  rewrite filter_app, length_app. cbn.
  rewrite decide_True by reflexivity. cbn. lia.
Qed.

(** After [RemoveExecution], the identifier can be registered again and the
    new entry is cancelled on its own. *)
Lemma reuse_after_deregister (st : State) (executionID : bytes) h :
  let st' := AddExecution (RemoveExecution st executionID) executionID h in
  (CancelExecution st' executionID).2 = true
  /\ invoked (CancelExecution st' executionID).1 = invoked st ++ [h].
Proof.
  cbv zeta. unfold CancelExecution. cbn. rewrite lookup_insert_eq. by split.
Qed.

End CancelFacts.

(** ** Facts about literals and blocks *)

Module BlockFacts.

Import SanitizerFacts.

(** *** A lazy star finds the first place where the rest matches *)



(** *** Literals whose alternatives start with different bytes *)

Lemma headsDiffer_cons l alts :
  headsDiffer (l :: alts) = true ->
  l <> [] /\ headsDiffer alts = true
  /\ forall l', l' ∈ alts -> l' <> [] /\ hd "000"%char l' <> hd "000"%char l.
Proof.
  unfold headsDiffer. cbn [forallb map].
  rewrite !andb_true_iff, !bool_decide_eq_true.
  intros [[Hl Hall] [Hnot Hnd]%NoDup_cons].
  split; [by destruct l|]. split; [by split|].
  intros l' Hin. split.
  - rewrite forallb_forall in Hall. apply list_elem_of_In in Hin.
    specialize (Hall _ Hin). by destruct l'.
  - intros Heq. apply Hnot. rewrite <- Heq.
    apply list_elem_of_In, in_map, list_elem_of_In, Hin.
Qed.

Lemma HasPrefix_heads (l l' s : bytes) :
  l <> [] -> l' <> [] -> hd "000"%char l' <> hd "000"%char l ->
  HasPrefix l s = true -> HasPrefix l' s = false.
Proof.
  destruct l as [|a l], l' as [|a' l'], s as [|c s]; try done.
  cbn. intros _ _ Hne [Ha _]%andb_true_iff. apply Ascii.eqb_eq in Ha as ->.
  destruct (Ascii.eqb_spec a' c); [congruence|reflexivity].
Qed.

Lemma tryAlts_other_heads k b s l alts :
  l <> [] -> HasPrefix l s = true ->
  (forall l', l' ∈ alts -> l' <> [] /\ hd "000"%char l' <> hd "000"%char l) ->
  tryAlts k b s alts = None.
Proof.
  intros Hl Hp Hall. induction alts as [|l' alts IH]; [reflexivity|].
  cbn [tryAlts]. destruct (Hall l') as [Hl' Hne]; [by left|].
  rewrite (HasPrefix_heads l l' s) by assumption.
  apply IH. intros l'' Hin. apply Hall. by right.
Qed.

(** The alternative that starts the text decides the match. *)
Lemma tryAlts_member k b l rest alts :
  headsDiffer alts = true -> l ∈ alts ->
  tryAlts k b (l ++ rest) alts
  = Nat.add (length l) <$> k (lastIsNL b l) rest.
Proof.
  induction alts as [|l0 alts IH]; intros Hd Hin; [by apply elem_of_nil in Hin|].
  destruct (headsDiffer_cons _ _ Hd) as (Hl0 & Hd' & Hother).
  cbn [tryAlts]. apply elem_of_cons in Hin as [->|Hin].
  - rewrite HasPrefix_app, drop_app_length.
    destruct (k (lastIsNL b l0) rest); [reflexivity|].
    apply (tryAlts_other_heads k b _ l0); [assumption|apply HasPrefix_app|assumption].
  - destruct (Hother l Hin) as [Hl Hne].
    rewrite (HasPrefix_heads l l0 (l ++ rest)); auto using HasPrefix_app.
Qed.

Lemma tryAlts_Some_inv k b s alts n :
  tryAlts k b s alts = Some n ->
  exists l t m, l ∈ alts /\ s = l ++ t /\ k (lastIsNL b l) t = Some m
                /\ n = length l + m.
Proof.
  induction alts as [|l alts IH]; [discriminate|]. cbn [tryAlts].
  destruct (HasPrefix l s) eqn:Hp.
  - apply HasPrefix_spec in Hp as [t ->]. rewrite drop_app_length.
    destruct (k (lastIsNL b l) t) as [m|] eqn:Hk.
    + intros [= <-]. exists l, t, m. repeat split; [by left|assumption].
    + intros H. destruct (IH H) as (l' & t' & m & Hin & ? & ? & ?).
      exists l', t', m. repeat split; try assumption. by right.
  - intros H. destruct (IH H) as (l' & t' & m & Hin & ? & ? & ?).
    exists l', t', m. repeat split; try assumption. by right.
Qed.


(** The texts that spell a sequence of literals, piece by piece. *)
Lemma spelled_pieces p : forall b o,
  literals p = true ->
  matchSeq p b o = Some (length o) ->
  exists ls,
    Forall2 (fun a l => match a with Lit alts => l ∈ alts | _ => False end) p ls
    /\ o = concat ls.
Proof.
  induction p as [|a p IH]; intros b o Hp H.
  - exists []. split; [constructor|]. cbn in H. destruct o; [reflexivity|discriminate].
  - cbn [literals forallb] in Hp. apply andb_true_iff in Hp as [Ha Hp].
    destruct a as [alts| | | |]; try discriminate.
    cbn [matchSeq] in H.
    apply tryAlts_Some_inv in H as (l & t & m & Hin & -> & Hk & Hn).
    rewrite length_app in Hn. assert (m = length t) as -> by lia.
    destruct (IH _ _ Hp Hk) as (ls & Hls & ->).
    exists (l :: ls). split; [by constructor|reflexivity].
Qed.

Lemma matchSeq_pieces p q : forall ls b s,
  literals p = true ->
  Forall2 (fun a l => match a with Lit alts => l ∈ alts | _ => False end) p ls ->
  matchSeq (p ++ q) b (concat ls ++ s)
  = Nat.add (length (concat ls)) <$> matchSeq q (lastIsNL b (concat ls)) s.
Proof.
  induction p as [|a p IH]; intros ls b s Hp Hls.
  - apply Forall2_nil_inv_l in Hls as ->. cbn. by destruct (matchSeq q b s).
  - apply Forall2_cons_inv_l in Hls as (l & ls' & Hl & Hls & ->).
    cbn [literals forallb] in Hp. apply andb_true_iff in Hp as [Ha Hp].
    destruct a as [alts| | | |]; try done.
    cbn [app matchSeq concat]. rewrite <- app_assoc.
    rewrite tryAlts_member by assumption. rewrite IH by assumption.
    rewrite lastIsNL_app, length_app.
    destruct (matchSeq q _ s); cbn; [|reflexivity]. f_equal. lia.
Qed.

(** A text that spells the literals is matched wherever it stands. *)
Lemma matchSeq_spelled p q b o s :
  literals p = true -> spells p o = true ->
  matchSeq (p ++ q) b (o ++ s)
  = Nat.add (length o) <$> matchSeq q (lastIsNL b o) s.
Proof.
  intros Hp Ho. apply bool_decide_eq_true in Ho.
  destruct (spelled_pieces p true o Hp Ho) as (ls & Hls & ->).
  by apply matchSeq_pieces.
Qed.

(** No piece of the literals holds the byte [ch], so the text does not. *)
Lemma spelled_avoids ch p o :
  literals p = true -> litsAvoid ch p = true -> spells p o = true ->
  noByte ch o = true.
Proof.
  intros Hp Hav Ho. apply bool_decide_eq_true in Ho.
  destruct (spelled_pieces p true o Hp Ho) as (ls & Hls & ->).
  clear Ho Hp. revert Hav. induction Hls as [|a l p ls Hl Hls IH]; [reflexivity|].
  cbn [litsAvoid forallb concat]. intros [Ha Hav]%andb_true_iff.
  rewrite noByte_app. apply andb_true_iff. split; [|by apply IH].
  destruct a as [alts| | | |]; try done.
  rewrite forallb_forall in Ha. apply Ha, list_elem_of_In, Hl.
Qed.

(** *** A block between an opening and a closing marker *)

Lemma match_block open tail o body c s b :
  literals open = true ->
  literals (Lit [[LT]] :: tail) = true -> litsAvoid LT tail = true ->
  spells open o = true -> spells (Lit [[LT]] :: tail) c = true ->
  (forall b' u, u `suffix_of` body -> matchSeq (Lit [[LT]] :: tail) b' u = None) ->
  matchSeq (open ++ Star anyByte false :: Lit [[LT]] :: tail) b
           (o ++ body ++ c ++ s)
  = Some (length (o ++ body ++ c)).
Proof.
  intros Hopen Hclose Hav Ho Hc Hbody.
  rewrite matchSeq_spelled by assumption.
  change (matchSeq (Star anyByte false :: Lit [[LT]] :: tail))
    with (starLoop anyByte false (matchSeq (Lit [[LT]] :: tail))).
  assert (exists c', c = LT :: c') as [c' ->].
  { apply bool_decide_eq_true in Hc. cbn [matchSeq] in Hc.
    apply tryAlts_Some_inv in Hc as (l & t & m & Hin & -> & _).
    apply list_elem_of_singleton in Hin as ->. eauto. }
  rewrite (starLoop_lazy_find _ body ((LT :: c') ++ s) _ (length (LT :: c'))).
  - cbn [fmap option_fmap option_map]. f_equal. rewrite !length_app. lia.
  - intros b' u Hne Hu. cbn [app].
    rewrite matchSeq_straddle_first by assumption. by apply Hbody.
  - rewrite <- (app_nil_r (Lit [[LT]] :: tail)).
    rewrite matchSeq_spelled by assumption. cbn. f_equal. lia.
Qed.

Lemma replaceAll_block open tail o body c s b :
  literals open = true -> anchorFree open = true ->
  literals (Lit [[LT]] :: tail) = true -> litsAvoid LT tail = true ->
  anchorFree tail = true ->
  spells open o = true -> spells (Lit [[LT]] :: tail) c = true ->
  (forall b' u, u `suffix_of` body -> matchSeq (Lit [[LT]] :: tail) b' u = None) ->
  replaceAll (open ++ Star anyByte false :: Lit [[LT]] :: tail) [] b 0
             (o ++ body ++ c ++ s)
  = replaceAll (open ++ Star anyByte false :: Lit [[LT]] :: tail) [] b 0 s.
Proof.
  intros Hopen Hao Hclose Hav Hat Ho Hc Hbody.
  pose proof (match_block open tail o body c s b Hopen Hclose Hav Ho Hc Hbody)
    as Hm.
  assert (o ++ body ++ c <> []) as Hne.
  { apply bool_decide_eq_true in Hc. destruct c; [discriminate|].
    intros H. apply (f_equal length) in H. rewrite !length_app in H.
    cbn in H. lia. }
  replace (o ++ body ++ c ++ s) with ((o ++ body ++ c) ++ s) in *
    by (rewrite <- !app_assoc; reflexivity).
  rewrite replaceAll_hit by assumption. cbn [app].
  apply replaceAll_bol. unfold anchorFree in *. rewrite forallb_app, Hao.
  cbn. exact Hat.
Qed.

(** *** The paired blocks of hidden reasoning *)

Lemma thinkRegex_parts :
  thinkRegex = openThink ++ Star anyByte false :: Lit [[LT]] :: closeThinkTail.
Proof. reflexivity. Qed.

Lemma reasoningRegex_parts :
  reasoningRegex
  = openReasoning ++ Star anyByte false :: Lit [[LT]] :: ci "/reasoning>".
Proof. reflexivity. Qed.

Lemma openThink_literals : literals openThink = true.
Proof. vm_compute. reflexivity. Qed.

Lemma closeThink_literals : literals (Lit [[LT]] :: closeThinkTail) = true.
Proof. vm_compute. reflexivity. Qed.

Lemma openReasoning_literals : literals openReasoning = true.
Proof. vm_compute. reflexivity. Qed.

Lemma closeReasoning_literals : literals (Lit [[LT]] :: ci "/reasoning>") = true.
Proof. vm_compute. reflexivity. Qed.




Lemma noCloseThink_suffixes body :
  noCloseThink body = true ->
  forall b' u, u `suffix_of` body -> matchSeq (Lit [[LT]] :: closeThinkTail) b' u = None.
Proof. intros H b' u Hu. by apply (noCloseThink_suffix body). Qed.

(** A paired block goes, in whatever letter case its markers are written. *)
Lemma stripThinkBlocks_spelled opening body closing s :
  spells openThink opening = true -> spells closeThink closing = true ->
  noCloseThink body = true ->
  stripThinkBlocks (opening ++ body ++ closing ++ s) = stripThinkBlocks s.
Proof.
  intros Ho Hc Hb. unfold stripThinkBlocks, ReplaceAllString.
  rewrite thinkRegex_parts.
  exact (replaceAll_block openThink closeThinkTail opening body closing s true
           openThink_literals eq_refl closeThink_literals eq_refl eq_refl
           Ho Hc (noCloseThink_suffixes body Hb)).
Qed.

Lemma noByte_suffixes p body :
  noByte LT body = true ->
  forall b' u, u `suffix_of` body -> matchSeq (Lit [[LT]] :: p) b' u = None.
Proof.
  intros H b' u Hu.
  destruct (matchFrom_false_suffix _ true _ (matchFrom_noByte LT p true body H) u Hu)
    as [b'' Hb].
  destruct u as [|c u]; [reflexivity|].
  cbn [matchSeq tryAlts HasPrefix] in *.
  destruct (Ascii.eqb LT c); [|reflexivity]. cbn [andb] in *.
  destruct (matchSeq p _ _) eqn:E in Hb; [discriminate|].
  cbn [lastIsNL fold_left length drop] in *. by rewrite E.
Qed.

Lemma stripReasoning_spelled opening body closing s :
  spells openReasoning opening = true -> spells closeReasoning closing = true ->
  noByte LT body = true ->
  stripReasoning (opening ++ body ++ closing ++ s) = stripReasoning s.
Proof.
  intros Ho Hc Hb. unfold stripReasoning, ReplaceAllString.
  rewrite reasoningRegex_parts.
  exact (replaceAll_block openReasoning (ci "/reasoning>") opening body closing
           s true openReasoning_literals eq_refl closeReasoning_literals
           eq_refl eq_refl Ho Hc (noByte_suffixes _ body Hb)).
Qed.

(** *** A block of the other kind is left alone by the first removals *)

Lemma spells_cons_inv alts p o :
  anchorFree p = true -> spells (Lit alts :: p) o = true ->
  exists l o', l ∈ alts /\ o = l ++ o' /\ spells p o' = true.
Proof.
  intros Ha Ho. apply bool_decide_eq_true in Ho. cbn [matchSeq] in Ho.
  apply tryAlts_Some_inv in Ho as (l & t & m & Hin & -> & Hk & Hn).
  rewrite length_app in Hn. assert (m = length t) as -> by lia.
  exists l, t. repeat split; [assumption|].
  apply bool_decide_eq_true.
  by rewrite (matchSeq_bol p true (lastIsNL true l)).
Qed.

(** The markers of a [<reasoning>] block start with [<r] and [</], and hold
    no other [<]. *)
Lemma reasoning_markers opening closing :
  spells openReasoning opening = true -> spells closeReasoning closing = true ->
  exists r o' c',
    opening = LT :: r :: o' /\ closing = LT :: "/"%char :: c'
    /\ (r = "r"%char \/ r = "R"%char)
    /\ noByte LT (r :: o') = true /\ noByte LT ("/"%char :: c') = true.
Proof.
  intros Ho Hc.
  change openReasoning with (Lit [[LT]] :: ci "reasoning>") in Ho.
  change closeReasoning with (Lit [[LT]] :: ci "/reasoning>") in Hc.
  apply spells_cons_inv in Ho as (l1 & o1 & Hl1 & -> & Ho1); [|reflexivity].
  apply spells_cons_inv in Hc as (k1 & c1 & Hk1 & -> & Hc1); [|reflexivity].
  apply list_elem_of_singleton in Hl1 as ->.
  apply list_elem_of_singleton in Hk1 as ->.
  pose proof (spelled_avoids LT (ci "reasoning>") o1
                ltac:(vm_compute; reflexivity) eq_refl Ho1) as Hno.
  pose proof (spelled_avoids LT (ci "/reasoning>") c1
                ltac:(vm_compute; reflexivity) eq_refl Hc1) as Hnc.
  change (ci "reasoning>") with (Lit [B "r"; B "R"] :: ci "easoning>") in Ho1.
  change (ci "/reasoning>") with (Lit [B "/"] :: ci "reasoning>") in Hc1.
  apply spells_cons_inv in Ho1 as (l2 & o2 & Hl2 & -> & _); [|reflexivity].
  apply spells_cons_inv in Hc1 as (k2 & c2 & Hk2 & -> & _); [|reflexivity].
  apply list_elem_of_singleton in Hk2 as ->.
  apply elem_of_cons in Hl2 as [->|Hl2];
    [|apply list_elem_of_singleton in Hl2 as ->];
    do 3 eexists; (split; [reflexivity|]); (split; [reflexivity|]);
    (split; [|split; assumption]); auto.
Qed.

Lemma think_fails_at b r rest :
  r = "r"%char \/ r = "R"%char \/ r = "/"%char ->
  matchSeq thinkRegex b (LT :: r :: rest) = None
  /\ matchSeq openThinkRegex b (LT :: r :: rest) = None.
Proof. intros [->|[->| ->]]; split; reflexivity. Qed.

Lemma replaceAll_miss re repl b c s :
  matchSeq re b (c :: s) = None ->
  replaceAll re repl b 0 (c :: s) = c :: replaceAll re repl (isNL c) 0 s.
Proof. intros H. cbn [replaceAll]. by rewrite H. Qed.

Lemma noByte_cons ch c x :
  noByte ch (c :: x) = negb (Ascii.eqb c ch) && noByte ch x.
Proof. reflexivity. Qed.

Lemma strip_keeps_reasoning_block opening body closing s :
  spells openReasoning opening = true -> spells closeReasoning closing = true ->
  noByte LT body = true ->
  stripThinkBlocks (opening ++ body ++ closing ++ s)
  = opening ++ body ++ closing ++ stripThinkBlocks s
  /\ stripOpenThink (opening ++ body ++ closing ++ s)
     = opening ++ body ++ closing ++ stripOpenThink s.
Proof.
  intros Ho Hc Hb.
  destruct (reasoning_markers opening closing Ho Hc)
    as (r & o' & c' & -> & -> & Hr & Hno & Hnc).
  assert (noByte LT (o' ++ body) = true) as Hx.
  { rewrite noByte_cons in Hno. apply andb_true_iff in Hno as [_ Hno].
    by rewrite noByte_app, Hno, Hb. }
  assert (noByte LT c' = true) as Hy.
  { rewrite noByte_cons in Hnc. by apply andb_true_iff in Hnc as [_ Hnc]. }
  assert (forall t,
            (LT :: r :: o') ++ body ++ (LT :: "/"%char :: c') ++ t
            = LT :: r :: (o' ++ body) ++ LT :: "/"%char :: c' ++ t) as Hshape
    by (intros t; cbn [app]; by rewrite <- !app_assoc).
  assert (forall re repl t,
            anchorFree (Lit [[LT]] :: re) = true ->
            (forall b rest, matchSeq (Lit [[LT]] :: re) b (LT :: r :: rest) = None) ->
            (forall b rest,
               matchSeq (Lit [[LT]] :: re) b (LT :: "/"%char :: rest) = None) ->
            replaceAll (Lit [[LT]] :: re) repl true 0
              (LT :: r :: (o' ++ body) ++ LT :: "/"%char :: c' ++ t)
            = LT :: r :: (o' ++ body) ++ LT :: "/"%char :: c'
                ++ replaceAll (Lit [[LT]] :: re) repl true 0 t) as Hcopy.
  { intros re repl t Ha H1 H2.
    rewrite replaceAll_miss by apply H1. f_equal.
    assert (noByte LT (r :: o' ++ body) = true) as Hrx.
    { rewrite noByte_cons, Hx. by destruct Hr as [-> | ->]. }
    change (r :: (o' ++ body) ++ LT :: "/"%char :: c' ++ t)
      with ((r :: o' ++ body) ++ LT :: "/"%char :: c' ++ t).
    rewrite replaceAll_copy by assumption.
    change ((r :: o' ++ body) ++ LT :: "/"%char :: c'
              ++ replaceAll (Lit [[LT]] :: re) repl true 0 t)
      with (r :: (o' ++ body) ++ LT :: "/"%char :: c'
              ++ replaceAll (Lit [[LT]] :: re) repl true 0 t).
    change ((r :: o' ++ body)
              ++ replaceAll (Lit [[LT]] :: re) repl
                   (lastIsNL (isNL LT) (r :: o' ++ body)) 0
                   (LT :: "/"%char :: c' ++ t))
      with (r :: (o' ++ body)
              ++ replaceAll (Lit [[LT]] :: re) repl
                   (lastIsNL (isNL LT) (r :: o' ++ body)) 0
                   (LT :: "/"%char :: c' ++ t)).
    f_equal. f_equal.
    rewrite replaceAll_miss by apply H2. f_equal.
    assert (noByte LT ("/"%char :: c') = true) as Hcx
      by (by rewrite noByte_cons, Hy).
    change ("/"%char :: c' ++ t) with (("/"%char :: c') ++ t).
    rewrite replaceAll_copy by assumption.
    change (("/"%char :: c') ++ ?z) with ("/"%char :: c' ++ z).
    f_equal. f_equal. by apply replaceAll_bol. }
  unfold stripThinkBlocks, stripOpenThink, ReplaceAllString.
  rewrite !Hshape, thinkRegex_shape, openThinkRegex_shape.
  split; apply Hcopy; try exact eq_refl; intros b rest;
    rewrite <- ?thinkRegex_shape, <- ?openThinkRegex_shape.
  - apply (think_fails_at b r rest). tauto.
  - apply (think_fails_at b "/"%char rest). tauto.
  - apply (think_fails_at b r rest). tauto.
  - apply (think_fails_at b "/"%char rest). tauto.
Qed.

(** A block of either kind in front of a response leaves no trace, in
    whatever letter case its markers are written. *)
Lemma cleanAgentResponse_think_spelled opening body closing response :
  spells openThink opening = true -> spells closeThink closing = true ->
  noCloseThink body = true ->
  cleanAgentResponse (opening ++ body ++ closing ++ response)
  = cleanAgentResponse response.
Proof.
  intros Ho Hc Hb. apply cleanAgentResponse_strip_eq.
  by rewrite stripThinkBlocks_spelled.
Qed.

Lemma cleanAgentResponse_reasoning_spelled opening body closing response :
  spells openReasoning opening = true -> spells closeReasoning closing = true ->
  noByte LT body = true ->
  cleanAgentResponse (opening ++ body ++ closing ++ response)
  = cleanAgentResponse response.
Proof.
  intros Ho Hc Hb. unfold cleanAgentResponse, normalize.
  destruct (strip_keeps_reasoning_block opening body closing response Ho Hc Hb)
    as [-> _].
  destruct (strip_keeps_reasoning_block opening body closing
              (stripThinkBlocks response) Ho Hc Hb) as [_ ->].
  by rewrite stripReasoning_spelled.
Qed.

End BlockFacts.

(** ** Facts about texts with several blocks *)

Module BlocksFacts.

Import SanitizerFacts BlockFacts.








End BlocksFacts.

(** ** Facts about clean text *)

Module CleanFacts.

Import SanitizerFacts.

(** *** No white space around the text *)





(** *** A run of white space that ends before text *)




(** *** No run of blank lines *)




(** *** Fields that hold a value *)





End CleanFacts.

(** ** The sanitizer: theorems *)

Module SanitizerClaims.

Import SanitizerFacts BlockFacts BlocksFacts CleanFacts.

Lemma hasAgentFormat_not_empty x : hasAgentFormat x = true -> isEmpty x = false.
Proof. destruct x; [discriminate|reflexivity]. Qed.





Lemma cleanAgentResponse_wraps response :
  hasAgentFormat (normalize response) = false ->
  50 < length (normalize response) ->
  looksLikeRefusal (normalize response) = false ->
  cleanAgentResponse response = wrapPrefix ++ normalize response.
Proof.
  intros Hf Hl Hr. unfold cleanAgentResponse. rewrite Hf, Hr.
  destruct (normalize response) as [|c t] eqn:E; [cbn in Hl; lia|].
  cbn [negb isEmpty andb].
  destruct (Nat.ltb_spec 50 (length (c :: t))); [|lia].
  reflexivity.
Qed.

Lemma runeCount_le_length s : runeCount s <= length s.
Proof. apply length_filter. Qed.

(** The same for a cleaned text of more than 50 characters. *)
Lemma cleanAgentResponse_wraps_characters response :
  hasAgentFormat (normalize response) = false ->
  50 < runeCount (normalize response) ->
  looksLikeRefusal (normalize response) = false ->
  cleanAgentResponse response = wrapPrefix ++ normalize response.
Proof.
  intros Hf Hl Hr. apply cleanAgentResponse_wraps; [assumption| |assumption].
  pose proof (runeCount_le_length (normalize response)). lia.
Qed.

(** C6 (as amended): when the cleaned text carries none of the four
    keywords, is longer than 50 bytes (as every text of more than 50
    characters is) and its lower-case form does not contain "i don't", the
    sanitizer returns the one-step trace "Thought: I can provide a direct
    answer to this question." followed by a line "Final Answer: " and the
    cleaned text, unchanged.  The same output results when a hidden block
    precedes the response: a [<think>] block up to its first closing marker,
    or a [<reasoning>] block whose body holds no [<], with the markers in
    any letter case. *)
Theorem plain_prose_is_wrapped response :
  let cleaned := normalize response in
  hasAgentFormat cleaned = false ->
  50 < length cleaned ->
  looksLikeRefusal cleaned = false ->
  cleanAgentResponse response
  = B "Thought: I can provide a direct answer to this question." ++ [NL]
      ++ B "Final Answer: " ++ cleaned
  /\ (forall opening body closing,
        spells openThink opening = true -> spells closeThink closing = true ->
        noCloseThink body = true ->
        cleanAgentResponse (opening ++ body ++ closing ++ response)
        = B "Thought: I can provide a direct answer to this question." ++ [NL]
            ++ B "Final Answer: " ++ cleaned)
  /\ (forall opening body closing,
        spells openReasoning opening = true ->
        spells closeReasoning closing = true ->
        noByte LT body = true ->
        cleanAgentResponse (opening ++ body ++ closing ++ response)
        = B "Thought: I can provide a direct answer to this question." ++ [NL]
            ++ B "Final Answer: " ++ cleaned).
Proof.
  intros cleaned Hf Hl Hr.
  assert (cleanAgentResponse response = wrapPrefix ++ cleaned) as H
      by (by apply cleanAgentResponse_wraps).
  unfold wrapPrefix in H. rewrite <- !app_assoc in H. split; [exact H|].
  split; intros opening body closing Ho Hc Hb.
  - by rewrite cleanAgentResponse_think_spelled.
  - by rewrite cleanAgentResponse_reasoning_spelled.
Qed.

Lemma plain_prose_is_wrapped_witness :
  cleanAgentResponse plainProse
  = B "Thought: I can provide a direct answer to this question." ++ [NL]
      ++ B "Final Answer: " ++ plainProse
  /\ cleanAgentResponse (B "<Think>" ++ B "let me see" ++ B "</THINK>" ++ plainProse)
     = B "Thought: I can provide a direct answer to this question." ++ [NL]
         ++ B "Final Answer: " ++ plainProse
  /\ cleanAgentResponse
       (B "<Reasoning>" ++ B "let me see" ++ B "</reasoning>" ++ plainProse)
     = B "Thought: I can provide a direct answer to this question." ++ [NL]
         ++ B "Final Answer: " ++ plainProse.
Proof.
  assert (normalize plainProse = plainProse) as E by (vm_compute; reflexivity).
  destruct (plain_prose_is_wrapped plainProse
              ltac:(vm_compute; reflexivity)
              ltac:(vm_compute; lia)
              ltac:(vm_compute; reflexivity)) as (H1 & H2 & H3).
  rewrite E in H1, H2, H3. split; [exact H1|]. split.
  - apply (H2 (B "<Think>") (B "let me see") (B "</THINK>"));
      vm_compute; reflexivity.
  - apply (H3 (B "<Reasoning>") (B "let me see") (B "</reasoning>"));
      vm_compute; reflexivity.
Defined.

(** C6 (as stated) fails: an answer of 80 characters without any keyword
    that is no refusal, but holds the words "I don't", is returned as it is,
    without the trace around it. *)
Lemma plain_prose_with_i_dont_is_not_wrapped :
  normalize politeProse = politeProse
  /\ hasAgentFormat (normalize politeProse) = false
  /\ length (normalize politeProse) = 80
  /\ runeCount (normalize politeProse) = 80
  /\ looksLikeRefusal (normalize politeProse) = true
  /\ cleanAgentResponse politeProse = politeProse
  /\ Contains (cleanAgentResponse politeProse) (B "Final Answer:") = false.
Proof. repeat split; vm_compute; reflexivity. Qed.




End SanitizerClaims.

(** ** The orchestrator: theorems *)

Module OrchestratorFacts.

Import Memory Cancel Orchestrator MemoryFacts.

Lemma cut_spec sep e before after :
  cut sep e = Some (before, after) -> e = before ++ sep ++ after.
Proof.
  revert before. induction e as [|c e IH]; intros before; simpl.
  - destruct (HasPrefix sep []) eqn:E; [|discriminate].
    intros [= <- <-]. by apply HasPrefix_drop.
  - destruct (HasPrefix sep (c :: e)) eqn:E.
    + intros [= <- <-]. by apply HasPrefix_drop.
    + destruct (cut sep e) as [[b a]|]; [|discriminate].
      intros [= <- <-]. rewrite (IH b eq_refl) at 1. reflexivity.
Qed.

Lemma cut_Contains sep e : Contains e sep = true <-> is_Some (cut sep e).
Proof.
  induction e as [|c e IH]; simpl.
  - destruct (HasPrefix sep []); simpl; split; eauto;
      try discriminate; intros [x Hx]; discriminate.
  - destruct (HasPrefix sep (c :: e)); simpl; [split; eauto|].
    rewrite IH. destruct (cut sep e) as [[b a]|]; split; eauto;
      intros [x Hx]; discriminate.
Qed.

Lemma HasPrefix_app_l p q s : HasPrefix (p ++ q) s = true -> HasPrefix p s = true.
Proof.
  intros [t ->]%HasPrefix_spec. rewrite <- app_assoc. apply HasPrefix_app.
Qed.

Lemma Contains_app_l e p q : Contains e (p ++ q) = true -> Contains e p = true.
Proof.
  induction e as [|c e IH]; simpl; rewrite !orb_true_iff.
  - intros [H|H]; [|discriminate]. left. by apply (HasPrefix_app_l p q).
  - intros [H|H]; [left; by apply (HasPrefix_app_l p q)|right; auto].
Qed.

(** *** The group of [finalAnswerRegex] *)

Lemma starLoop_spaces b t :
  starLoop isSpaceRE true (matchSeq []) b t = Some (spaceRun t).
Proof.
  revert b. induction t as [|c t IH]; intros b; [reflexivity|].
  simpl. destruct (isSpaceRE c); [|reflexivity]. rewrite IH. reflexivity.
Qed.

Lemma match_finalAnswerRegex b s :
  matchSeq finalAnswerRegex b s
  = if HasPrefix finalAnswerMarker s
    then Some (length finalAnswerMarker
               + spaceRun (drop (length finalAnswerMarker) s))
    else None.
Proof.
  unfold finalAnswerRegex, lit. cbn [app matchSeq tryAlts].
  change (B "Final Answer:") with finalAnswerMarker.
  destruct (HasPrefix finalAnswerMarker s); [|reflexivity].
  rewrite starLoop_spaces. reflexivity.
Qed.

Lemma FindStringSubmatch1_cut cleaned :
  FindStringSubmatch1 cleaned
  = match cut finalAnswerMarker cleaned with
    | Some (_, after) => Some (drop (spaceRun after) after)
    | None => None
    end.
Proof.
  unfold FindStringSubmatch1. generalize true.
  induction cleaned as [|c t IH]; intros b.
  - reflexivity.
  - cbn [findFrom cut]. rewrite match_finalAnswerRegex.
    destruct (HasPrefix finalAnswerMarker (c :: t)) eqn:E.
    + cbn [plus]. rewrite <- drop_drop. reflexivity.
    + specialize (IH (isNL c)).
      destruct (findFrom finalAnswerRegex (isNL c) t) as [[i n]|];
        destruct (cut finalAnswerMarker t) as [[b' a']|];
        try discriminate; [|reflexivity].
      cbn in *. exact IH.
Qed.

Lemma TrimLeftSpace_space c t :
  isSpaceRE c = true -> TrimLeftSpace (c :: t) = TrimLeftSpace t.
Proof.
  unfold isSpaceRE. rewrite !orb_true_iff, !Ascii.eqb_eq.
  intros [[[[->| ->]| ->]| ->]| ->]; reflexivity.
Qed.

Lemma TrimSpace_drop_spaces t : TrimSpace (drop (spaceRun t) t) = TrimSpace t.
Proof.
  unfold TrimSpace. f_equal. induction t as [|c t IH]; [reflexivity|].
  simpl. destruct (isSpaceRE c) eqn:E; [|reflexivity].
  rewrite TrimLeftSpace_space by assumption. exact IH.
Qed.

(** *** The recovery from a parsing error *)

Lemma recoverParsingError_spec r0 e before raw :
  cut parseMarkerColon e = Some (before, raw) ->
  recoverParsingError r0 (Some e)
  = match cut finalAnswerMarker (cleanAgentResponse raw) with
    | Some (_, answer) =>
        {| result := TrimSpace answer; err := None; cleanCalls := [raw] |}
    | None =>
        {| result := r0; err := Some malformedResponseError;
           cleanCalls := [raw] |}
    end.
Proof.
  intros Hcut. unfold recoverParsingError.
  assert (Contains e parseMarkerColon = true) as Hc
      by (apply cut_Contains; eauto).
  rewrite (Contains_app_l e parseMarker (B ": ")) by exact Hc.
  rewrite Hc. unfold SplitN2. rewrite Hcut.
  set (cleaned := cleanAgentResponse raw).
  rewrite FindStringSubmatch1_cut.
  destruct (cut finalAnswerMarker cleaned) as [[b a]|] eqn:E.
  - assert (Contains cleaned finalAnswerMarker = true) as Hf
        by (apply cut_Contains; eauto).
    rewrite Hf. assert (isEmpty cleaned = false) as ->.
    { destruct cleaned; [discriminate|reflexivity]. }
    cbn. rewrite TrimSpace_drop_spaces. reflexivity.
  - assert (Contains cleaned finalAnswerMarker = false) as ->.
    { destruct (Contains cleaned finalAnswerMarker) eqn:Hf; [|reflexivity].
      apply cut_Contains in Hf as [x Hx]. congruence. }
    rewrite andb_false_r. reflexivity.
Qed.

(** *** Cancellation through the registry *)

Lemma settle_lookup cause h' h (cs : gmap handle CtxErr) :
  settle cause h' cs !! h
  = match cs !! h with
    | Some c => Some c
    | None => if decide (h' = h) then Some cause else None
    end.
Proof.
  unfold settle. destruct (decide (h' = h)) as [->|Hne].
  - destruct (cs !! h) eqn:E; [by rewrite E|]. by rewrite lookup_insert_eq.
  - destruct (cs !! h') eqn:E'; [by destruct (cs !! h)|].
    rewrite lookup_insert_ne by assumption. by destruct (cs !! h).
Qed.

Lemma applyAction_keeps_cause h st a c :
  ctxs st !! h = Some c -> ctxs (applyAction h st a) !! h = Some c.
Proof.
  intros H. destruct a as [id|]; cbn.
  - unfold CancelExecution. destruct (executions st !! id); cbn; [|assumption].
    rewrite settle_lookup, H. reflexivity.
  - rewrite settle_lookup, H. reflexivity.
Qed.

Lemma fold_keeps_cause h l st c :
  ctxs st !! h = Some c -> ctxs (fold_left (applyAction h) l st) !! h = Some c.
Proof.
  revert st. induction l as [|a l IH]; intros st H; [assumption|].
  cbn. apply IH. by apply applyAction_keeps_cause.
Qed.

Lemma stop_keeps_liveOrCancelled executionID h st id :
  liveOrCancelled executionID h st ->
  liveOrCancelled executionID h (applyAction h st (Stop id)).
Proof.
  intros [[He Hc]|Hc]; [|right; by apply applyAction_keeps_cause].
  cbn. unfold CancelExecution.
  destruct (executions st !! id) as [h'|] eqn:E; cbn; [|left; by split].
  destruct (decide (h' = h)) as [->|Hne].
  - right. cbn. rewrite settle_lookup, Hc. by rewrite decide_True.
  - left. cbn. split.
    + rewrite lookup_delete_ne; [assumption|]. intros <-. congruence.
    + rewrite settle_lookup, Hc. by rewrite decide_False.
Qed.

Lemma stop_cancels executionID h st :
  liveOrCancelled executionID h st ->
  ctxs (applyAction h st (Stop executionID)) !! h = Some Canceled.
Proof.
  intros [[He Hc]|Hc]; [|by apply applyAction_keeps_cause].
  cbn. unfold CancelExecution. rewrite He. cbn.
  rewrite settle_lookup, Hc. by rewrite decide_True.
Qed.

Lemma fold_stop_cancels executionID h pre post st :
  liveOrCancelled executionID h st ->
  Forall (fun a => a <> Deadline) pre ->
  ctxs (fold_left (applyAction h) (pre ++ Stop executionID :: post) st) !! h
  = Some Canceled.
Proof.
  revert st. induction pre as [|a pre IH]; intros st Hinv Hpre.
  - cbn. apply fold_keeps_cause. by apply stop_cancels.
  - apply Forall_cons in Hpre as [Ha Hpre]. cbn. apply IH; [|assumption].
    destruct a as [id|]; [|congruence]. by apply stop_keeps_liveOrCancelled.
Qed.

Lemma messageWithContext_total cfg m p message :
  is_Some (messageWithContext cfg m p message).
Proof.
  unfold messageWithContext, sessionMessages.
  destruct (heap m !! p) as [s|]; [|cbn; eauto].
  destruct (1 <? length (Messages s)); [|eauto].
  unfold GetConversationContext.
  rewrite GetRecentMessages_nonneg by lia.
  destruct (drop _ _); eauto.
Qed.

Lemma executeWithStreaming_fails ctxErr debug run e :
  err (runClosure (outcome run)) = Some e ->
  executeWithStreaming ctxErr debug run
  = ([thinking (B "Processing your request...") debug]
       ++ (if debug then map debugEvent (callbackEvents run) else []),
     ([], Some (match ctxErr with
                | Some DeadlineExceeded => timeoutError
                | _ => e
                end)),
     cleanCalls (runClosure (outcome run))).
Proof.
  intros H. unfold executeWithStreaming. rewrite H.
  destruct ctxErr as [[|]|]; reflexivity.
Qed.

End OrchestratorFacts.


Module OrchestratorClaims.

Import Memory Cancel Orchestrator MemoryFacts OrchestratorFacts.

(** C5 (as amended): when [chains.Run] fails with a message that holds
    "unable to parse agent output: ", the sanitizer is run once, on the text
    after the first occurrence of that marker.  If its result holds
    "Final Answer:", the run succeeds and returns the text after the first
    such marker, trimmed.  Otherwise the run fails, with the
    malformed-response error, or with the time-out error when the deadline of
    the context has passed. *)
Theorem parse_failure_is_recovered_once ctxErr debug run r0 e before raw :
  outcome run = ChainReturned r0 (Some e) ->
  cut parseMarkerColon e = Some (before, raw) ->
  let out := executeWithStreaming ctxErr debug run in
  out.2 = [raw]
  /\ match cut finalAnswerMarker (CleanAgentResponse raw) with
     | Some (_, answer) => out.1.2 = (TrimSpace answer, None)
     | None =>
         out.1.2
         = ([], Some (match ctxErr with
                      | Some DeadlineExceeded => timeoutError
                      | _ => malformedResponseError
                      end))
     end.
Proof.
  intros Ho Hcut. cbv zeta. unfold executeWithStreaming, CleanAgentResponse.
  rewrite Ho. cbn [runClosure]. rewrite (recoverParsingError_spec _ _ _ _ Hcut).
  destruct (cut finalAnswerMarker (cleanAgentResponse raw)) as [[b a]|]; cbn.
  - by split.
  - by destruct ctxErr as [[|]|].
Qed.

Lemma parse_failure_is_recovered_once_witness :
  (executeWithStreaming None false recoverable).1.2 = (B "42", None)
  /\ (executeWithStreaming None false recoverable).2 = [B "Final Answer:  42 "].
Proof.
  pose proof (parse_failure_is_recovered_once None false recoverable []
                (B "unable to parse agent output: Final Answer:  42 ")
                [] (B "Final Answer:  42 ") eq_refl eq_refl) as [H1 H2].
  split; [exact H2|exact H1].
Defined.

(** C5 (as stated) fails: a parsing error that cannot be recovered is
    reported as a time-out, not as a malformed response, when the deadline of
    the context has passed. *)
Lemma unrecovered_parse_failure_after_deadline :
  (executeWithStreaming (Some DeadlineExceeded) false unparsable).1.2
  = ([], Some timeoutError)
  /\ timeoutError <> malformedResponseError
  /\ Contains (CleanAgentResponse (B "no idea")) finalAnswerMarker = false.
Proof. repeat split; try (vm_compute; reflexivity). discriminate. Qed.

(** C9: the code at the failing input.  In the streaming path a run whose
    deadline has passed ends with an "error" event that carries the generic
    message; the request/response path answers the same engine error with the
    time-out message. *)
Theorem streaming_timeout_gets_generic_message :
  (exists srv' session events,
     handleStreamChat defaultConfig emptyServer listRequest timedOut
     = Some (srv', session, events)
     /\ ctxs (cancelManager srv') !! 7 = Some DeadlineExceeded
     /\ last events
        = Some (event (B "error")
                  (B "I encountered an error processing your request. Please try again or contact support if the issue persists.")))
  /\ (exists srv' response,
        handleChat defaultConfig emptyServer listRequest someEnv
          (fun _ => ([], Some (B "context deadline exceeded")))
        = Some (srv', response)
        /\ Response response
           = B "I encountered an error processing your request. The request timed out. Please try a simpler request.")
  /\ getErrorMessage timeoutError
     = B "I encountered an error processing your request. Please try again or contact support if the issue persists.".
Proof.
  split; [|split].
  - do 3 eexists. split; [vm_compute; reflexivity|].
    split; vm_compute; reflexivity.
  - do 2 eexists. split; [vm_compute; reflexivity|]. vm_compute; reflexivity.
  - vm_compute; reflexivity.
Qed.

(** In the streaming path every failed run whose deadline has passed gets
    the generic message. *)
Lemma streaming_deadline_always_generic debug run e :
  err (runClosure (outcome run)) = Some e ->
  exists sent calls,
    executeWithStreaming (Some DeadlineExceeded) debug run
    = (sent, ([], Some timeoutError), calls)
    /\ getErrorMessage timeoutError
       = B "I encountered an error processing your request. Please try again or contact support if the issue persists.".
Proof.
  intros H. rewrite (executeWithStreaming_fails _ _ _ _ H).
  do 2 eexists. split; [reflexivity|]. vm_compute; reflexivity.
Qed.

(** C2 (as amended): a streaming run for which a stop request arrives while
    the engine runs, before any deadline.  Its context is cancelled, and how
    it ends is decided by the closure of [executeWithStreaming] alone.  When
    the closure ends with an error (the engine returns an error that is not a
    parsing failure from which an answer is recovered, or it panics, or the
    set-up fails), the run ends with a "stopped" event; it sends no "error"
    and no "response" event, and the store is left as it was after the user's
    message was appended.  When the closure ends without an error (the engine
    returns an answer, or a parsing failure that holds a final answer), the
    run ends with the "response" event and the answer is appended. *)
Theorem cancelled_failed_run_is_stopped cfg srv req inp pre post :
  let executionID := B "exec_" ++ decimal (now (env inp)) in
  let m1 := (GetOrCreateSession (env inp) (memoryStore srv) (SessionID req)).1 in
  let session := (GetOrCreateSession (env inp) (memoryStore srv) (SessionID req)).2 in
  let m2 := withHeap m1 (AddMessage (env inp) (heap m1) session
                                    (B "user") (Message req)) in
  ctxs (cancelManager srv) !! ctxHandle inp = None ->
  during inp = pre ++ Stop executionID :: post ->
  Forall (fun a => a <> Deadline) pre ->
  exists prompt srv' events,
    messageWithContext cfg m2 session (Message req) = Some prompt
    /\ handleStreamChat cfg srv req inp = Some (srv', session, events)
    /\ ctxs (cancelManager srv') !! ctxHandle inp = Some Canceled
    /\ match err (runClosure (outcome (engine inp prompt))) with
       | Some _ =>
           last events
           = Some (event (B "stopped") (B "Agent execution was stopped"))
           /\ Forall (fun ev => Type_ ev <> B "error"
                                /\ Type_ ev <> B "response") events
           /\ memoryStore srv' = m2
           /\ sessionMessages (memoryStore srv') session
              = sessionMessages m2 session
       | None =>
           last events
           = Some {| Type_ := B "response";
                     Content_ := result (runClosure (outcome (engine inp prompt)));
                     Complete := true; Debug := false |}
           /\ memoryStore srv'
              = withHeap m2
                  (AddMessage (env inp) (heap m2) session (B "assistant")
                     (result (runClosure (outcome (engine inp prompt)))))
       end.
Proof.
  intros executionID m1 session m2 Hnew Hduring Hpre.
  unfold handleStreamChat.
  destruct (GetOrCreateSession (env inp) (memoryStore srv) (SessionID req))
    as [m1' session'] eqn:EG.
  subst m1 session m2. cbn [fst snd].
  destruct (messageWithContext_total cfg
              (withHeap m1' (AddMessage (env inp) (heap m1') session'
                                        (B "user") (Message req)))
              session' (Message req)) as [prompt Hprompt].
  exists prompt. rewrite Hprompt. rewrite Hduring.
  fold executionID.
  assert (ctxs (fold_left (applyAction (ctxHandle inp))
                  (pre ++ Stop executionID :: post)
                  (AddExecution (cancelManager srv) executionID (ctxHandle inp)))
            !! ctxHandle inp = Some Canceled) as Hc.
  { apply fold_stop_cancels; [|assumption].
    left. cbn. split; [apply lookup_insert_eq|assumption]. }
  rewrite Hc.
  assert (forall st, ctxs st !! ctxHandle inp = Some Canceled ->
            ctxs (deferred executionID (ctxHandle inp) st) !! ctxHandle inp
            = Some Canceled) as Hdef.
  { intros st Hst. unfold deferred, invoke, RemoveExecution. cbn [ctxs].
    by rewrite settle_lookup, Hst. }
  destruct (err (runClosure (outcome (engine inp prompt)))) as [e|] eqn:He.
  - rewrite (executeWithStreaming_fails _ _ _ _ He).
    do 2 eexists. split; [reflexivity|]. split; [reflexivity|].
    split; [by apply Hdef|].
    split; [|split; [|split; reflexivity]].
    + rewrite !app_assoc. apply last_snoc.
    + assert (forall l, Forall (fun ev => Type_ ev <> B "error"
                                          /\ Type_ ev <> B "response")
                            (map debugEvent l)) as Hdebug.
      { intros l. apply Forall_forall. intros ev [c [-> _]]%list_elem_of_fmap.
        split; discriminate. }
      repeat apply Forall_app_2;
        try (destruct (DebugMode cfg); [apply Hdebug|constructor]);
        repeat (constructor; [split; discriminate|]); constructor.
  - unfold executeWithStreaming. rewrite He.
    do 2 eexists. split; [reflexivity|]. split; [reflexivity|].
    split; [by apply Hdef|].
    split; [|reflexivity]. rewrite !app_assoc. apply last_snoc.
Qed.

Lemma cancelled_failed_run_is_stopped_witness :
  exists srv' events,
    handleStreamChat defaultConfig emptyServer listRequest stoppedAndFailed
    = Some (srv', 1%positive, events)
    /\ last events = Some (event (B "stopped") (B "Agent execution was stopped")).
Proof.
  destruct (cancelled_failed_run_is_stopped defaultConfig emptyServer
              listRequest stoppedAndFailed [] [])
    as (prompt & srv' & events & _ & H1 & _ & H2).
  - vm_compute; reflexivity.
  - vm_compute; reflexivity.
  - constructor.
  - change (err (runClosure (outcome (engine stoppedAndFailed prompt))))
      with (Some (B "context canceled")) in H2.
    destruct H2 as [H2 _]. exists srv', events. split; [exact H1|exact H2].
Defined.

(** C2 (as stated) fails: the stop request finds the run and cancels its
    context, yet the engine returns an answer; the run then ends with a
    "response" event and the answer is appended to the session. *)
Lemma cancelled_run_can_still_answer :
  exists srv' session events,
    handleStreamChat defaultConfig emptyServer listRequest stoppedButFinished
    = Some (srv', session, events)
    /\ ctxs (cancelManager srv') !! 7 = Some Canceled
    /\ invoked (cancelManager srv') = [7; 7]
    /\ map Type_ events
       = [B "session"; B "execution_started"; B "thinking"; B "thinking";
          B "thinking"; B "response"]
    /\ map Role (sessionMessages (memoryStore srv') session)
       = [B "user"; B "assistant"].
Proof.
  do 3 eexists. split; [vm_compute; reflexivity|].
  repeat split; vm_compute; reflexivity.
Qed.

End OrchestratorClaims.

(** ** More facts about the session store *)

Module MemoryExtras.

Import Memory MemoryMore.

Lemma keysMatchIDs_wf m : keysMatchIDs m -> wf m.
Proof. intros H id p Hp. destruct (H _ _ Hp) as (s & Hs & _). eauto. Qed.

Lemma keysMatchIDs_noShared m : keysMatchIDs m -> noSharedSession m.
Proof.
  intros H id1 id2 p H1 H2.
  destruct (H _ _ H1) as (s1 & Hs1 & <-).
  destruct (H _ _ H2) as (s2 & Hs2 & <-). congruence.
Qed.

(** A change of the session objects that keeps every object in place and
    its [ID] as it is keeps the keys in step with the identifiers. *)
Lemma keysMatchIDs_alter f m p :
  (forall s, ID (f s) = ID s) ->
  keysMatchIDs m -> keysMatchIDs (withHeap m (alter f p (heap m))).
Proof.
  intros Hf H id q Hq. cbn in *. destruct (H _ _ Hq) as (s & Hs & Hid).
  rewrite lookup_alter. case_decide; subst; rewrite Hs; cbn; [|eauto].
  eexists; split; [reflexivity|]. by rewrite Hf.
Qed.

Lemma generateSessionID_nonempty e : generateSessionID e <> [].
Proof. unfold generateSessionID. by destruct (randRead e). Qed.

Lemma isEmpty_spec (s : bytes) : isEmpty s = true <-> s = [].
Proof. by destruct s. Qed.

Lemma keysMatchIDs_GetOrCreateSession e m id :
  keysMatchIDs m -> keysMatchIDs (GetOrCreateSession e m id).1.
Proof.
  intros H. unfold GetOrCreateSession.
  destruct (sessions m !! _) as [q|] eqn:E; cbn.
  - by apply (keysMatchIDs_alter (touch (now e)) m q).
  - intros id' p'. cbn. rewrite lookup_insert. case_decide.
    + intros [= <-]. rewrite lookup_insert_eq. eauto.
    + intros Hp. destruct (H _ _ Hp) as (s & Hs & Hid).
      rewrite lookup_insert_ne; [eauto|].
      intros <-. pose proof (is_fresh (dom (heap m))) as Hf.
      apply Hf, elem_of_dom. eauto.
Qed.

Lemma keysMatchIDs_applyOp m op : keysMatchIDs m -> keysMatchIDs (applyOp m op).
Proof.
  intros H. destruct op as [e id|e id|id|e p role content|e p|maxAge t]; cbn.
  - by apply keysMatchIDs_GetOrCreateSession.
  - unfold GetSession. destruct (sessions m !! id) as [q|] eqn:E; cbn; [|done].
    by apply (keysMatchIDs_alter (touch (now e)) m q).
  - unfold DeleteSession. destruct (sessions m !! id) as [q|] eqn:E; cbn; [|done].
    intros id' p'. cbn. rewrite lookup_delete. case_decide; [done|]. apply H.
  - by apply keysMatchIDs_alter.
  - by apply keysMatchIDs_alter.
  - intros id' p'. cbn. rewrite map_lookup_filter_Some. intros [Hp _]. by apply H.
Qed.

Lemma noEmptyKey_applyOp m op :
  sessions m !! [] = None -> sessions (applyOp m op) !! [] = None.
Proof.
  intros H. destruct op as [e id|e id|id|e p role content|e p|maxAge t]; cbn;
    try assumption.
  - unfold GetOrCreateSession.
    destruct (sessions m !! (if isEmpty id then _ else _)) as [q|] eqn:E; cbn;
      [assumption|].
    rewrite lookup_insert_ne; [assumption|].
    destruct id; cbn; [apply generateSessionID_nonempty|discriminate].
  - unfold GetSession. by destruct (sessions m !! id).
  - unfold DeleteSession. destruct (sessions m !! id) as [q|] eqn:E; cbn; [|done].
    rewrite lookup_delete. by case_decide.
  - rewrite map_lookup_filter_None. by left.
Qed.

(** X1: in every store reached from [NewMemoryStore] by the operations of
    the store and of its sessions, each stored identifier leads to an
    existing session that carries this identifier, no two identifiers share
    a session, and nothing is stored under the empty identifier. *)
Theorem reachable_store_keys_are_session_ids (ops : list Op) :
  let m := fold_left applyOp ops NewMemoryStore in
  keysMatchIDs m /\ noSharedSession m /\ sessions m !! [] = None.
Proof.
  cbv zeta.
  assert (keysMatchIDs NewMemoryStore /\ sessions NewMemoryStore !! [] = None)
    as H by (split; [intros id p Hp; cbn in Hp; by rewrite lookup_empty in Hp|done]).
  revert H. generalize NewMemoryStore as m.
  induction ops as [|op ops IH]; intros m [H1 H2]; cbn.
  - eauto using keysMatchIDs_noShared.
  - apply IH. split; [by apply keysMatchIDs_applyOp|by apply noEmptyKey_applyOp].
Qed.

Lemma AddMessages_snoc h p calls call :
  AddMessages h p (calls ++ [call])
  = AddMessage call.1.1 (AddMessages h p calls) p call.1.2 call.2.
Proof.
  unfold AddMessages. rewrite fold_left_app. cbn. by destruct call as [[e r] c].
Qed.

(** X2: a series of [AddMessage] calls on a session appends the messages in
    the order of the calls, each with the time of its call, after the
    messages already there; the identifier and the creation time stay, the
    last call's time becomes the time of the last activity, and no other
    session changes. *)
Theorem added_messages_keep_order (h : gmap ptr ChatSession) (p : ptr)
    (s : ChatSession) (calls : list (Env * bytes * bytes)) :
  h !! p = Some s ->
  AddMessages h p calls !! p
  = Some {| ID := ID s;
            Messages := Messages s ++ map messageOf calls;
            Created := Created s;
            Updated := default (Updated s) (last (map (fun c => now c.1.1) calls)) |}
  /\ forall q, q <> p -> AddMessages h p calls !! q = h !! q.
Proof.
  intros Hp. induction calls as [|call calls IH] using rev_ind.
  - cbn. rewrite app_nil_r. split; [|done]. rewrite Hp. by destruct s.
  - destruct IH as [IH1 IH2]. rewrite AddMessages_snoc. unfold AddMessage. split.
    + rewrite lookup_alter_eq, IH1, !map_app. cbn [map].
      rewrite last_snoc, app_assoc. reflexivity.
    + intros q Hq. rewrite lookup_alter_ne by done. by apply IH2.
Qed.

Lemma added_messages_keep_order_witness :
  AddMessages (heap oneSession) 1%positive MoreExamples.threeCalls !! 1%positive
  = Some {| ID := B "s";
            Messages := Messages twoMessages ++ map messageOf MoreExamples.threeCalls;
            Created := 0%Z;
            Updated := 1700000500%Z |}
  /\ forall q, q <> 1%positive ->
       AddMessages (heap oneSession) 1%positive MoreExamples.threeCalls !! q
       = heap oneSession !! q.
Proof.
  apply (added_messages_keep_order (heap oneSession) 1%positive twoMessages
           MoreExamples.threeCalls).
  vm_compute; reflexivity.
Defined.

(** X3: for a limit that is not negative, the rendered history is the
    empty string exactly when the session holds no message or the limit is
    0; in every other case it opens with the header line. *)
Theorem context_is_empty_only_without_messages (s : ChatSession) (limit : Z) :
  (0 <= limit)%Z ->
  (GetConversationContext s limit = Some [] <-> Messages s = [] \/ limit = 0%Z)
  /\ exists rest,
       GetConversationContext s limit = Some []
       \/ GetConversationContext s limit = Some (contextHeader ++ rest).
Proof.
  intros Hl. unfold GetConversationContext, GetRecentMessages. cbv zeta.
  destruct (Z.leb_spec (Z.of_nat (length (Messages s))) limit) as [Hle|Hgt].
  - destruct (Messages s) as [|msg l] eqn:E.
    + split; [split; eauto|]. exists []. by left.
    + split.
      * split; [discriminate|]. intros [? | ->]; [discriminate|].
        cbn [length] in Hle. lia.
      * eexists. right. reflexivity.
  - replace ((0 <=? _) && (_ <=? _))%Z with true
      by (symmetry; apply andb_true_iff; split; apply Z.leb_le; lia).
    destruct (drop _ (Messages s)) as [|msg l] eqn:E.
    + split; [|exists []; by left]. split; [intros _|done].
      apply (f_equal length) in E. rewrite length_drop in E. cbn in E.
      right. lia.
    + split; [|eexists; right; reflexivity].
      split; [discriminate|]. intros [H| ->].
      * rewrite H in Hgt. cbn in Hgt. lia.
      * rewrite Z.sub_0_r, Nat2Z.id, drop_all in E. discriminate.
Qed.

Lemma context_is_empty_only_without_messages_witness :
  (GetConversationContext twoMessages 0%Z = Some []
   <-> Messages twoMessages = [] \/ 0%Z = 0%Z)
  /\ exists rest,
       GetConversationContext twoMessages 0%Z = Some []
       \/ GetConversationContext twoMessages 0%Z = Some (contextHeader ++ rest).
Proof. apply (context_is_empty_only_without_messages twoMessages 0%Z). lia. Defined.

(** X4: one round of the clean-up keeps exactly the sessions whose last
    activity lies at most [maxAge] back (a session idle for exactly [maxAge]
    stays), and leaves the session objects alone. *)
Theorem cleanup_evicts_exactly_expired (maxAge : Z) (t : Time) (m : Store)
    (id : bytes) (p : ptr) :
  wf m ->
  (sessions (cleanupRound maxAge t m) !! id = Some p
   <-> exists s, sessions m !! id = Some p /\ heap m !! p = Some s
                 /\ (t - Updated s <= maxAge)%Z)
  /\ heap (cleanupRound maxAge t m) = heap m.
Proof.
  intros Hwf. split; [|reflexivity]. cbn. rewrite map_lookup_filter_Some. cbn.
  unfold expired. split.
  - intros [Hp He]. destruct (Hwf _ _ Hp) as [s Hs]. rewrite Hs in He.
    exists s. repeat split; try assumption. apply Z.ltb_ge in He. lia.
  - intros (s & Hp & Hs & Hle). split; [assumption|]. rewrite Hs.
    apply Z.ltb_ge. lia.
Qed.

Lemma cleanup_evicts_exactly_expired_witness :
  (sessions (cleanupRound 10%Z 10%Z oneSession) !! B "s" = Some 1%positive
   <-> exists s, sessions oneSession !! B "s" = Some 1%positive
                 /\ heap oneSession !! 1%positive = Some s
                 /\ (10 - Updated s <= 10)%Z)
  /\ heap (cleanupRound 10%Z 10%Z oneSession) = heap oneSession.
Proof.
  apply (cleanup_evicts_exactly_expired 10%Z 10%Z oneSession (B "s") 1%positive).
  intros id p. unfold oneSession. cbn.
  intros [<- <-]%lookup_singleton_Some. vm_compute. eauto.
Defined.

(** X5: a session that [GetSession] has just handed out is kept by every
    clean-up round that runs no more than [maxAge] later. *)
Theorem touched_session_survives_cleanup (e : Env) (m : Store) (id : bytes)
    (p : ptr) (maxAge : Z) (t : Time) :
  (GetSession e m id).2 = Some p ->
  (t - now e <= maxAge)%Z ->
  sessions (cleanupRound maxAge t (GetSession e m id).1) !! id = Some p.
Proof.
  unfold GetSession. destruct (sessions m !! id) as [q|] eqn:E; [|discriminate].
  cbn. intros [= <-] Ht. rewrite map_lookup_filter_Some. split; [assumption|].
  cbn. unfold expired. rewrite lookup_alter_eq.
  destruct (heap m !! q); cbn; [|reflexivity]. apply Z.ltb_ge. lia.
Qed.

Lemma touched_session_survives_cleanup_witness :
  sessions (cleanupRound 100%Z 1700000050%Z
              (GetSession someEnv oneSession (B "s")).1) !! B "s"
  = Some 1%positive.
Proof.
  apply (touched_session_survives_cleanup someEnv oneSession (B "s") 1%positive
           100%Z 1700000050%Z); [vm_compute; reflexivity|cbn; lia].
Defined.

Lemma hexDecode_byte (c : ascii) :
  ascii_of_nat (hexValue (hexDigit (nat_of_ascii c / 16)) * 16
                + hexValue (hexDigit (nat_of_ascii c mod 16))) = c.
Proof.
  destruct c as [[] [] [] [] [] [] [] []]; vm_compute; reflexivity.
Qed.

Lemma isHexDigit_byte (c : ascii) :
  isHexDigit (hexDigit (nat_of_ascii c / 16)) = true
  /\ isHexDigit (hexDigit (nat_of_ascii c mod 16)) = true.
Proof.
  destruct c as [[] [] [] [] [] [] [] []]; split; vm_compute; reflexivity.
Qed.

Lemma hexDecode_hexEncode bs : hexDecode (hexEncode bs) = bs.
Proof.
  induction bs as [|c bs IH]; [reflexivity|].
  change (hexEncode (c :: bs))
    with (hexDigit (nat_of_ascii c / 16) :: hexDigit (nat_of_ascii c mod 16)
            :: hexEncode bs).
  cbn [hexDecode]. by rewrite hexDecode_byte, IH.
Qed.

(** X6: when the random source delivers, the identifier that
    [generateSessionID] makes is [session_] followed by two lower-case
    hexadecimal digits for each random byte, from which the bytes can be
    read back: different random bytes never give the same identifier. *)
Theorem session_id_spells_random_bytes (e : Env) (random : bytes) :
  randRead e = Some random ->
  length (generateSessionID e) = 8 + 2 * length random
  /\ take 8 (generateSessionID e) = B "session_"
  /\ forallb isHexDigit (drop 8 (generateSessionID e)) = true
  /\ hexDecode (drop 8 (generateSessionID e)) = random.
Proof.
  intros H. unfold generateSessionID. rewrite H.
  change (drop 8 (B "session_" ++ hexEncode random)) with (hexEncode random).
  change (take 8 (B "session_" ++ hexEncode random)) with (B "session_").
  rewrite length_app, hexDecode_hexEncode. clear H. repeat split.
  - change (length (B "session_")) with 8. f_equal.
    induction random as [|c bs IH]; [reflexivity|].
    change (hexEncode (c :: bs))
      with (hexDigit (nat_of_ascii c / 16) :: hexDigit (nat_of_ascii c mod 16)
              :: hexEncode bs).
    cbn [length]. rewrite IH. lia.
  - induction random as [|c bs IH]; [reflexivity|].
    change (hexEncode (c :: bs))
      with (hexDigit (nat_of_ascii c / 16) :: hexDigit (nat_of_ascii c mod 16)
              :: hexEncode bs).
    cbn [forallb]. destruct (isHexDigit_byte c) as [-> ->]. exact IH.
Qed.

Lemma session_id_spells_random_bytes_witness :
  length (generateSessionID someEnv) = 8 + 2 * length zeroBytes16
  /\ take 8 (generateSessionID someEnv) = B "session_"
  /\ forallb isHexDigit (drop 8 (generateSessionID someEnv)) = true
  /\ hexDecode (drop 8 (generateSessionID someEnv)) = zeroBytes16.
Proof. apply (session_id_spells_random_bytes someEnv zeroBytes16). reflexivity. Defined.

Lemma sum_list_Permutation (l1 l2 : list nat) :
  l1 ≡ₚ l2 -> sum_list l1 = sum_list l2.
Proof. induction 1; cbn; lia. Qed.

Lemma sum_list_ext {A} (f g : A -> nat) (l : list A) :
  Forall (fun x => f x = g x) l -> sum_list (f <$> l) = sum_list (g <$> l).
Proof. induction 1 as [|x l Hx _ IH]; cbn; [reflexivity|]. by rewrite Hx, IH. Qed.

(** X7: in a store whose keys are the identifiers of its sessions, a message
    added to a stored session raises the total of messages that
    [GetSessionStats] reports by exactly one and leaves the number of
    sessions as it is. *)
Theorem stats_count_each_added_message (e : Env) (m : Store) (key : bytes)
    (p : ptr) (role content : bytes) :
  keysMatchIDs m ->
  sessions m !! key = Some p ->
  GetSessionStats (withHeap m (AddMessage e (heap m) p role content))
  = ((GetSessionStats m).1, S (GetSessionStats m).2).
Proof.
  intros Hk Hp. unfold GetSessionStats. cbn [fst snd withHeap sessions heap].
  f_equal.
  pose proof (map_to_list_delete (sessions m) key p Hp) as Hperm.
  rewrite <- (sum_list_Permutation _ _
               (fmap_Permutation _ _ _ (fmap_Permutation snd _ _ Hperm))).
  rewrite <- (sum_list_Permutation _ _
               (fmap_Permutation _ _ _ (fmap_Permutation snd _ _ Hperm))).
  cbn [fmap list_fmap snd sum_list sum_list_with].
  assert (messageCount (AddMessage e (heap m) p role content) p
          = S (messageCount (heap m) p)) as ->.
  { unfold messageCount, AddMessage. rewrite lookup_alter_eq.
    destruct (Hk _ _ Hp) as (s & -> & _). cbn. rewrite length_app. cbn. lia. }
  cbn. f_equal. f_equal. apply sum_list_ext.
  apply Forall_forall. intros q Hq.
  apply list_elem_of_fmap in Hq as ([id' q'] & -> & Hq). cbn.
  apply elem_of_map_to_list in Hq.
  apply lookup_delete_Some in Hq as [Hne Hq].
  unfold messageCount, AddMessage. rewrite lookup_alter_ne; [reflexivity|].
  intros <-. apply Hne. symmetry.
  exact (keysMatchIDs_noShared m Hk _ _ _ Hq Hp).
Qed.

Lemma oneSession_keysMatchIDs : keysMatchIDs oneSession.
Proof.
  intros id p. unfold oneSession. cbn.
  intros [<- <-]%lookup_singleton_Some. exists twoMessages. by split.
Qed.

Lemma stats_count_each_added_message_witness :
  GetSessionStats (withHeap oneSession
                     (AddMessage someEnv (heap oneSession) 1%positive
                                 (B "user") (B "again")))
  = ((GetSessionStats oneSession).1, S (GetSessionStats oneSession).2).
Proof.
  apply (stats_count_each_added_message someEnv oneSession (B "s") 1%positive);
    [exact oneSession_keysMatchIDs|vm_compute; reflexivity].
Defined.

End MemoryExtras.

(** ** More facts about the execution registry *)

Module CancelExtras.

Import Cancel.

Lemma elem_of_GetActiveExecutions st executionID :
  (executionID ∈ GetActiveExecutions st)
  <-> is_Some (executions st !! executionID).
Proof.
  unfold GetActiveExecutions. rewrite list_elem_of_fmap. split.
  - intros ([id h] & -> & H). apply elem_of_map_to_list in H. eauto.
  - intros [h H]. exists (executionID, h). split; [reflexivity|].
    by apply elem_of_map_to_list.
Qed.

(** X8: [GetActiveExecutions] lists every registered identifier once and no
    other; an identifier is on the list after [AddExecution], and off it
    after [RemoveExecution] and after [CancelExecution]. *)
Theorem active_executions_are_the_registered (st : State)
    (executionID : bytes) (cancel : handle) :
  NoDup (GetActiveExecutions st)
  /\ ((executionID ∈ GetActiveExecutions st)
      <-> is_Some (executions st !! executionID))
  /\ (executionID ∈ GetActiveExecutions (AddExecution st executionID cancel))
  /\ (executionID ∉ GetActiveExecutions (RemoveExecution st executionID))
  /\ (executionID ∉ GetActiveExecutions (CancelExecution st executionID).1).
Proof.
  split; [apply NoDup_fst_map_to_list|].
  split; [apply elem_of_GetActiveExecutions|].
  rewrite !elem_of_GetActiveExecutions. repeat split.
  - cbn. rewrite lookup_insert_eq. eauto.
  - cbn. rewrite lookup_delete_eq. by intros [? ?].
  - unfold CancelExecution.
    destruct (executions st !! executionID) as [h|] eqn:E; cbn.
    + rewrite lookup_delete_eq. by intros [? ?].
    + rewrite E. by intros [? ?].
Qed.

(** X9: registering an identifier that is still registered replaces its
    trigger without a trace: a later [CancelExecution] invokes the second
    trigger only, and the context of the first run, no longer reachable
    through the registry, stays as it was. *)
Theorem second_registration_replaces_first (st : State) (executionID : bytes)
    (first second : handle) :
  first <> second ->
  let st2 := AddExecution (AddExecution st executionID first) executionID second in
  (CancelExecution st2 executionID).2 = true
  /\ invoked (CancelExecution st2 executionID).1 = invoked st ++ [second]
  /\ ctxs (CancelExecution st2 executionID).1 !! first = ctxs st !! first
  /\ executions (CancelExecution st2 executionID).1 !! executionID = None.
Proof.
  intros Hne. cbv zeta. unfold CancelExecution. cbn.
  rewrite lookup_insert_eq. cbn. repeat split.
  - unfold settle. destruct (ctxs st !! second); [reflexivity|].
    by rewrite lookup_insert_ne.
  - by rewrite lookup_delete_eq.
Qed.

Lemma second_registration_replaces_first_witness :
  let st := {| executions := ∅; ctxs := ∅; invoked := [] |} in
  let st2 := AddExecution (AddExecution st (B "exec_1") 1) (B "exec_1") 2 in
  (CancelExecution st2 (B "exec_1")).2 = true
  /\ invoked (CancelExecution st2 (B "exec_1")).1 = invoked st ++ [2]
  /\ ctxs (CancelExecution st2 (B "exec_1")).1 !! 1 = ctxs st !! 1
  /\ executions (CancelExecution st2 (B "exec_1")).1 !! B "exec_1" = None.
Proof.
  apply (second_registration_replaces_first
           {| executions := ∅; ctxs := ∅; invoked := [] |} (B "exec_1") 1 2).
  lia.
Defined.

(** X10: [CancelExecution] touches one run only: every other identifier
    stays registered with its trigger, and every context but the one of the
    cancelled run keeps its state. *)
Theorem cancel_leaves_other_runs (st : State) (executionID other : bytes)
    (h : handle) :
  other <> executionID ->
  executions st !! executionID <> Some h ->
  executions (CancelExecution st executionID).1 !! other = executions st !! other
  /\ ctxs (CancelExecution st executionID).1 !! h = ctxs st !! h.
Proof.
  intros Hne Hh. unfold CancelExecution.
  destruct (executions st !! executionID) as [cancel|] eqn:E; cbn; [|done].
  split; [by rewrite lookup_delete_ne|].
  unfold settle. destruct (ctxs st !! cancel); [reflexivity|].
  rewrite lookup_insert_ne; [reflexivity|]. congruence.
Qed.

Lemma cancel_leaves_other_runs_witness :
  let st := {| executions := {[ B "a" := 1; B "b" := 2 ]}; ctxs := ∅;
               invoked := [] |} in
  executions (CancelExecution st (B "a")).1 !! B "b" = executions st !! B "b"
  /\ ctxs (CancelExecution st (B "a")).1 !! 2 = ctxs st !! 2.
Proof.
  apply (cancel_leaves_other_runs
           {| executions := {[ B "a" := 1; B "b" := 2 ]}; ctxs := ∅;
              invoked := [] |} (B "a") (B "b") 2).
  - discriminate.
  - vm_compute. discriminate.
Defined.

End CancelExtras.

(** ** More facts about the sanitizer and the wrapper of the model *)

Module SanitizerExtras.

Import SanitizerFacts SanitizerClaims.

Lemma hasAgentFormat_wrapPrefix x : hasAgentFormat (wrapPrefix ++ x) = true.
Proof.
  unfold hasAgentFormat.
  assert (Contains (wrapPrefix ++ x) (B "Thought:") = true) as ->; [|reflexivity].
  unfold wrapPrefix. rewrite <- !app_assoc.
  change (B "Thought: I can provide a direct answer to this question."
            ++ [NL] ++ B "Final Answer: " ++ x)
    with (B "Thought:"
            ++ (B " I can provide a direct answer to this question."
                  ++ [NL] ++ B "Final Answer: " ++ x)).
  generalize (B " I can provide a direct answer to this question."
                ++ [NL] ++ B "Final Answer: " ++ x).
  intros y. reflexivity.
Qed.

Lemma fallbackMessage_plain : hasAgentFormat fallbackMessage = false.
Proof. vm_compute. reflexivity. Qed.

Lemma cleanAgentResponse_nonempty response : cleanAgentResponse response <> [].
Proof.
  unfold cleanAgentResponse. cbv zeta.
  match goal with
  | |- (if isEmpty ?x then _ else _) <> [] => destruct x
  end; discriminate.
Qed.

Lemma fallbackMessage_long : 50 < length fallbackMessage.
Proof. vm_compute. lia. Qed.

Lemma fallbackMessage_no_refusal : looksLikeRefusal fallbackMessage = false.
Proof. vm_compute. reflexivity. Qed.

(** X11: what [cleanAgentResponse] returns, from the text that is left of
    the response after the removals, the trimming and the repairs.  The
    result is never the empty string.  It is the fall-back message exactly
    when nothing is left.  When something is left, the result is this text
    itself if it holds a structural keyword; else this text behind the added
    prefix, which then holds a keyword, if it is longer than 50 bytes and
    its lower-case form does not contain "i don't"; else this text
    itself. *)
Theorem sanitizer_output_classes (response : bytes) :
  let cleaned := normalize response in
  let out := cleanAgentResponse response in
  out <> []
  /\ (out = fallbackMessage <-> cleaned = [])
  /\ ((cleaned = [] /\ out = fallbackMessage)
      \/ (cleaned <> [] /\ hasAgentFormat cleaned = true /\ out = cleaned)
      \/ (cleaned <> [] /\ hasAgentFormat cleaned = false
          /\ 50 < length cleaned /\ looksLikeRefusal cleaned = false
          /\ out = wrapPrefix ++ cleaned /\ hasAgentFormat out = true)
      \/ (cleaned <> [] /\ hasAgentFormat cleaned = false
          /\ (length cleaned <= 50 \/ looksLikeRefusal cleaned = true)
          /\ out = cleaned)).
Proof.
  cbv zeta.
  assert ((normalize response = [] /\ cleanAgentResponse response = fallbackMessage)
      \/ (normalize response <> [] /\ hasAgentFormat (normalize response) = true
          /\ cleanAgentResponse response = normalize response)
      \/ (normalize response <> [] /\ hasAgentFormat (normalize response) = false
          /\ 50 < length (normalize response)
          /\ looksLikeRefusal (normalize response) = false
          /\ cleanAgentResponse response = wrapPrefix ++ normalize response
          /\ hasAgentFormat (cleanAgentResponse response) = true)
      \/ (normalize response <> [] /\ hasAgentFormat (normalize response) = false
          /\ (length (normalize response) <= 50
              \/ looksLikeRefusal (normalize response) = true)
          /\ cleanAgentResponse response = normalize response)) as Hcases.
  { unfold cleanAgentResponse.
    destruct (hasAgentFormat (normalize response)) eqn:Hf.
    - cbn [negb andb]. rewrite (hasAgentFormat_not_empty _ Hf).
      right. left. split; [intros E; rewrite E in Hf; discriminate|by split].
    - destruct (normalize response) as [|c t] eqn:E.
      + cbn [negb isEmpty andb]. left. by split.
      + cbn [negb isEmpty andb].
        destruct (Nat.ltb_spec 50 (length (c :: t))) as [Hl|Hl];
          [destruct (looksLikeRefusal (c :: t)) eqn:Hr|]; cbn [negb andb].
        * right. right. right. split; [discriminate|]. eauto.
        * right. right. left. split; [discriminate|].
          split; [reflexivity|]. split; [assumption|]. split; [reflexivity|].
          split; [reflexivity|apply hasAgentFormat_wrapPrefix].
        * right. right. right. split; [discriminate|]. eauto. }
  split; [apply cleanAgentResponse_nonempty|]. split; [|exact Hcases].
  split.
  - intros Hout.
    destruct Hcases as [[H _]|[(_ & Hf & H)|[(_ & _ & _ & _ & H & _)|(_ & Hf & Hs & H)]]].
    + exact H.
    + rewrite H in Hout. rewrite Hout, fallbackMessage_plain in Hf. discriminate.
    + rewrite H in Hout. discriminate.
    + rewrite H in Hout. rewrite Hout in Hs.
      pose proof fallbackMessage_long. rewrite fallbackMessage_no_refusal in Hs.
      destruct Hs; [lia|discriminate].
  - intros Hc.
    destruct Hcases as [[_ H]|[(Hne & _)|[(Hne & _)|(Hne & _)]]];
      [exact H|contradiction..].
Qed.

Lemma spaces_avoid_LT ws : forallb isSpaceRE ws = true -> noByte LT ws = true.
Proof.
  unfold noByte. induction ws as [|c ws IH]; [reflexivity|]. cbn [forallb].
  intros [Hc Hw]%andb_true_iff. rewrite (IH Hw), andb_true_r.
  revert Hc. unfold isSpaceRE. rewrite !orb_true_iff, !Ascii.eqb_eq.
  intros [[[[->| ->]| ->]| ->]| ->]; reflexivity.
Qed.

Lemma TrimSpace_spaces ws : forallb isSpaceRE ws = true -> TrimSpace ws = [].
Proof.
  intros H. unfold TrimSpace.
  assert (TrimLeftSpace ws = []) as ->; [|reflexivity].
  induction ws as [|c ws IH]; [reflexivity|].
  cbn [forallb] in H. apply andb_true_iff in H as [Hc Hw].
  rewrite OrchestratorFacts.TrimLeftSpace_space by assumption. by apply IH.
Qed.

(** X13: a response that holds nothing but one block of hidden reasoning
    and white space around it is answered with the fall-back message. *)
Theorem hidden_reasoning_alone_gives_fallback (before body after : bytes) :
  forallb isSpaceRE before = true ->
  noCloseThink body = true ->
  forallb isSpaceRE after = true ->
  cleanAgentResponse (before ++ B "<think>" ++ body ++ B "</think>" ++ after)
  = fallbackMessage.
Proof.
  intros Hb Hbody Ha.
  pose proof (spaces_avoid_LT _ Hb) as Hb'.
  pose proof (spaces_avoid_LT _ Ha) as Ha'.
  assert (cleanAgentResponse (before ++ B "<think>" ++ body ++ B "</think>" ++ after)
          = cleanAgentResponse (before ++ after)) as ->.
  { apply cleanAgentResponse_strip_eq. f_equal.
    rewrite (stripThinkBlocks_plain before (B "<think>" ++ _)) by assumption.
    rewrite (stripThinkBlocks_plain before after) by assumption.
    by rewrite stripThinkBlocks_block. }
  unfold cleanAgentResponse, normalize.
  rewrite strip_plain by (rewrite noByte_app, Hb', Ha'; reflexivity).
  rewrite stripReasoning_plain by (rewrite noByte_app, Hb', Ha'; reflexivity).
  rewrite TrimSpace_spaces by (rewrite forallb_app, Hb, Ha; reflexivity).
  reflexivity.
Qed.

Lemma hidden_reasoning_alone_gives_fallback_witness :
  cleanAgentResponse (B " " ++ B "<think>" ++ B "let me see" ++ B "</think>" ++ [NL])
  = fallbackMessage.
Proof.
  apply (hidden_reasoning_alone_gives_fallback (B " ") (B "let me see") [NL]);
    vm_compute; reflexivity.
Defined.

End SanitizerExtras.

(** ** Facts about the wrapper of the model *)

Module WrapperExtras.

Import Orchestrator Wrapper.

Lemma truncateForLog_Some LogTruncateLength text :
  (0 <= LogTruncateLength)%Z ->
  exists out,
    truncateForLog LogTruncateLength text = Some out
    /\ length out <= Z.to_nat LogTruncateLength + 3.
Proof.
  intros Hn. unfold truncateForLog.
  destruct (Z.leb_spec (Z.of_nat (length text)) LogTruncateLength).
  - eexists. split; [reflexivity|lia].
  - destruct (Z.leb_spec 0 LogTruncateLength); [|lia].
    eexists. split; [reflexivity|]. rewrite length_app, length_take. cbn. lia.
Qed.

Lemma cleanLogged_Some LogTruncateLength original :
  (0 <= LogTruncateLength)%Z ->
  cleanLogged LogTruncateLength original = Some (cleanAgentResponse original).
Proof.
  intros Hn. unfold cleanLogged. destruct (_ =? _)%nat; [reflexivity|].
  by destruct (truncateForLog_Some LogTruncateLength original Hn) as (out & -> & _).
Qed.

(** X12: with a log length that is not negative, the wrapper never panics
    and hands the engine no empty answer.  When the wrapped model succeeds,
    [Call] returns the cleaned text, which is not empty, and
    [GenerateContent] returns as many choices as the model gave, each with
    its content cleaned and not empty; when the model fails, both pass its
    response and its error on as they are. *)
Theorem wrapper_never_returns_empty_content (LogTruncateLength : Z)
    (response : bytes) (choices : list bytes) (nilable : option (list bytes))
    (e : bytes) :
  (0 <= LogTruncateLength)%Z ->
  Call LogTruncateLength response None
  = Some (cleanAgentResponse response, None)
  /\ GenerateContent LogTruncateLength (Some choices) None
     = Some (Some (map cleanAgentResponse choices), None)
  /\ length (map cleanAgentResponse choices) = length choices
  /\ Forall (fun content => content <> [])
            (cleanAgentResponse response :: map cleanAgentResponse choices)
  /\ Call LogTruncateLength response (Some e) = Some (response, Some e)
  /\ GenerateContent LogTruncateLength nilable (Some e)
     = Some (nilable, Some e).
Proof.
  intros Hn. split; [|split; [|split; [|split; [|split; reflexivity]]]].
  - unfold Call. by rewrite cleanLogged_Some.
  - unfold GenerateContent.
    assert (mapM (cleanLogged LogTruncateLength) choices
            = Some (map cleanAgentResponse choices)) as ->; [|reflexivity].
    induction choices as [|c l IH]; [reflexivity|].
    cbn. rewrite cleanLogged_Some by assumption. cbn. by rewrite IH.
  - apply length_map.
  - constructor; [apply SanitizerExtras.cleanAgentResponse_nonempty|].
    apply Forall_forall. intros content [r [<- _]]%list_elem_of_In%in_map_iff.
    apply SanitizerExtras.cleanAgentResponse_nonempty.
Qed.

Lemma wrapper_never_returns_empty_content_witness :
  Call 500 plainProse None = Some (cleanAgentResponse plainProse, None)
  /\ GenerateContent 500 (Some [cleanTrace; []]) None
     = Some (Some (map cleanAgentResponse [cleanTrace; []]), None)
  /\ length (map cleanAgentResponse [cleanTrace; []]) = length [cleanTrace; []]
  /\ Forall (fun content => content <> [])
            (cleanAgentResponse plainProse
               :: map cleanAgentResponse [cleanTrace; []])
  /\ Call 500 plainProse (Some (B "down")) = Some (plainProse, Some (B "down"))
  /\ GenerateContent 500 None (Some (B "down")) = Some (None, Some (B "down")).
Proof.
  apply (wrapper_never_returns_empty_content 500 plainProse [cleanTrace; []]
           None (B "down")).
  lia.
Defined.

(** X14: [truncateForLog] with a length that is not negative returns a text
    of at most that many bytes plus the three of the ellipsis: the text
    itself when it is short enough, else its first bytes followed by
    [...]; truncating the result again changes nothing. *)
Theorem truncateForLog_bounds (LogTruncateLength : Z) (text : bytes) :
  (0 <= LogTruncateLength)%Z ->
  exists out,
    truncateForLog LogTruncateLength text = Some out
    /\ length out <= Z.to_nat LogTruncateLength + 3
    /\ (if (Z.of_nat (length text) <=? LogTruncateLength)%Z then out = text
        else out = take (Z.to_nat LogTruncateLength) text ++ B "...")
    /\ truncateForLog LogTruncateLength out = Some out.
Proof.
  intros Hn. unfold truncateForLog at 1.
  destruct (Z.leb_spec (Z.of_nat (length text)) LogTruncateLength) as [Hle|Hgt].
  - exists text. repeat split; [lia|]. unfold truncateForLog.
    destruct (Z.leb_spec (Z.of_nat (length text)) LogTruncateLength); [done|lia].
  - destruct (Z.leb_spec 0 LogTruncateLength); [|lia].
    eexists. split; [reflexivity|].
    assert (length (take (Z.to_nat LogTruncateLength) text)
            = Z.to_nat LogTruncateLength) as Htake
      by (rewrite length_take; lia).
    assert (length (take (Z.to_nat LogTruncateLength) text ++ B "...")
            = Z.to_nat LogTruncateLength + 3) as Hlen
      by (rewrite length_app, Htake; reflexivity).
    repeat split; [lia|]. unfold truncateForLog.
    destruct (Z.leb_spec
                (Z.of_nat (length (take (Z.to_nat LogTruncateLength) text
                                     ++ B "...")))
                LogTruncateLength); [lia|].
    destruct (Z.leb_spec 0 LogTruncateLength); [|lia].
    by rewrite take_app_length' by (symmetry; exact Htake).
Qed.

Lemma truncateForLog_bounds_witness :
  exists out,
    truncateForLog 5 (B "Thought: hm") = Some out
    /\ length out <= Z.to_nat 5 + 3
    /\ (if (Z.of_nat (length (B "Thought: hm")) <=? 5)%Z then out = B "Thought: hm"
        else out = take (Z.to_nat 5) (B "Thought: hm") ++ B "...")
    /\ truncateForLog 5 out = Some out.
Proof. apply (truncateForLog_bounds 5 (B "Thought: hm")). lia. Defined.

End WrapperExtras.

(** ** More facts about a chat turn *)

Module OrchestratorExtras.

Import Memory Cancel Orchestrator MemoryMore OrchestratorMore.
Import MemoryExtras OrchestratorFacts.

(** The session of a turn once the message of the user is added. *)
Lemma turn_start e m req :
  keysMatchIDs m ->
  let m1 := (GetOrCreateSession e m (SessionID req)).1 in
  let session := (GetOrCreateSession e m (SessionID req)).2 in
  let m2 := withHeap m1 (AddMessage e (heap m1) session (B "user") (Message req)) in
  sessions m2 !! requestedID e req = Some session
  /\ exists s2,
       heap m2 !! session = Some s2
       /\ ID s2 = requestedID e req
       /\ Messages s2 = messagesBefore m (requestedID e req) ++ [userMessage e req].
Proof.
  intros Hk. cbv zeta. unfold GetOrCreateSession, messagesBefore.
  fold (requestedID e req).
  destruct (sessions m !! requestedID e req) as [q|] eqn:E; cbn.
  - split; [assumption|]. destruct (Hk _ _ E) as (s & Hs & Hid).
    unfold AddMessage, sessionMessages.
    rewrite lookup_alter_eq, lookup_alter_eq, Hs. cbn. eauto.
  - rewrite lookup_insert_eq. split; [reflexivity|].
    unfold AddMessage. rewrite lookup_alter_eq, lookup_insert_eq. cbn. eauto.
Qed.

(** [handleStreamChat], taken apart. *)
Lemma handleStreamChat_shape cfg srv req inp :
  let m1 := (GetOrCreateSession (env inp) (memoryStore srv) (SessionID req)).1 in
  let session := (GetOrCreateSession (env inp) (memoryStore srv) (SessionID req)).2 in
  let m2 := withHeap m1 (AddMessage (env inp) (heap m1) session
                                    (B "user") (Message req)) in
  let c2 := registryAfterEngine srv inp in
  let ctxErr := ctxs c2 !! ctxHandle inp in
  exists prompt,
    messageWithContext cfg m2 session (Message req) = Some prompt
    /\ let out := (executeWithStreaming ctxErr (DebugMode cfg)
                     (engine inp prompt)).1 in
       handleStreamChat cfg srv req inp
       = Some ({| memoryStore :=
                    match out.2.2 with
                    | Some _ => m2
                    | None =>
                        withHeap m2 (AddMessage (env inp) (heap m2) session
                                                (B "assistant") out.2.1)
                    end;
                  cancelManager :=
                    deferred (executionIDAt (env inp)) (ctxHandle inp) c2 |},
               session,
               [event (B "session") (sessionID m2 session);
                event (B "execution_started") (executionIDAt (env inp));
                event (B "thinking") (B "Processing your request...")]
                 ++ out.1 ++ [closingEvent ctxErr out.2.1 out.2.2]).
Proof.
  cbv zeta. unfold handleStreamChat, registryAfterEngine, executionIDAt.
  destruct (GetOrCreateSession (env inp) (memoryStore srv) (SessionID req))
    as [m1 session]. cbn [fst snd].
  destruct (messageWithContext_total cfg
              (withHeap m1 (AddMessage (env inp) (heap m1) session
                                       (B "user") (Message req)))
              session (Message req)) as [prompt Hp].
  exists prompt. split; [assumption|]. rewrite Hp.
  destruct (executeWithStreaming _ _ _) as [[sent [result [e|]]] calls];
    cbn [fst snd closingEvent]; rewrite <- ?app_assoc; reflexivity.
Qed.

Lemma executeWithStreaming_incomplete ctxErr debug run :
  Forall (fun ev => Complete ev = false)
         (executeWithStreaming ctxErr debug run).1.1.
Proof.
  assert (Forall (fun ev => Complete ev = false)
                 (if debug then map debugEvent (callbackEvents run) else []))
    as Hd.
  { destruct debug; [|constructor]. apply Forall_forall.
    intros ev [c [<- _]]%list_elem_of_In%in_map_iff. reflexivity. }
  unfold executeWithStreaming.
  destruct (err (runClosure (outcome run))) as [e|]; cbn [fst snd].
  - destruct ctxErr as [[]|]; cbn [fst snd];
      (apply Forall_app_2; [repeat constructor|assumption]).
  - apply Forall_app_2; [repeat constructor|].
    apply Forall_app_2; [assumption|repeat constructor].
Qed.

(** X15: every streaming run ends with its execution deregistered and its
    context cancelled, whatever the engine did and whatever stop requests or
    deadline arrived meanwhile; the handler itself never panics. *)
Theorem streaming_run_always_deregisters (cfg : Config) (srv : Server)
    (req : ChatRequest) (inp : RunInputs) :
  exists srv' session events,
    handleStreamChat cfg srv req inp = Some (srv', session, events)
    /\ executions (cancelManager srv') !! executionIDAt (env inp) = None
    /\ (executionIDAt (env inp) ∉ GetActiveExecutions (cancelManager srv'))
    /\ is_Some (ctxs (cancelManager srv') !! ctxHandle inp)
    /\ last (invoked (cancelManager srv')) = Some (ctxHandle inp).
Proof.
  destruct (handleStreamChat_shape cfg srv req inp) as (prompt & _ & H).
  cbv zeta in H. do 3 eexists. split; [exact H|].
  unfold deferred, invoke, RemoveExecution.
  cbn [cancelManager executions ctxs invoked].
  repeat split.
  - apply lookup_delete_eq.
  - rewrite CancelExtras.elem_of_GetActiveExecutions.
    cbn [executions]. rewrite lookup_delete_eq. by intros [? ?].
  - rewrite settle_lookup.
    destruct (ctxs (registryAfterEngine srv inp) !! ctxHandle inp); [eauto|].
    rewrite decide_True by reflexivity. eauto.
  - apply last_snoc.
Qed.

Lemma executeWithStreaming_first ctxErr debug run :
  exists rest,
    (executeWithStreaming ctxErr debug run).1.1
    = thinking (B "Processing your request...") debug :: rest.
Proof.
  unfold executeWithStreaming.
  destruct (err (runClosure (outcome run))) as [e|]; [destruct ctxErr as [[]|]|];
    cbn [fst snd app]; eauto.
Qed.

(** X16: a streaming run opens with the same four events whatever happens
    later: the identifier of the session (the one asked for, or a generated
    one when none was given), the identifier of the execution, and the two
    "thinking" events; the session it uses is the one stored under the
    announced identifier. *)
Theorem streaming_run_opens_with_session_and_execution (cfg : Config)
    (srv : Server) (req : ChatRequest) (inp : RunInputs) :
  keysMatchIDs (memoryStore srv) ->
  exists srv' session rest,
    handleStreamChat cfg srv req inp
    = Some (srv', session,
            event (B "session") (requestedID (env inp) req)
              :: event (B "execution_started") (executionIDAt (env inp))
              :: event (B "thinking") (B "Processing your request...")
              :: thinking (B "Processing your request...") (DebugMode cfg)
              :: rest)
    /\ sessions (memoryStore srv') !! requestedID (env inp) req = Some session.
Proof.
  intros Hk.
  destruct (handleStreamChat_shape cfg srv req inp) as (prompt & _ & H).
  destruct (turn_start (env inp) (memoryStore srv) req Hk)
    as (Hs & s2 & Hs2 & Hid & _).
  cbv zeta in H, Hs, Hs2.
  destruct (executeWithStreaming_first
              (ctxs (registryAfterEngine srv inp) !! ctxHandle inp)
              (DebugMode cfg) (engine inp prompt)) as [rest Hr].
  rewrite Hr in H. unfold sessionID in H. rewrite Hs2, Hid in H.
  do 3 eexists. split; [exact H|]. cbn [memoryStore].
  destruct (_.2.2); exact Hs.
Qed.

Lemma streaming_run_opens_with_session_and_execution_witness :
  exists srv' session rest,
    handleStreamChat defaultConfig emptyServer listRequest MoreExamples.plainRun
    = Some (srv', session,
            event (B "session") (requestedID someEnv listRequest)
              :: event (B "execution_started") (executionIDAt someEnv)
              :: event (B "thinking") (B "Processing your request...")
              :: thinking (B "Processing your request...") false
              :: rest)
    /\ sessions (memoryStore srv') !! requestedID someEnv listRequest
       = Some session.
Proof.
  apply (streaming_run_opens_with_session_and_execution defaultConfig
           emptyServer listRequest MoreExamples.plainRun).
  intros id p Hp. cbn in Hp. by rewrite lookup_empty in Hp.
Defined.

(** X17: what a streaming run leaves in the session.  The message of the
    user is appended in every case; the answer is appended behind it exactly
    when the run ends with the "response" event, which is the only event
    marked complete and carries the stored answer; a run that ends with
    "error" or "stopped" stores no answer. *)
Theorem streaming_run_records_the_turn (cfg : Config) (srv : Server)
    (req : ChatRequest) (inp : RunInputs) :
  keysMatchIDs (memoryStore srv) ->
  exists srv' session earlier closing,
    handleStreamChat cfg srv req inp = Some (srv', session, earlier ++ [closing])
    /\ Forall (fun ev => Complete ev = false) earlier
    /\ sessionMessages (memoryStore srv') session
       = messagesBefore (memoryStore srv) (requestedID (env inp) req)
           ++ userMessage (env inp) req
           :: (if Complete closing
               then [assistantMessage (env inp) (Content_ closing)]
               else [])
    /\ (if Complete closing then Type_ closing = B "response"
        else Type_ closing = B "error" \/ Type_ closing = B "stopped").
Proof.
  intros Hk.
  destruct (handleStreamChat_shape cfg srv req inp) as (prompt & _ & H).
  destruct (turn_start (env inp) (memoryStore srv) req Hk)
    as (_ & s2 & Hs2 & _ & Hm).
  cbv zeta in H, Hs2.
  pose proof (executeWithStreaming_incomplete
                (ctxs (registryAfterEngine srv inp) !! ctxHandle inp)
                (DebugMode cfg) (engine inp prompt)) as Hinc.
  rewrite app_assoc in H.
  do 4 eexists. split; [exact H|].
  split; [apply Forall_app_2; [repeat constructor|exact Hinc]|].
  cbn [memoryStore].
  destruct (executeWithStreaming _ _ _) as [[sent [result [e|]]] calls];
    cbn [fst snd closingEvent].
  - assert (Complete
              match ctxs (registryAfterEngine srv inp) !! ctxHandle inp with
              | Some Canceled => event (B "stopped") (B "Agent execution was stopped")
              | _ => event (B "error") (getErrorMessage e)
              end = false) as ->
      by (destruct (ctxs _ !! _) as [[]|]; reflexivity).
    split.
    + unfold sessionMessages. rewrite Hs2. rewrite Hm. reflexivity.
    + destruct (ctxs _ !! _) as [[]|]; cbn; eauto.
  - cbn [Complete Type_ Content_]. split; [|reflexivity].
    unfold sessionMessages, AddMessage in *. cbn [withHeap heap] in *.
    rewrite lookup_alter_eq, Hs2. cbn. rewrite Hm, <- app_assoc. reflexivity.
Qed.

Lemma streaming_run_records_the_turn_witness :
  exists srv' session earlier closing,
    handleStreamChat defaultConfig emptyServer listRequest MoreExamples.failingRun
    = Some (srv', session, earlier ++ [closing])
    /\ Forall (fun ev => Complete ev = false) earlier
    /\ sessionMessages (memoryStore srv') session
       = messagesBefore (memoryStore emptyServer) (requestedID someEnv listRequest)
           ++ userMessage someEnv listRequest
           :: (if Complete closing
               then [assistantMessage someEnv (Content_ closing)]
               else [])
    /\ (if Complete closing then Type_ closing = B "response"
        else Type_ closing = B "error" \/ Type_ closing = B "stopped").
Proof.
  apply (streaming_run_records_the_turn defaultConfig emptyServer listRequest
           MoreExamples.failingRun).
  intros id p Hp. cbn in Hp. by rewrite lookup_empty in Hp.
Defined.

Lemma recoverParsingError_failure r0 e :
  Contains e parseMarker = true ->
  err (recoverParsingError r0 (Some e)) = None
  \/ err (recoverParsingError r0 (Some e)) = Some malformedResponseError.
Proof.
  intros H. unfold recoverParsingError. rewrite H.
  destruct (Contains e parseMarkerColon); [|by right].
  destruct (SplitN2 e parseMarkerColon) as [|x [|raw l]]; try by right.
  destruct (_ && _); [by left|by right].
Qed.

Lemma getErrorMessage_parse e :
  Contains e parseMarker = true -> getErrorMessage e = parseErrorMessage.
Proof.
  intros H. unfold getErrorMessage.
  rewrite (Contains_app_l e (B "unable to parse") (B " agent output") H).
  reflexivity.
Qed.

(** X18: a parsing failure that cannot be repaired is reported differently
    by the two chat paths.  In the streaming path, unless the run was
    stopped, the last event is an "error" event with the generic message,
    because the error that [executeWithStreaming] puts in its place no
    longer holds the phrase [getErrorMessage] looks for; the
    request/response path answers the same failure of the engine with the
    message about interpreting the tool output. *)
Theorem streaming_parse_failure_gets_generic_message (cfg : Config)
    (srv : Server) (req : ChatRequest) (inp : RunInputs) (r0 e : bytes) :
  ctxs (registryAfterEngine srv inp) !! ctxHandle inp <> Some Canceled ->
  (forall prompt, outcome (engine inp prompt) = ChainReturned r0 (Some e)) ->
  Contains e parseMarker = true ->
  err (recoverParsingError r0 (Some e)) <> None ->
  (exists srv' session events,
     handleStreamChat cfg srv req inp = Some (srv', session, events)
     /\ last events = Some (event (B "error") genericErrorMessage))
  /\ (exists srv' response,
        handleChat cfg srv req (env inp) (fun _ => (r0, Some e))
        = Some (srv', response)
        /\ Response response = parseErrorMessage).
Proof.
  intros Hctx Hrun Hparse Hfail. split.
  - destruct (handleStreamChat_shape cfg srv req inp) as (prompt & _ & H).
    cbv zeta in H. do 3 eexists. split; [exact H|].
    rewrite app_assoc, last_snoc. f_equal.
    assert (err (runClosure (outcome (engine inp prompt)))
            = Some malformedResponseError) as Herr.
    { rewrite Hrun. cbn [runClosure].
      destruct (recoverParsingError_failure r0 e Hparse); [done|assumption]. }
    rewrite (executeWithStreaming_fails _ _ _ _ Herr). cbn [fst snd closingEvent].
    destruct (ctxs (registryAfterEngine srv inp) !! ctxHandle inp) as [[]|];
      [done| |]; vm_compute; reflexivity.
  - unfold handleChat.
    destruct (GetOrCreateSession (env inp) (memoryStore srv) (SessionID req))
      as [m1 session].
    destruct (messageWithContext_total cfg
                (withHeap m1 (AddMessage (env inp) (heap m1) session
                                         (B "user") (Message req)))
                session (Message req)) as [prompt ->].
    do 2 eexists. split; [reflexivity|]. cbn [Response].
    by apply getErrorMessage_parse.
Qed.

Lemma streaming_parse_failure_gets_generic_message_witness :
  (exists srv' session events,
     handleStreamChat defaultConfig emptyServer listRequest
       MoreExamples.unparsableRun
     = Some (srv', session, events)
     /\ last events = Some (event (B "error") genericErrorMessage))
  /\ (exists srv' response,
        handleChat defaultConfig emptyServer listRequest someEnv
          (fun _ => ([], Some (B "unable to parse agent output: no idea")))
        = Some (srv', response)
        /\ Response response = parseErrorMessage).
Proof.
  apply (streaming_parse_failure_gets_generic_message defaultConfig emptyServer
           listRequest MoreExamples.unparsableRun []
           (B "unable to parse agent output: no idea")).
  - vm_compute. discriminate.
  - reflexivity.
  - vm_compute. reflexivity.
  - vm_compute. discriminate.
Defined.

Lemma GetRecentMessages_snoc s u (limit : positive) :
  exists older,
    GetRecentMessages
      {| ID := ID s; Messages := Messages s ++ [u]; Created := Created s;
         Updated := Updated s |} (Z.pos limit)
    = Some (older ++ [u]).
Proof.
  unfold GetRecentMessages. cbn [Messages]. rewrite length_app. cbn [length].
  destruct (Z.leb_spec (Z.of_nat (length (Messages s) + 1)) (Z.pos limit)).
  - eauto.
  - replace ((0 <=? _) && (_ <=? _))%Z with true
      by (symmetry; apply andb_true_iff; split; apply Z.leb_le; lia).
    exists (drop (Z.to_nat (Z.of_nat (length (Messages s) + 1) - Z.pos limit))
                 (Messages s)).
    rewrite drop_app_le by lia. reflexivity.
Qed.

Lemma GetConversationContext_snoc s limit older u :
  GetRecentMessages s limit = Some (older ++ [u]) ->
  GetConversationContext s limit
  = Some (contextHeader ++ flat_map formatMessage older ++ formatMessage u
            ++ contextTrailer).
Proof.
  intros H. unfold GetConversationContext. rewrite H.
  destruct (older ++ [u]) as [|x l] eqn:E; [by destruct older|].
  rewrite <- E, flat_map_app. cbn [flat_map]. rewrite app_nil_r.
  unfold contextHeader, contextTrailer. by rewrite <- !app_assoc.
Qed.

(** X19: in a conversation that already holds messages, the prompt built
    for the engine carries the message of the user twice: once as the last
    line of the rendered history, because the message is stored before the
    history is rendered, and once more after the history. *)
Theorem prompt_repeats_current_message (cfg : Config) (m : Store)
    (session : ptr) (s : ChatSession) (e : Env) (message : bytes) :
  heap m !! session = Some s ->
  Messages s <> [] ->
  let m2 := withHeap m (AddMessage e (heap m) session (B "user") message) in
  exists older,
    messageWithContext cfg m2 session message
    = Some (contextHeader ++ older
              ++ B "Human: " ++ message ++ [NL]
              ++ contextTrailer ++ B "Human: " ++ message).
Proof.
  intros Hs Hne. cbv zeta. unfold messageWithContext, sessionMessages, AddMessage.
  cbn [withHeap heap]. rewrite lookup_alter_eq, Hs. cbn [fmap option_fmap option_map].
  unfold addMessage at 1. cbn [Messages].
  assert ((1 <? length (Messages s ++ [{| Role := B "user"; Content := message;
                                          Timestamp := now e |}]))%nat = true)
    as ->.
  { apply Nat.ltb_lt. rewrite length_app. cbn.
    destruct (Messages s); [done|cbn; lia]. }
  destruct (GetRecentMessages_snoc
              {| ID := ID s; Messages := Messages s; Created := Created s;
                 Updated := now e |}
              {| Role := B "user"; Content := message; Timestamp := now e |}
              (ContextLimit cfg)) as [older Ho].
  cbn [ID Messages Created Updated] in Ho. unfold addMessage.
  rewrite (GetConversationContext_snoc _ _ _ _ Ho).
  exists (flat_map formatMessage older). f_equal.
  unfold formatMessage at 2. cbn [Role Content].
  rewrite bool_decide_true by reflexivity. by rewrite <- !app_assoc.
Qed.

Lemma prompt_repeats_current_message_witness :
  exists older,
    messageWithContext defaultConfig
      (withHeap oneSession
         (AddMessage someEnv (heap oneSession) 1%positive (B "user") (B "more")))
      1%positive (B "more")
    = Some (contextHeader ++ older
              ++ B "Human: " ++ B "more" ++ [NL]
              ++ contextTrailer ++ B "Human: " ++ B "more").
Proof.
  apply (prompt_repeats_current_message defaultConfig oneSession 1%positive
           twoMessages someEnv (B "more")); [vm_compute; reflexivity|discriminate].
Defined.

(** X20: what [handleChat] leaves behind.  The message of the user is
    appended in every case; when the engine fails, the answer is the text of
    [getErrorMessage] and nothing more is stored; when it succeeds, the
    answer is the result and it is stored behind the message.  The answer
    names the session the messages went to, and the registry of executions
    is not touched. *)
Theorem chat_records_only_successful_answers (cfg : Config) (srv : Server)
    (req : ChatRequest) (e : Env) (engine : bytes -> bytes * error) :
  keysMatchIDs (memoryStore srv) ->
  exists srv' response session prompt,
    handleChat cfg srv req e engine = Some (srv', response)
    /\ cancelManager srv' = cancelManager srv
    /\ ResponseSessionID response = requestedID e req
    /\ sessions (memoryStore srv') !! requestedID e req = Some session
    /\ sessionMessages (memoryStore srv') session
       = messagesBefore (memoryStore srv) (requestedID e req)
           ++ userMessage e req
           :: match (engine prompt).2 with
              | Some _ => []
              | None => [assistantMessage e (engine prompt).1]
              end
    /\ Response response
       = match (engine prompt).2 with
         | Some err => getErrorMessage err
         | None => (engine prompt).1
         end.
Proof.
  intros Hk.
  destruct (turn_start e (memoryStore srv) req Hk) as (Hs & s2 & Hs2 & Hid & Hm).
  cbv zeta in Hs, Hs2. unfold handleChat.
  destruct (GetOrCreateSession e (memoryStore srv) (SessionID req))
    as [m1 session].
  cbn [fst snd] in Hs, Hs2.
  destruct (messageWithContext_total cfg
              (withHeap m1 (AddMessage e (heap m1) session
                                       (B "user") (Message req)))
              session (Message req)) as [prompt ->].
  destruct (engine prompt) as [result [err|]] eqn:E.
  - exists {| memoryStore := withHeap m1 (AddMessage e (heap m1) session
                                            (B "user") (Message req));
              cancelManager := cancelManager srv |}.
    eexists. exists session, prompt. rewrite E. cbn [fst snd].
    split; [reflexivity|]. cbn [memoryStore cancelManager ResponseSessionID Response].
    unfold sessionID, sessionMessages. rewrite Hs2. by repeat split.
  - eexists. eexists. exists session, prompt. rewrite E. cbn [fst snd].
    split; [reflexivity|]. cbn [memoryStore cancelManager ResponseSessionID Response].
    unfold sessionID, sessionMessages, AddMessage in *. cbn [withHeap heap] in *.
    rewrite lookup_alter_eq, Hs2. cbn. rewrite Hm, <- app_assoc.
    by repeat split.
Qed.

Lemma chat_records_only_successful_answers_witness :
  exists srv' response session prompt,
    handleChat defaultConfig emptyServer listRequest someEnv
      (fun _ => (B "done", None))
    = Some (srv', response)
    /\ cancelManager srv' = cancelManager emptyServer
    /\ ResponseSessionID response = requestedID someEnv listRequest
    /\ sessions (memoryStore srv') !! requestedID someEnv listRequest
       = Some session
    /\ sessionMessages (memoryStore srv') session
       = messagesBefore (memoryStore emptyServer) (requestedID someEnv listRequest)
           ++ userMessage someEnv listRequest
           :: match ((fun _ : bytes => (B "done", @None bytes)) prompt).2 with
              | Some _ => []
              | None => [assistantMessage someEnv
                           ((fun _ : bytes => (B "done", @None bytes)) prompt).1]
              end
    /\ Response response
       = match ((fun _ : bytes => (B "done", @None bytes)) prompt).2 with
         | Some err => getErrorMessage err
         | None => ((fun _ : bytes => (B "done", @None bytes)) prompt).1
         end.
Proof.
  apply (chat_records_only_successful_answers defaultConfig emptyServer
           listRequest someEnv (fun _ => (B "done", None))).
  intros id p Hp. cbn in Hp. by rewrite lookup_empty in Hp.
Defined.

End OrchestratorExtras.

(** ** Facts about the callback handlers *)

Module CallbackExtras.

Import Wrapper Callbacks WrapperExtras.

Lemma verbose_spec L cb c :
  (0 <= L)%Z ->
  verbose L cb c
  = Some (if isLLMStart cb then {| iteration := S (iteration c); step := 0 |}
          else c).
Proof.
  intros HL. unfold verbose.
  destruct (logged cb) as [text|] eqn:E.
  - destruct (truncateForLog_Some L text HL) as (out & -> & _). by destruct cb.
  - by destruct cb.
Qed.

Lemma preview_spec L cb :
  (0 <= L)%Z ->
  exists p,
    preview L cb = Some p
    /\ match p with
       | Some text => length text <= Z.to_nat L + 3
       | None => True
       end.
Proof.
  intros HL.
  assert (forall text, exists p,
            Some <$> truncateForLog L text = Some p
            /\ match p with
               | Some text => length text <= Z.to_nat L + 3
               | None => True
               end) as Ht.
  { intros text. destruct (truncateForLog_Some L text HL) as (out & -> & Hout).
    by exists (Some out). }
  destruct cb as [| [|prompt l] | | [[|content l]|] | | | | | | | | | | | |];
    cbn [preview]; try apply Ht; try (by exists None).
  exists (Some []). split; [reflexivity|cbn; lia].
Qed.

(** What one callback sends, seen from the counters before it. *)
Lemma handle_spec L hasStream cb c :
  (0 <= L)%Z ->
  exists c' sent,
    handle L hasStream cb c = Some (c', sent)
    /\ (iteration c < iteration c'
        \/ (iteration c = iteration c' /\ step c <= step c'))
    /\ iteration c' = (if isLLMStart cb then S (iteration c) else iteration c)
    /\ Forall (fun m => wellFormed L m
                        /\ dIteration m = iteration c'
                        /\ stepNumber m = step c'
                        /\ (iteration c < iteration c'
                            \/ (iteration c = iteration c' /\ step c < step c')))
              sent
    /\ length sent = (if hasStream && sends cb then 1 else 0)
    /\ handle L false cb c = Some (c', []).
Proof.
  intros HL. unfold handle, sends. rewrite (verbose_spec L cb c HL). cbn [mbind option_bind].
  destruct (preview_spec L cb HL) as (p & Hp & Hlen). rewrite Hp.
  cbn [mbind option_bind].
  destruct (streamed cb) as [[label content]|] eqn:Es.
  - destruct hasStream; do 2 eexists; (split; [reflexivity|]);
      cbn [fst snd iteration step andb length];
      (split; [destruct (isLLMStart cb); cbn; lia|]);
      (split; [by destruct (isLLMStart cb)|]);
      (split; [|split; reflexivity]); [|constructor].
    apply Forall_cons_2; [|apply Forall_nil_2].
    unfold wellFormed. cbn [dType dDebug dIteration stepNumber dPreview].
    split; [split; [reflexivity|split; [reflexivity|split; [lia|exact Hlen]]]|].
    split; [reflexivity|]. split; [reflexivity|].
    destruct (isLLMStart cb); cbn; lia.
  - do 2 eexists. split; [by destruct hasStream|].
    assert (isLLMStart cb = false) as -> by (by destruct cb).
    rewrite andb_false_r. cbn [fst snd].
    split; [lia|]. split; [reflexivity|]. split; [constructor|].
    split; reflexivity.
Qed.

Lemma handleAll_spec L hasStream cbs : forall c,
  (0 <= L)%Z ->
  exists c' sent,
    handleAll L hasStream cbs c = Some (c', sent)
    /\ (iteration c < iteration c'
        \/ (iteration c = iteration c' /\ step c <= step c'))
    /\ iteration c' = iteration c + length (filter isLLMStart cbs)
    /\ Sorted.StronglySorted before sent
    /\ Forall (fun m => wellFormed L m
                        /\ (iteration c < dIteration m
                            \/ (iteration c = dIteration m
                                /\ step c < stepNumber m))
                        /\ (dIteration m < iteration c'
                            \/ (dIteration m = iteration c'
                                /\ stepNumber m <= step c')))
              sent
    /\ length sent = (if hasStream then length (filter sends cbs) else 0)
    /\ handleAll L false cbs c = Some (c', []).
Proof.
  induction cbs as [|cb cbs IH]; intros c HL.
  - exists c, []. cbn.
    split; [reflexivity|]. split; [lia|]. split; [lia|]. split; [constructor|].
    split; [constructor|]. split; [by destruct hasStream|reflexivity].
  - cbn [handleAll].
    destruct (handle_spec L hasStream cb c HL)
      as (c1 & sent1 & -> & H1 & H2 & H3 & H4 & ->).
    cbn [mbind option_bind fst snd].
    destruct (IH c1 HL) as (c2 & sent2 & -> & I1 & I2 & I3 & I4 & I5 & ->).
    cbn [mbind option_bind fst snd app].
    exists c2, (sent1 ++ sent2). split; [reflexivity|].
    split; [lia|]. split.
    { rewrite I2, H2. rewrite filter_cons.
      destruct (isLLMStart cb); case_decide; cbn in *; try tauto; lia. }
    split.
    { destruct sent1 as [|m1 [|? ?]]; [exact I3| |cbn in H4; by destruct (_ && _)].
      cbn [app]. constructor; [exact I3|].
      apply Forall_cons_1 in H3 as [(_ & Hi & Hn & _) _].
      eapply Forall_impl; [exact I4|]. intros m (_ & Hm & _).
      unfold before. lia. }
    split.
    { apply Forall_app_2.
      - eapply Forall_impl; [exact H3|]. intros m (? & ? & ? & ?).
        split; [assumption|]. split; lia.
      - eapply Forall_impl; [exact I4|]. intros m (? & ? & ?).
        split; [assumption|]. split; lia. }
    split; [|reflexivity].
    rewrite length_app, H4, I5, filter_cons.
    destruct hasStream; [|reflexivity]. cbn [andb].
    destruct (sends cb); case_decide; cbn in *; try tauto; lia.
Qed.

(** X21: the debug events of a run, for a log length that is not negative.
    Starting from a new handler, no callback panics; every event that the
    streaming callbacks send is a "debug" event marked as such, with a step
    of at least 1 and a preview no longer than the log length plus three
    bytes; the events are in strictly increasing order of (iteration, step);
    exactly one event goes out for each callback that the streaming handler
    implements itself; and the iteration counter ends at the number of LLM
    calls.  Without a stream function nothing is sent and the counters move
    in the same way. *)
Theorem streamed_debug_events_are_ordered (LogTruncateLength : Z)
    (cbs : list Callback) :
  (0 <= LogTruncateLength)%Z ->
  exists c sent,
    handleAll LogTruncateLength true cbs newCounters = Some (c, sent)
    /\ Sorted.StronglySorted before sent
    /\ Forall (wellFormed LogTruncateLength) sent
    /\ length sent = length (filter sends cbs)
    /\ iteration c = length (filter isLLMStart cbs)
    /\ handleAll LogTruncateLength false cbs newCounters = Some (c, []).
Proof.
  intros HL.
  destruct (handleAll_spec LogTruncateLength true cbs newCounters HL)
    as (c & sent & H & _ & H2 & H3 & H4 & H5 & H6).
  exists c, sent. repeat split; try assumption.
  eapply Forall_impl; [exact H4|]. by intros m (? & _).
Qed.

Lemma streamed_debug_events_are_ordered_witness :
  exists c sent,
    handleAll 5 true MoreExamples.oneToolTurn newCounters = Some (c, sent)
    /\ Sorted.StronglySorted before sent
    /\ Forall (wellFormed 5) sent
    /\ length sent = length (filter sends MoreExamples.oneToolTurn)
    /\ iteration c = length (filter isLLMStart MoreExamples.oneToolTurn)
    /\ handleAll 5 false MoreExamples.oneToolTurn newCounters = Some (c, []).
Proof.
  apply (streamed_debug_events_are_ordered 5 MoreExamples.oneToolTurn). lia.
Defined.

End CallbackExtras.

(** ** Facts about the configuration *)

Module ConfigExtras.

Import ConfigLoad Wrapper WrapperExtras.

Lemma number_positive Getenv name default convert :
  (0 < default)%Z ->
  (forall val, (0 < val)%Z -> (0 < convert val)%Z) ->
  (0 < number Getenv name default convert)%Z.
Proof.
  intros Hd Hc. unfold number. destruct (isEmpty _); [assumption|].
  destruct (Atoi _) as [val|]; [|assumption].
  destruct (Z.ltb_spec 0 val); [by apply Hc|assumption].
Qed.

Lemma text_nonempty Getenv name default :
  default <> [] -> text Getenv name default <> [].
Proof.
  intros Hd. unfold text. destruct (Getenv (B name)); [assumption|discriminate].
Qed.

(** X22: whatever the environment holds, the configuration that
    [LoadConfig] returns has positive numbers for the iterations, the
    context limit, the sessions per user, the log length and the concurrent
    requests; its provider is "ollama" or "gemini", and "gemini" only
    together with a key; the texts with a default are not empty; and
    [truncateForLog] with the loaded length never panics. *)
Theorem loaded_config_is_valid (Getenv : bytes -> bytes) :
  let config := LoadConfig Getenv in
  (0 < MaxIterations config)%Z
  /\ (0 < ContextLimit config)%Z
  /\ (0 < MaxSessionsPerUser config)%Z
  /\ (0 < LogTruncateLength config)%Z
  /\ (0 < MaxConcurrentRequests config)%Z
  /\ (LLMProvider config = B "ollama"
      \/ (LLMProvider config = B "gemini" /\ GeminiAPIKey config <> []))
  /\ Port config <> [] /\ OllamaEndpoint config <> []
  /\ OllamaModel config <> [] /\ GeminiModel config <> []
  /\ LogLevel config <> []
  /\ forall text, is_Some (truncateForLog (LogTruncateLength config) text).
Proof.
  cbv zeta.
  assert (0 < LogTruncateLength (LoadConfig Getenv))%Z as Hlog
    by (apply number_positive; [lia|auto]).
  repeat match goal with |- _ /\ _ => split end;
    try (apply number_positive; [lia|auto]);
    try (apply text_nonempty; discriminate).
  - cbn [LoadConfig LLMProvider GeminiAPIKey].
    destruct (text Getenv "GEMINI_API_KEY" []) as [|k ks] eqn:Ek; cbn [isEmpty].
    + rewrite andb_true_r.
      destruct (negb _ && (bool_decide _ || bool_decide _)) eqn:Ep.
      * apply andb_true_iff in Ep as [_ Ep]. apply orb_true_iff in Ep.
        destruct Ep as [Ep|Ep]; apply bool_decide_eq_true in Ep; rewrite Ep;
          by left.
      * by left.
    + rewrite andb_false_r.
      destruct (negb _ && (bool_decide _ || bool_decide _)) eqn:Ep.
      * apply andb_true_iff in Ep as [_ Ep]. apply orb_true_iff in Ep.
        destruct Ep as [Ep|Ep]; apply bool_decide_eq_true in Ep; rewrite Ep;
          [by left|by right].
      * by right.
  - intros text. unfold truncateForLog.
    destruct (_ <=? _)%Z; [eauto|].
    destruct (Z.leb_spec 0 (LogTruncateLength (LoadConfig Getenv))); [eauto|lia].
Qed.

(** X23: the request time-out read from [REQUEST_TIMEOUT].  A number of
    seconds up to 9223372036 is taken as it is; for a larger one, which
    [Atoi] still accepts, the product with [time.Second] leaves the range of
    the 64-bit duration and the time-out that results is shorter than the
    one asked for. *)
Theorem request_timeout_in_seconds (Getenv : bytes -> bytes) (val : Z) :
  Getenv (B "REQUEST_TIMEOUT") <> [] ->
  Atoi (Getenv (B "REQUEST_TIMEOUT")) = Some val ->
  (0 < val)%Z ->
  (if (val <=? maxSeconds)%Z
   then RequestTimeout (LoadConfig Getenv) = (val * Second)%Z
   else (RequestTimeout (LoadConfig Getenv) < val * Second)%Z).
Proof.
  intros Hne Ha Hv. cbn [LoadConfig RequestTimeout]. unfold number.
  destruct (Getenv (B "REQUEST_TIMEOUT")) as [|c t] eqn:E; [done|].
  cbn [isEmpty]. rewrite Ha. destruct (Z.ltb_spec 0 val); [|lia].
  unfold wrap64, maxSeconds, Second.
  destruct (Z.leb_spec val 9223372036).
  - rewrite Z.mod_small; lia.
  - pose proof (Z.mod_pos_bound (val * 1000000000 + 2 ^ 63) (2 ^ 64)). lia.
Qed.

Lemma request_timeout_in_seconds_witness :
  let Getenv := fun name : bytes =>
    if bool_decide (name = B "REQUEST_TIMEOUT") then B "9223372037" else [] in
  (if (9223372037 <=? maxSeconds)%Z
   then RequestTimeout (LoadConfig Getenv) = (9223372037 * Second)%Z
   else (RequestTimeout (LoadConfig Getenv) < 9223372037 * Second)%Z).
Proof.
  apply (request_timeout_in_seconds
           (fun name : bytes =>
              if bool_decide (name = B "REQUEST_TIMEOUT") then B "9223372037"
              else []) 9223372037).
  - vm_compute. discriminate.
  - vm_compute. reflexivity.
  - lia.
Defined.

End ConfigExtras.

(** ** Facts about the session and stop endpoints *)

Module HttpExtras.

Import Memory Cancel Orchestrator MemoryMore OrchestratorMore Http.
Import MemoryExtras.

Lemma isEmpty_false (s : bytes) : isEmpty s = false <-> s <> [].
Proof. by destruct s. Qed.

(** X24: [handleGetSession], from the request.  For an empty identifier
    it answers 400, and for an identifier that is not stored 404; the server
    stays as it was.  For a stored session it answers 200 with the
    identifier, the creation time and the messages of the session, and with
    the time of this very request as the time of the last update: the
    look-up counts as activity.  The stored identifiers stay as they are. *)
Theorem get_session_reports_and_refreshes (e : Env) (srv : Server)
    (sessionId : bytes) :
  keysMatchIDs (memoryStore srv) ->
  let out := handleGetSession e srv sessionId in
  sessions (memoryStore out.1.1) = sessions (memoryStore srv)
  /\ if isEmpty sessionId then out = (srv, StatusBadRequest, None)
     else
       match sessions (memoryStore srv) !! sessionId with
       | None => out = (srv, StatusNotFound, None)
       | Some p =>
           out.1.2 = StatusOK
           /\ cancelManager out.1.1 = cancelManager srv
           /\ exists s,
                heap (memoryStore srv) !! p = Some s
                /\ out.2 = Some {| id := sessionId; created := Created s;
                                   updated := now e;
                                   messageCount_ := length (Messages s);
                                   messages := Messages s |}
                /\ Messages s = messagesBefore (memoryStore srv) sessionId
       end.
Proof.
  intros Hk. cbv zeta. unfold handleGetSession.
  destruct (isEmpty sessionId) eqn:Hemp; [by split|].
  destruct (sessions (memoryStore srv) !! sessionId) as [p|] eqn:E;
    unfold GetSession, messagesBefore; rewrite E; cbn [fst snd]; [|by split].
  destruct (Hk _ _ E) as (s & Hs & Hid). cbn [heap].
  split; [reflexivity|]. split; [reflexivity|]. split; [reflexivity|].
  exists s. split; [exact Hs|]. rewrite lookup_alter_eq, Hs.
  unfold sessionMessages. rewrite Hs.
  destruct s as [sid msgs cr up]. cbn in Hid. subst sid. by split.
Qed.

Lemma get_session_reports_and_refreshes_witness :
  let out := handleGetSession someEnv MoreExamples.oneServer (B "s") in
  sessions (memoryStore out.1.1) = sessions (memoryStore MoreExamples.oneServer)
  /\ if isEmpty (B "s") then out = (MoreExamples.oneServer, StatusBadRequest, None)
     else
       match sessions (memoryStore MoreExamples.oneServer) !! B "s" with
       | None => out = (MoreExamples.oneServer, StatusNotFound, None)
       | Some p =>
           out.1.2 = StatusOK
           /\ cancelManager out.1.1 = cancelManager MoreExamples.oneServer
           /\ exists s,
                heap (memoryStore MoreExamples.oneServer) !! p = Some s
                /\ out.2 = Some {| id := B "s"; created := Created s;
                                   updated := now someEnv;
                                   messageCount_ := length (Messages s);
                                   messages := Messages s |}
                /\ Messages s
                   = messagesBefore (memoryStore MoreExamples.oneServer) (B "s")
       end.
Proof.
  apply (get_session_reports_and_refreshes someEnv MoreExamples.oneServer (B "s")).
  exact oneSession_keysMatchIDs.
Defined.

(** X25: clearing a stored session answers 200 with the number of messages
    it held; a look-up afterwards finds the session under the same
    identifier, with its creation time, and without messages. *)
Theorem cleared_session_is_empty_but_kept (e e' : Env) (srv : Server)
    (sessionId : bytes) (p : ptr) (s : ChatSession) :
  sessionId <> [] ->
  sessions (memoryStore srv) !! sessionId = Some p ->
  heap (memoryStore srv) !! p = Some s ->
  let cleared := handleClearSession e srv sessionId in
  cleared.1.2 = StatusOK
  /\ cleared.2 = Some (length (Messages s))
  /\ (handleGetSession e' cleared.1.1 sessionId).1.2 = StatusOK
  /\ (handleGetSession e' cleared.1.1 sessionId).2
     = Some {| id := ID s; created := Created s; updated := now e';
               messageCount_ := 0; messages := [] |}.
Proof.
  intros Hne Hp Hs. cbv zeta. unfold handleClearSession, handleGetSession.
  apply isEmpty_false in Hne. rewrite Hne. unfold GetSession. rewrite Hp.
  cbn [fst snd withStore memoryStore withHeap sessions heap]. rewrite Hp.
  cbn [fst snd withStore memoryStore withHeap sessions heap].
  unfold messageCount, ClearMessagesAt.
  rewrite !lookup_alter_eq, Hs. by repeat split.
Qed.

Lemma cleared_session_is_empty_but_kept_witness :
  let cleared := handleClearSession someEnv MoreExamples.oneServer (B "s") in
  cleared.1.2 = StatusOK
  /\ cleared.2 = Some (length (Messages twoMessages))
  /\ (handleGetSession MoreExamples.laterEnv cleared.1.1 (B "s")).1.2 = StatusOK
  /\ (handleGetSession MoreExamples.laterEnv cleared.1.1 (B "s")).2
     = Some {| id := ID twoMessages; created := Created twoMessages;
               updated := now MoreExamples.laterEnv;
               messageCount_ := 0; messages := [] |}.
Proof.
  apply (cleared_session_is_empty_but_kept someEnv MoreExamples.laterEnv
           MoreExamples.oneServer (B "s") 1%positive twoMessages);
    [discriminate|vm_compute; reflexivity|vm_compute; reflexivity].
Defined.

(** X26: after [handleDeleteSession] the identifier is gone: a look-up and a
    second deletion both answer 404.  Every other identifier stays, and so
    does the session object itself, which a request that still holds its
    pointer goes on using. *)
Theorem deleted_session_is_not_found (e : Env) (srv : Server)
    (sessionId : bytes) :
  sessionId <> [] ->
  let srv1 := (handleDeleteSession srv sessionId).1 in
  handleGetSession e srv1 sessionId = (srv1, StatusNotFound, None)
  /\ handleDeleteSession srv1 sessionId = (srv1, StatusNotFound)
  /\ heap (memoryStore srv1) = heap (memoryStore srv)
  /\ cancelManager srv1 = cancelManager srv
  /\ forall other, other <> sessionId ->
       sessions (memoryStore srv1) !! other
       = sessions (memoryStore srv) !! other.
Proof.
  intros Hne. cbv zeta.
  assert (sessions (memoryStore (handleDeleteSession srv sessionId).1)
            !! sessionId = None
          /\ heap (memoryStore (handleDeleteSession srv sessionId).1)
             = heap (memoryStore srv)
          /\ cancelManager (handleDeleteSession srv sessionId).1
             = cancelManager srv
          /\ forall other, other <> sessionId ->
               sessions (memoryStore (handleDeleteSession srv sessionId).1)
                 !! other
               = sessions (memoryStore srv) !! other) as (H1 & H2 & H3 & H4).
  { unfold handleDeleteSession, DeleteSession.
    rewrite (proj2 (isEmpty_false _) Hne).
    destruct (sessions (memoryStore srv) !! sessionId) eqn:E; cbn.
    - rewrite lookup_delete_eq. repeat split.
      intros other Ho. by rewrite lookup_delete_ne.
    - by repeat split. }
  repeat split; try assumption.
  - unfold handleGetSession, GetSession.
    rewrite (proj2 (isEmpty_false _) Hne), H1. reflexivity.
  - unfold handleDeleteSession at 1, DeleteSession.
    rewrite (proj2 (isEmpty_false _) Hne), H1. reflexivity.
Qed.

Lemma deleted_session_is_not_found_witness :
  let srv1 := (handleDeleteSession MoreExamples.oneServer (B "s")).1 in
  handleGetSession someEnv srv1 (B "s") = (srv1, StatusNotFound, None)
  /\ handleDeleteSession srv1 (B "s") = (srv1, StatusNotFound)
  /\ heap (memoryStore srv1) = heap (memoryStore MoreExamples.oneServer)
  /\ cancelManager srv1 = cancelManager MoreExamples.oneServer
  /\ forall other, other <> B "s" ->
       sessions (memoryStore srv1) !! other
       = sessions (memoryStore MoreExamples.oneServer) !! other.
Proof.
  apply (deleted_session_is_not_found someEnv MoreExamples.oneServer (B "s")).
  discriminate.
Defined.

(** X27: [handleStopExecution] answers 200 exactly when the request names a
    registered execution; it then invokes the trigger of that execution
    once, deregisters it, and leaves its context cancelled.  In every other
    case (a body that cannot be read, an empty or unknown identifier) the
    server is left as it was and the answer says that nothing was stopped.
    The sessions are never touched. *)
Theorem stop_request_outcomes (srv : Server) (req : option bytes) :
  let out := handleStopExecution srv req in
  let registered :=
    match req with
    | Some ExecutionID =>
        if isEmpty ExecutionID then None
        else executions (cancelManager srv) !! ExecutionID
    | None => None
    end in
  memoryStore out.1.1 = memoryStore srv
  /\ Success out.2 = Stopped out.2
  /\ match registered with
     | Some cancel =>
         out.1.2 = StatusOK /\ Stopped out.2 = true
         /\ invoked (cancelManager out.1.1)
            = invoked (cancelManager srv) ++ [cancel]
         /\ is_Some (ctxs (cancelManager out.1.1) !! cancel)
         /\ executions (cancelManager out.1.1)
            = delete (default [] req) (executions (cancelManager srv))
     | None =>
         out.1.1 = srv /\ Stopped out.2 = false
         /\ out.1.2 = (if bool_decide (default [] req = [])
                       then StatusBadRequest else StatusNotFound)
     end.
Proof.
  cbv zeta. unfold handleStopExecution.
  destruct req as [ExecutionID|]; [|by destruct srv].
  cbn [default].
  destruct (isEmpty ExecutionID) eqn:Hemp.
  { apply isEmpty_spec in Hemp. subst. by destruct srv. }
  apply isEmpty_false in Hemp. rewrite bool_decide_false by assumption.
  unfold CancelExecution.
  destruct (executions (cancelManager srv) !! ExecutionID) as [cancel|] eqn:E;
    cbn [fst snd memoryStore cancelManager Success Stopped].
  - repeat split. unfold RemoveExecution, invoke. cbn [ctxs].
    rewrite OrchestratorFacts.settle_lookup.
    destruct (ctxs (cancelManager srv) !! cancel); [eauto|].
    rewrite decide_True by reflexivity. eauto.
  - repeat split. by destruct srv.
Qed.

(** X28: [handleListSessions] lists one session for each stored identifier,
    and in a store whose keys are the identifiers of its sessions each
    listed session carries the identifier it is stored under, so that no
    identifier is listed twice. *)
Theorem listed_sessions_carry_their_keys (srv : Server) :
  keysMatchIDs (memoryStore srv) ->
  (handleListSessions srv).1 = StatusOK
  /\ (fun o : option ChatSession => ID <$> o) <$> (handleListSessions srv).2
     = (Some <$> (map_to_list (sessions (memoryStore srv))).*1 : list (option bytes))
  /\ NoDup ((fun o : option ChatSession => ID <$> o) <$> (handleListSessions srv).2)
  /\ length (handleListSessions srv).2 = (GetSessionStats (memoryStore srv)).1.
Proof.
  intros Hk.
  assert ((fun o : option ChatSession => ID <$> o) <$> (handleListSessions srv).2
          = (Some <$> (map_to_list (sessions (memoryStore srv))).*1 : list (option bytes))) as Heq.
  { unfold handleListSessions, deref, GetAllSessions. cbn [snd].
    assert (Forall (fun kv : bytes * ptr =>
                      sessions (memoryStore srv) !! kv.1 = Some kv.2)
                   (map_to_list (sessions (memoryStore srv)))) as Hall.
    { apply Forall_forall. intros [k q] Hin. by apply elem_of_map_to_list. }
    induction Hall as [|[k q] l Hkq _ IH]; [reflexivity|].
    cbn in *. destruct (Hk _ _ Hkq) as (s & -> & <-). cbn. f_equal. exact IH. }
  split; [reflexivity|]. split; [exact Heq|]. split.
  - rewrite Heq. apply (NoDup_fmap_2 Some), NoDup_fst_map_to_list.
  - unfold handleListSessions, deref, GetAllSessions, GetSessionStats.
    cbn [fst snd]. rewrite length_map, length_fmap.
    apply length_map_to_list.
Qed.

Lemma listed_sessions_carry_their_keys_witness :
  (handleListSessions MoreExamples.oneServer).1 = StatusOK
  /\ (fun o : option ChatSession => ID <$> o) <$> (handleListSessions MoreExamples.oneServer).2
     = (Some <$> (map_to_list (sessions (memoryStore MoreExamples.oneServer))).*1
        : list (option bytes))
  /\ NoDup ((fun o : option ChatSession => ID <$> o) <$> (handleListSessions MoreExamples.oneServer).2)
  /\ length (handleListSessions MoreExamples.oneServer).2
     = (GetSessionStats (memoryStore MoreExamples.oneServer)).1.
Proof.
  apply (listed_sessions_carry_their_keys MoreExamples.oneServer).
  exact oneSession_keysMatchIDs.
Defined.

End HttpExtras.
